(** * Progress computation and certificate eligibility

    A shallow embedding of the Django views and models that score quizzes,
    track audio progress, recompute a learner's overall progress and issue
    certificates ([modules/models.py], [modules/serializers.py],
    [modules/views.py], [progress/models.py], [progress/serializers.py],
    [progress/views.py], [progress/admin.py]), followed by the properties
    established for them.

    Modelling conventions.
    - A database table is the list of its rows in insertion order; a
      primary key is one more than the largest key in the table.
    - A Python float ([FloatField]) is kept as the rational it denotes,
      and comparisons are the exact ones.  The score of a quiz is computed
      as Python computes it, each operation rounded to the nearest binary64
      number ([binary64]); the mean of the best scores and the completion
      percentage are left exact.
    - Time is a natural number; one request reads the clock once ([now]).
    - Exceptions escape a view with the database as it was when they
      were raised (Django's default autocommit, no ATOMIC_REQUESTS).
    - Randomness ([random.choices], [uuid.uuid4]) is an explicit input. *)

From Stdlib Require Import QArith Qminmax Qround Qpower Qabs Lqa SpecFloat Ascii String
  Sorted.
From stdpp Require Import base decidable option list list_numbers gmap strings pretty.

Local Open Scope nat_scope.

(** ** Querysets over a table *)

Inductive Exception :=
  | DoesNotExist
  | MultipleObjectsReturned
  | IntegrityError.

Section queryset.
Context {A : Type}.

(** [Model.objects.get(...)]: exactly one row must match. *)
Definition get (P : A → Prop) `{!∀ x, Decision (P x)} (rows : list A)
  : Exception + A :=
  match filter P rows with
  | [] => inl DoesNotExist
  | [x] => inr x
  | _ :: _ :: _ => inl MultipleObjectsReturned
  end.

(** [ORDER BY]: a stable insertion sort; [before x y] says that [x] may
    stand in front of [y].  Rows the ordering does not separate keep their
    insertion order (the database leaves that order unspecified). *)
Fixpoint insert_by (before : A → A → bool) (x : A) (l : list A) : list A :=
  match l with
  | [] => [x]
  | y :: l' => if before x y then x :: y :: l' else y :: insert_by before x l'
  end.

Definition order_by (before : A → A → bool) (l : list A) : list A :=
  foldr (insert_by before) [] l.

(** [.first()] of an ordered queryset. *)
Definition first (l : list A) : option A := head l.

(** [UPDATE ... WHERE id = pk]. *)
Definition update_row (pk : A → nat) (r : A) (rows : list A) : list A :=
  (λ x, if decide (pk x = pk r) then r else x) <$> rows.
End queryset.

(** Descending orders on a natural or a rational key. *)
Definition desc {A} (key : A → nat) (x y : A) : bool := bool_decide (key y ≤ key x).
Definition descQ {A} (key : A → Q) (x y : A) : bool := Qle_bool (key y) (key x).
Definition asc {A} (key : A → nat) (x y : A) : bool := bool_decide (key x ≤ key y).

(** The next value of an auto-increment primary key. *)
Definition next_pk (ids : list nat) : nat := S (max_list ids).

(** [sum(l) / len(l)] on floats. *)
Definition sumQ (l : list Q) : Q := foldr Qplus 0%Q l.
Definition of_nat (n : nat) : Q := inject_Z (Z.of_nat n).
Definition mean (l : list Q) : Q := (sumQ l / of_nat (length l))%Q.

(** ** Models *)

(** [accounts/models.py], [CustomUser]: the fields the views read. *)
Record User := {
  user_id : nat;
  preferred_language : string;
  full_name : string;
}.

(** [modules/models.py], [Module]. *)
Record Module_ := {
  module_id : nat;
  number : nat;
  title : string;
  audio_fon : option string;
  module_is_active : bool;
}.

Definition is_reporting_module (m : Module_) : bool := bool_decide (number m = 10).

Inductive QuestionType := SINGLE | MULTIPLE.

#[global] Instance QuestionType_eq_dec : EqDecision QuestionType.
Proof. solve_decision. Defined.

Record QuizQuestion := {
  question_id : nat;
  question_module : nat;
  order : nat;
  question_type : QuestionType;
  points : nat;
  question_is_active : bool;
}.

Record AnswerChoice := {
  choice_id : nat;
  choice_question : nat;
  choice_is_correct : bool;
  choice_order : nat;
}.

Record UserQuizAttempt := {
  attempt_id : nat;
  attempt_user : nat;
  attempt_module : nat;
  attempt_number : nat;
  score : Q;
  total_questions : nat;
  correct_answers : nat;
  is_passed : bool;
  started_at : nat;
  attempt_completed_at : nat;
}.

(** [points_earned] is a float column that only ever receives a question's
    integral [points] or [0]; the many-to-many [selected_choices] is the
    set of the chosen ids. *)
Record UserQuizAnswer := {
  answer_id : nat;
  answer_attempt : nat;
  answer_question : nat;
  selected_choices : gset nat;
  is_correct : bool;
  points_earned : nat;
}.

(** [progress/models.py]. *)
Record ModuleProgress := {
  progress_id : nat;
  progress_user : nat;
  progress_module : nat;
  progress_percentage : Q;
  is_completed : bool;
  last_audio_position : nat;
  total_listening_time : nat;
  listening_sessions : nat;
  progress_started_at : nat;
  progress_updated_at : nat;
  progress_completed_at : option nat;
}.

Record Certificate := {
  cert_id : nat;
  cert_user : nat;
  certificate_id : nat;
  verification_code : string;
  cert_full_name : string;
  completion_date : nat;
  total_modules_completed : nat;
  average_score : option Q;
  is_valid : bool;
  signed_by : string;
  signature_date : option nat;
}.

Record UserActivity := {
  activity_id : nat;
  activity_user : nat;
  activity_type : string;
  activity_module : option nat;
  details : list (string * string);
  timestamp : nat;
}.

Record OverallProgress := {
  overall_id : nat;
  overall_user : nat;
  total_modules : nat;
  completed_modules : nat;
  completion_percentage : Q;
  total_quiz_attempts : nat;
  average_quiz_score : option Q;
  total_audio_time : nat;
  can_get_certificate : bool;
  certificate_requested : bool;
  overall_started_at : nat;
  overall_updated_at : nat;
  completed_at : option nat;
}.

(** ** The database and the monad of a request *)

Record Database := {
  modules : list Module_;
  quiz_questions : list QuizQuestion;
  answer_choices : list AnswerChoice;
  quiz_attempts : list UserQuizAttempt;
  quiz_answers : list UserQuizAnswer;
  module_progress : list ModuleProgress;
  certificates : list Certificate;
  overall_progress : list OverallProgress;
  activities : list UserActivity;
}.

Definition with_quiz_attempts (f : list UserQuizAttempt → list UserQuizAttempt)
    (db : Database) : Database :=
  {| modules := modules db; quiz_questions := quiz_questions db;
     answer_choices := answer_choices db; quiz_attempts := f (quiz_attempts db);
     quiz_answers := quiz_answers db; module_progress := module_progress db;
     certificates := certificates db; overall_progress := overall_progress db;
     activities := activities db |}.

Definition with_quiz_answers (f : list UserQuizAnswer → list UserQuizAnswer)
    (db : Database) : Database :=
  {| modules := modules db; quiz_questions := quiz_questions db;
     answer_choices := answer_choices db; quiz_attempts := quiz_attempts db;
     quiz_answers := f (quiz_answers db); module_progress := module_progress db;
     certificates := certificates db; overall_progress := overall_progress db;
     activities := activities db |}.

Definition with_module_progress (f : list ModuleProgress → list ModuleProgress)
    (db : Database) : Database :=
  {| modules := modules db; quiz_questions := quiz_questions db;
     answer_choices := answer_choices db; quiz_attempts := quiz_attempts db;
     quiz_answers := quiz_answers db; module_progress := f (module_progress db);
     certificates := certificates db; overall_progress := overall_progress db;
     activities := activities db |}.

Definition with_certificates (f : list Certificate → list Certificate)
    (db : Database) : Database :=
  {| modules := modules db; quiz_questions := quiz_questions db;
     answer_choices := answer_choices db; quiz_attempts := quiz_attempts db;
     quiz_answers := quiz_answers db; module_progress := module_progress db;
     certificates := f (certificates db); overall_progress := overall_progress db;
     activities := activities db |}.

Definition with_overall_progress (f : list OverallProgress → list OverallProgress)
    (db : Database) : Database :=
  {| modules := modules db; quiz_questions := quiz_questions db;
     answer_choices := answer_choices db; quiz_attempts := quiz_attempts db;
     quiz_answers := quiz_answers db; module_progress := module_progress db;
     certificates := certificates db; overall_progress := f (overall_progress db);
     activities := activities db |}.

Definition with_activities (f : list UserActivity → list UserActivity)
    (db : Database) : Database :=
  {| modules := modules db; quiz_questions := quiz_questions db;
     answer_choices := answer_choices db; quiz_attempts := quiz_attempts db;
     quiz_answers := quiz_answers db; module_progress := module_progress db;
     certificates := certificates db; overall_progress := overall_progress db;
     activities := f (activities db) |}.

(** A computation of a request: it threads the database and either returns
    a value or raises. *)
Definition DbM (A : Type) : Type := Database → Database * (Exception + A).

Definition raise {A} (e : Exception) : DbM A := λ db, (db, inl e).
Definition query {A} (f : Database → A) : DbM A := λ db, (db, inr (f db)).
Definition execute (f : Database → Database) : DbM () := λ db, (f db, inr ()).
Definition lift {A} (r : Exception + A) : DbM A := λ db, (db, r).

#[global] Instance DbM_ret : MRet DbM := λ A x db, (db, inr x).
#[global] Instance DbM_bind : MBind DbM := λ A B f m db,
  match m db with
  | (db', inl e) => (db', inl e)
  | (db', inr x) => f x db'
  end.

(** What a view hands back: an HTTP status and a payload. *)
Record Response (A : Type) := { status_code : nat; data : A }.
Arguments status_code {A} _.
Arguments data {A} _.

Definition HTTP_200_OK := 200.
Definition HTTP_201_CREATED := 201.
Definition HTTP_400_BAD_REQUEST := 400.
Definition HTTP_404_NOT_FOUND := 404.

(** Serializer errors: a dictionary from field names to what went wrong. *)
Inductive ErrorDetail :=
  | Message (msg : string)
  | InvalidPk (pk : nat)
  | Blank
  | MaxLength (n : nat)
  | MinValue
  | MaxValue.

Definition Errors := list (string * list ErrorDetail).

(** Running a monadic action over a list, left to right. *)
Fixpoint for_each {A B} (f : A → DbM B) (l : list A) : DbM (list B) :=
  match l with
  | [] => mret []
  | x :: l' => y ← f x; ys ← for_each f l'; mret (y :: ys)
  end.

(** ** Quiz submission: [modules/serializers.py] *)

(** The request body of [submit_quiz] and one of its answers, as parsed. *)
Record AnswerData := {
  data_question : nat;
  data_selected_choices : list nat;
}.

Record QuizSubmissionData := {
  data_module_id : nat;
  data_answers : list AnswerData;
  data_started_at : nat;
}.

(** Validated data: primary keys are resolved to the rows they name. *)
Record ValidatedAnswer := {
  question : QuizQuestion;
  answer_selected_choices : list AnswerChoice;
}.

Record QuizSubmission := {
  validated_module_id : nat;
  answers : list ValidatedAnswer;
  validated_started_at : nat;
}.

(** [PrimaryKeyRelatedField]: the row with that key, or a field error. *)
Definition related_pk {A} (pk : A → nat) (table : Database → list A)
    (value : nat) : DbM (list ErrorDetail + A) :=
  rows ← query table;
  match get (λ x, pk x = value) rows with
  | inr x => mret (inr x)
  | inl DoesNotExist => mret (inl [InvalidPk value])
  | inl e => raise e
  end.

(** The errors of a list of field results, or all their values. *)
Fixpoint collect {A} (l : list (list ErrorDetail + A)) : list ErrorDetail + list A :=
  match l with
  | [] => inr []
  | inl e :: l' => match collect l' with inl es => inl (e ++ es) | inr _ => inl e end
  | inr x :: l' => match collect l' with inl es => inl es | inr xs => inr (x :: xs) end
  end.

(** [UserQuizAnswerSerializer]: fields [question], [selected_choices]. *)
Definition UserQuizAnswerSerializer (a : AnswerData)
    : DbM (list ErrorDetail + ValidatedAnswer) :=
  q ← related_pk question_id quiz_questions (data_question a);
  cs ← for_each (related_pk choice_id answer_choices) (data_selected_choices a);
  mret (match q, collect cs with
        | inr q, inr cs => inr {| question := q; answer_selected_choices := cs |}
        | inl e, inr _ => inl e
        | inr _, inl es => inl es
        | inl e, inl es => inl (e ++ es)
        end).

(** [QuizSubmissionSerializer.validate_module_id]. *)
Definition validate_module_id (value : nat) : DbM (list ErrorDetail + nat) :=
  rows ← query modules;
  match get (λ m, module_id m = value ∧ module_is_active m = true) rows with
  | inr module =>
      if is_reporting_module module
      then mret (inl [Message "Le module de signalement n'a pas de quiz."])
      else mret (inr value)
  | inl DoesNotExist => mret (inl [Message "Module introuvable."])
  | inl e => raise e
  end.

(** The body of the loop of [validate_answers] for one answer: [None] when
    the answer is coherent. *)
Definition check_answer (db : Database) (answer : ValidatedAnswer) : option ErrorDetail :=
  let question := question answer in
  let selected_choices := answer_selected_choices answer in
  let valid_choice_ids : gset nat :=
    list_to_set (choice_id <$>
      filter (λ c, choice_question c = question_id question) (answer_choices db)) in
  let selected_choice_ids : gset nat := list_to_set (choice_id <$> selected_choices) in
  if negb (bool_decide (selected_choice_ids ⊆ valid_choice_ids)) then
    Some (Message ("Choix invalides pour la question " +:+ pretty (order question)))
  else if bool_decide (question_type question = SINGLE ∧ 1 < length selected_choices) then
    Some (Message ("La question " +:+ pretty (order question)
                   +:+ " n'accepte qu'une seule réponse"))
  else None.

(** [QuizSubmissionSerializer.validate_answers]: the first incoherent answer
    raises. *)
Definition validate_answers (value : list ValidatedAnswer)
    : DbM (list ErrorDetail + list ValidatedAnswer) :=
  db ← query id;
  match value with
  | [] => mret (inl [Message "Au moins une réponse est requise."])
  | _ :: _ =>
      match list_find (λ a, is_Some (check_answer db a)) value with
      | Some (_, a) => mret (inl (option_list (check_answer db a)))
      | None => mret (inr value)
      end
  end.

(** [QuizSubmissionSerializer.is_valid]: every field is validated and the
    errors are gathered per field. *)
Definition QuizSubmissionSerializer (d : QuizSubmissionData)
    : DbM (Errors + QuizSubmission) :=
  module_id ← validate_module_id (data_module_id d);
  parsed ← for_each UserQuizAnswerSerializer (data_answers d);
  answers ← match collect parsed with
            | inl es => mret (inl es)
            | inr value => validate_answers value
            end;
  mret (match module_id, answers with
        | inr module_id, inr answers =>
            inr {| validated_module_id := module_id; answers := answers;
                   validated_started_at := data_started_at d |}
        | inl e, inr _ => inl [("module_id"%string, e)]
        | inr _, inl es => inl [("answers"%string, es)]
        | inl e, inl es => inl [("module_id"%string, e); ("answers"%string, es)]
        end).

(** ** Quiz submission: [modules/models.py] and [modules/views.py] *)

(** [UserQuizAttempt.save]: the pass flag is recomputed from the score. *)
Definition UserQuizAttempt_pre_save (a : UserQuizAttempt) : UserQuizAttempt :=
  {| attempt_id := attempt_id a; attempt_user := attempt_user a;
     attempt_module := attempt_module a; attempt_number := attempt_number a;
     score := score a; total_questions := total_questions a;
     correct_answers := correct_answers a;
     is_passed := Qle_bool 80 (score a);
     started_at := started_at a; attempt_completed_at := attempt_completed_at a |}.

(** [UserQuizAttempt.objects.create(...)]: [completed_at] is [auto_now_add];
    [unique_together = ['user', 'module', 'attempt_number']]. *)
Definition UserQuizAttempt_create (now user module number started_at
    total_questions : nat) (score : Q) (correct_answers : nat) : DbM UserQuizAttempt :=
  rows ← query quiz_attempts;
  let a := UserQuizAttempt_pre_save
    {| attempt_id := next_pk (attempt_id <$> rows); attempt_user := user;
       attempt_module := module; attempt_number := number;
       score := score; total_questions := total_questions;
       correct_answers := correct_answers; is_passed := false;
       started_at := started_at; attempt_completed_at := now |} in
  if decide (Exists (λ r, attempt_user r = user ∧ attempt_module r = module
                          ∧ attempt_number r = number) rows)
  then raise IntegrityError
  else _ ← execute (with_quiz_attempts (λ rows, rows ++ [a])); mret a.

(** [quiz_attempt.save()] on a row that exists. *)
Definition UserQuizAttempt_save (a : UserQuizAttempt) : DbM UserQuizAttempt :=
  let a := UserQuizAttempt_pre_save a in
  _ ← execute (with_quiz_attempts (update_row attempt_id a)); mret a.

(** [UserQuizAnswer.objects.create(attempt=..., question=...)];
    [unique_together = ['attempt', 'question']]. *)
Definition UserQuizAnswer_create (attempt question : nat) : DbM UserQuizAnswer :=
  rows ← query quiz_answers;
  let a := {| answer_id := next_pk (answer_id <$> rows); answer_attempt := attempt;
              answer_question := question; selected_choices := ∅;
              is_correct := false; points_earned := 0 |} in
  if decide (Exists (λ r, answer_attempt r = attempt ∧ answer_question r = question) rows)
  then raise IntegrityError
  else _ ← execute (with_quiz_answers (λ rows, rows ++ [a])); mret a.

Definition UserQuizAnswer_save (a : UserQuizAnswer) : DbM () :=
  execute (with_quiz_answers (update_row answer_id a)).

(** [Module.get_quiz_questions] and [QuizQuestion.get_correct_answers]. *)
Definition get_quiz_questions (db : Database) (module : Module_) : list QuizQuestion :=
  order_by (asc order)
    (filter (λ q, question_module q = module_id module ∧ question_is_active q = true)
            (quiz_questions db)).

Definition get_correct_answers (db : Database) (question : QuizQuestion) : list AnswerChoice :=
  filter (λ c, choice_question c = question_id question ∧ choice_is_correct c = true)
         (answer_choices db).

(** The running totals of the scoring loop of [submit_quiz]. *)
Record AnswerResult := {
  result_selected_choices : list nat;
  result_is_correct : bool;
  result_points_earned : nat;
}.

Record Tally := {
  tally_correct_answers : nat;
  total_points_possible : nat;
  total_points_earned : nat;
  user_answers_data : gmap nat AnswerResult;
}.

(** One turn of [for answer_data in data['answers']]. *)
Definition process_answer (quiz_attempt : UserQuizAttempt) (t : Tally)
    (answer_data : ValidatedAnswer) : DbM Tally :=
  let question := question answer_data in
  let selected_choices := answer_selected_choices answer_data in
  user_answer ← UserQuizAnswer_create (attempt_id quiz_attempt) (question_id question);
  let selected_choice_ids : gset nat := list_to_set (choice_id <$> selected_choices) in
  (* user_answer.selected_choices.set(selected_choices) *)
  _ ← UserQuizAnswer_save
        {| answer_id := answer_id user_answer; answer_attempt := answer_attempt user_answer;
           answer_question := answer_question user_answer;
           selected_choices := selected_choice_ids;
           is_correct := false; points_earned := 0 |};
  db ← query id;
  let correct_choice_ids : gset nat :=
    list_to_set (choice_id <$> get_correct_answers db question) in
  let is_correct := bool_decide (correct_choice_ids = selected_choice_ids) in
  let points_earned := if is_correct then points question else 0 in
  _ ← UserQuizAnswer_save
        {| answer_id := answer_id user_answer; answer_attempt := answer_attempt user_answer;
           answer_question := answer_question user_answer;
           selected_choices := selected_choice_ids;
           is_correct := is_correct; points_earned := points_earned |};
  mret {| tally_correct_answers :=
            (if is_correct then S (tally_correct_answers t) else tally_correct_answers t);
          total_points_possible := total_points_possible t + points question;
          total_points_earned := total_points_earned t + points_earned;
          user_answers_data :=
            <[question_id question :=
                {| result_selected_choices := choice_id <$> selected_choices;
                   result_is_correct := is_correct;
                   result_points_earned := points_earned |}]> (user_answers_data t) |}.

Fixpoint process_answers (quiz_attempt : UserQuizAttempt) (t : Tally)
    (l : list ValidatedAnswer) : DbM Tally :=
  match l with
  | [] => mret t
  | answer_data :: l' =>
      t' ← process_answer quiz_attempt t answer_data;
      process_answers quiz_attempt t' l'
  end.

(** Floating point.  An arithmetic operation on floats returns the exact
    result rounded to the nearest binary64 number, ties going to the even
    one; so does the true division of two integers. *)

(** Rounding to an integer, half to even. *)
Definition round_half_even (q : Q) : Z :=
  let f := Qfloor q in
  match (q - inject_Z f ?= 1 # 2)%Q with
  | Lt => f
  | Eq => if Z.even f then f else (f + 1)%Z
  | Gt => (f + 1)%Z
  end.

(** The largest [l] with [2 ^ l <= q], for [0 < q]. *)
Definition floor_log2 (q : Q) : Z :=
  let l := (Z.log2 (Qnum q) - Z.log2 (Z.pos (Qden q)))%Z in
  if Qle_bool (2 ^ l) q then l else (l - 1)%Z.

(** The exponent of the last of the 53 significant bits of [q]; it does
    not go below -1074, the exponent of the subnormal numbers. *)
Definition ulp_exponent (q : Q) : Z := Z.max (floor_log2 (Qabs q) - 52) (-1074).

(** The binary64 number nearest to [q].  Beyond the largest binary64
    number Python overflows; a score never gets there, the operands of its
    two operations being at most 1 and 100. *)
Definition binary64 (q : Q) : Q :=
  if Qeq_bool q 0 then 0%Q
  else
    let e := ulp_exponent q in
    (inject_Z (round_half_even (q * 2 ^ (- e))) * 2 ^ e)%Q.

(** [(total_points_earned / total_points_possible) * 100 if
    total_points_possible > 0 else 0]: a division of integers and a
    multiplication of floats. *)
Definition score_percentage (t : Tally) : Q :=
  if decide (0 < total_points_possible t)
  then binary64 (binary64 (of_nat (total_points_earned t)
                           / of_nat (total_points_possible t)) * 100)
  else 0%Q.

Inductive ResultMessage :=
  | Congratulations (score_percentage : Q)
  | Retry (score_percentage : Q).

Record QuizResult := {
  result_attempt : UserQuizAttempt;
  result_module : Module_;
  questions_with_answers : list (QuizQuestion * list AnswerChoice);
  user_answers : gmap nat AnswerResult;
  passed : bool;
  message : ResultMessage;
}.

Inductive SubmitQuizData :=
  | SubmitErrors (errors : Errors)
  | SubmitError (error : string)
  | SubmitResult (result_data : QuizResult).

(** [submit_quiz(request)], with [request.user], [request.data] and the
    clock as arguments. *)
Definition submit_quiz (now : nat) (user : User) (request_data : QuizSubmissionData)
    : DbM (Response SubmitQuizData) :=
  serializer ← QuizSubmissionSerializer request_data;
  match serializer with
  | inl errors =>
      mret {| status_code := HTTP_400_BAD_REQUEST; data := SubmitErrors errors |}
  | inr data =>
      rows ← query modules;
      module ← lift (get (λ m, module_id m = validated_module_id data) rows);
      if decide (preferred_language user ≠ "FR"%string) then
        mret {| status_code := HTTP_400_BAD_REQUEST;
                data := SubmitError "Les quiz ne sont disponibles qu'en français" |}
      else
        attempts ← query quiz_attempts;
        let last_attempt :=
          first (order_by (desc attempt_number)
                   (filter (λ a, attempt_user a = user_id user
                                 ∧ attempt_module a = module_id module) attempts)) in
        let new_attempt_number :=
          match last_attempt with
          | Some last_attempt => attempt_number last_attempt + 1
          | None => 1
          end in
        db ← query id;
        let questions := get_quiz_questions db module in
        if decide (questions = []) then
          mret {| status_code := HTTP_400_BAD_REQUEST;
                  data := SubmitError "Aucune question trouvée pour ce module" |}
        else
          quiz_attempt ← UserQuizAttempt_create now (user_id user) (module_id module)
                           new_attempt_number (validated_started_at data)
                           (length questions) 0%Q 0;
          t ← process_answers quiz_attempt
                {| tally_correct_answers := 0; total_points_possible := 0;
                   total_points_earned := 0; user_answers_data := ∅ |}
                (answers data);
          quiz_attempt ← UserQuizAttempt_save
            {| attempt_id := attempt_id quiz_attempt;
               attempt_user := attempt_user quiz_attempt;
               attempt_module := attempt_module quiz_attempt;
               attempt_number := attempt_number quiz_attempt;
               score := score_percentage t;
               total_questions := total_questions quiz_attempt;
               correct_answers := tally_correct_answers t;
               is_passed := is_passed quiz_attempt;
               started_at := started_at quiz_attempt;
               attempt_completed_at := attempt_completed_at quiz_attempt |};
          db ← query id;
          let passed := is_passed quiz_attempt in
          mret {| status_code := HTTP_201_CREATED;
                  data := SubmitResult
                    {| result_attempt := quiz_attempt;
                       result_module := module;
                       questions_with_answers :=
                         (λ q, (q, order_by (asc choice_order)
                                     (filter (λ c, choice_question c = question_id q)
                                             (answer_choices db)))) <$> questions;
                       user_answers := user_answers_data t;
                       passed := passed;
                       message := if passed then Congratulations (score_percentage t)
                                  else Retry (score_percentage t) |} |}
  end.

(** ** Audio progress: [AudioProgressSerializer] and [track_audio_progress] *)

Record AudioProgressData := {
  audio_module_id : nat;
  audio_progress_percentage : Q;
  current_time : Z;
}.

Record AudioProgress := {
  validated_audio_module_id : nat;
  validated_progress_percentage : Q;
  validated_current_time : nat;
}.

(** [bool(module.audio_fon)]: a [FieldFile] is true when it has a name.  The
    column of a [FileField(blank=True, null=True)] holds [NULL] or a name,
    and the name is empty when no file was uploaded. *)
Definition FieldFile_bool (file : option string) : bool :=
  match file with
  | Some name => bool_decide (name ≠ "")
  | None => false
  end.

(** [AudioProgressSerializer.validate_module_id]. *)
Definition validate_audio_module_id (value : nat) : DbM (list ErrorDetail + nat) :=
  rows ← query modules;
  match get (λ m, module_id m = value ∧ module_is_active m = true) rows with
  | inr module =>
      if negb (FieldFile_bool (audio_fon module))
      then mret (inl [Message "Ce module n'a pas de fichier audio."])
      else mret (inr value)
  | inl DoesNotExist => mret (inl [Message "Module introuvable."])
  | inl e => raise e
  end.

(** [FloatField(min_value=0, max_value=100)] and [IntegerField(min_value=0)].
    The serializer puts no upper bound on [current_time]; the column it is
    written to is a [PositiveIntegerField], which takes the values up to
    [PositiveIntegerField_max] on every database backend.  What a backend
    does with a larger value is not modelled: the properties of accepted
    calls are stated for positions within that range ([valid_audio_call]). *)
Definition PositiveIntegerField_max : Z := 2147483647.

Definition validate_progress_percentage (value : Q) : list ErrorDetail + Q :=
  if negb (Qle_bool 0 value) then inl [MinValue]
  else if negb (Qle_bool value 100) then inl [MaxValue]
  else inr value.

Definition validate_current_time (value : Z) : list ErrorDetail + nat :=
  if decide (value < 0)%Z then inl [MinValue] else inr (Z.to_nat value).

Definition field_errors {A} (name : string) (r : list ErrorDetail + A) : Errors :=
  match r with inl e => [(name, e)] | inr _ => [] end.

Definition AudioProgressSerializer (d : AudioProgressData) : DbM (Errors + AudioProgress) :=
  module_id ← validate_audio_module_id (audio_module_id d);
  let progress_percentage := validate_progress_percentage (audio_progress_percentage d) in
  let current_time := validate_current_time (current_time d) in
  mret (match module_id, progress_percentage, current_time with
        | inr m, inr p, inr t =>
            inr {| validated_audio_module_id := m; validated_progress_percentage := p;
                   validated_current_time := t |}
        | _, _, _ =>
            inl (field_errors "module_id" module_id
                 ++ field_errors "progress_percentage" progress_percentage
                 ++ field_errors "current_time" current_time)
        end).

(** Assignments to the fields of a [ModuleProgress] instance. *)
Definition set_progress (percentage : Q) (position updated : nat) (p : ModuleProgress)
    : ModuleProgress :=
  {| progress_id := progress_id p; progress_user := progress_user p;
     progress_module := progress_module p; progress_percentage := percentage;
     is_completed := is_completed p; last_audio_position := position;
     total_listening_time := total_listening_time p;
     listening_sessions := listening_sessions p;
     progress_started_at := progress_started_at p; progress_updated_at := updated;
     progress_completed_at := progress_completed_at p |}.

Definition set_completed (completed : bool) (at_ : option nat) (updated : nat)
    (p : ModuleProgress) : ModuleProgress :=
  {| progress_id := progress_id p; progress_user := progress_user p;
     progress_module := progress_module p; progress_percentage := progress_percentage p;
     is_completed := completed; last_audio_position := last_audio_position p;
     total_listening_time := total_listening_time p;
     listening_sessions := listening_sessions p;
     progress_started_at := progress_started_at p; progress_updated_at := updated;
     progress_completed_at := at_ |}.

(** The body of [ModuleProgress.save] before [super().save()]; [updated_at]
    is [auto_now]. *)
Definition ModuleProgress_pre_save (now : nat) (self : ModuleProgress) : ModuleProgress :=
  if is_completed self then
    match progress_completed_at self with
    | None => set_completed true (Some now) now self
    | Some t => set_completed true (Some t) now self
    end
  else set_completed false None now self.

(** [progress.save()] on a row that exists. *)
Definition ModuleProgress_save (now : nat) (self : ModuleProgress) : DbM ModuleProgress :=
  let self := ModuleProgress_pre_save now self in
  _ ← execute (with_module_progress (update_row progress_id self)); mret self.

(** [ModuleProgress.objects.get_or_create(user=, module=, defaults=...)]. *)
Definition ModuleProgress_get_or_create (now user module : nat)
    (default_percentage : Q) (default_position : nat) : DbM (ModuleProgress * bool) :=
  rows ← query module_progress;
  match get (λ p, progress_user p = user ∧ progress_module p = module) rows with
  | inr progress => mret (progress, false)
  | inl DoesNotExist =>
      let progress := ModuleProgress_pre_save now
        {| progress_id := next_pk (progress_id <$> rows); progress_user := user;
           progress_module := module; progress_percentage := default_percentage;
           is_completed := false; last_audio_position := default_position;
           total_listening_time := 0; listening_sessions := 0;
           progress_started_at := now; progress_updated_at := now;
           progress_completed_at := None |} in
      _ ← execute (with_module_progress (λ rows, rows ++ [progress]));
      mret (progress, true)
  | inl e => raise e
  end.

Record AudioResult := {
  audio_message : string;
  result_progress_percentage : Q;
  result_is_completed : bool;
}.

Inductive TrackAudioData :=
  | AudioErrors (errors : Errors)
  | AudioError (error : string)
  | AudioTracked (result : AudioResult).

(** [track_audio_progress(request)]. *)
Definition track_audio_progress (now : nat) (user : User)
    (request_data : AudioProgressData) : DbM (Response TrackAudioData) :=
  serializer ← AudioProgressSerializer request_data;
  match serializer with
  | inl errors =>
      mret {| status_code := HTTP_400_BAD_REQUEST; data := AudioErrors errors |}
  | inr data =>
      rows ← query modules;
      module ← lift (get (λ m, module_id m = validated_audio_module_id data) rows);
      if decide (preferred_language user ≠ "FON"%string) then
        mret {| status_code := HTTP_400_BAD_REQUEST;
                data := AudioError "Le suivi audio n'est disponible qu'en langue Fon" |}
      else
        found ← ModuleProgress_get_or_create now (user_id user)
            (module_id module) (validated_progress_percentage data)
            (validated_current_time data);
        let progress : ModuleProgress := found.1 in
        let created : bool := found.2 in
        progress ←
          (if created then mret progress
           else if Qlt_le_dec (progress_percentage progress)
                              (validated_progress_percentage data)
           then ModuleProgress_save now
                  (set_progress (validated_progress_percentage data)
                                (validated_current_time data) now progress)
           else mret progress : DbM ModuleProgress);
        progress ←
          (if Qle_bool 100 (validated_progress_percentage data)
           then ModuleProgress_save now (set_completed true (Some now) now progress)
           else mret progress : DbM ModuleProgress);
        mret {| status_code := HTTP_200_OK;
                data := AudioTracked
                  {| audio_message := "Progression mise à jour";
                     result_progress_percentage := progress_percentage progress;
                     result_is_completed := is_completed progress |} |}
  end.

(** ** Progress and certificates: [progress/models.py] *)

(** [random.choices(population, k=k)]: [k] independent draws; [random i]
    is the [i]-th output of the generator, brought into range. *)
Definition random_choices (random : nat → nat) (population : list ascii) (k : nat)
    : list ascii :=
  (λ i, nth (random i `mod` length population) population " "%char) <$> seq 0 k.

(** [string.ascii_uppercase + string.digits]. *)
Definition code_alphabet : list ascii :=
  list_ascii_of_string "ABCDEFGHIJKLMNOPQRSTUVWXYZ0123456789".

(** The body of [Certificate.save] before [super().save()]. *)
Definition Certificate_pre_save (random : nat → nat) (user : User) (self : Certificate)
    : Certificate :=
  {| cert_id := cert_id self; cert_user := cert_user self;
     certificate_id := certificate_id self;
     verification_code :=
       (if decide (verification_code self = "")
        then string_of_list_ascii (random_choices random code_alphabet 12)
        else verification_code self);
     cert_full_name :=
       (if decide (cert_full_name self = "") then full_name user else cert_full_name self);
     completion_date := completion_date self;
     total_modules_completed := total_modules_completed self;
     average_score := average_score self; is_valid := is_valid self;
     signed_by := signed_by self; signature_date := signature_date self |}.

(** [Certificate.objects.create(user=, full_name=, total_modules_completed=,
    average_score=)]: the other fields take their defaults,
    [completion_date] is [auto_now_add], [certificate_id] and
    [verification_code] are [unique]. *)
Definition Certificate_create (now : nat) (random : nat → nat) (uuid4 : nat)
    (user : User) (full_name : string) (total_modules_completed : nat)
    (average_score : Q) : DbM Certificate :=
  rows ← query certificates;
  let self := Certificate_pre_save random user
    {| cert_id := next_pk (cert_id <$> rows); cert_user := user_id user;
       certificate_id := uuid4; verification_code := "";
       cert_full_name := full_name; completion_date := now;
       total_modules_completed := total_modules_completed;
       average_score := Some average_score; is_valid := true;
       signed_by := ""; signature_date := None |} in
  if decide (Exists (λ r, certificate_id r = certificate_id self
                          ∨ verification_code r = verification_code self) rows)
  then raise IntegrityError
  else _ ← execute (with_certificates (λ rows, rows ++ [self])); mret self.

(** [Module.objects.filter(is_active=True, number__lt=10)], in the model's
    default order. *)
Definition training_modules (db : Database) : list Module_ :=
  order_by (asc number)
    (filter (λ m, module_is_active m = true ∧ number m < 10) (modules db)).

Definition module_in (ms : list Module_) (id : nat) : Prop := id ∈ module_id <$> ms.

#[global] Instance module_in_dec ms id : Decision (module_in ms id).
Proof. unfold module_in. apply _. Defined.

(** [UserQuizAttempt.objects.filter(user=user, module__in=training_modules,
    is_passed=True).values_list('module', flat=True).distinct()].

    [UserQuizAttempt.Meta.ordering = ['-completed_at']] stays in force and
    Django selects the ordering column along with the values, so the rows
    are distinct as pairs (module, completed_at): a module passed at two
    different times is listed twice. *)
Definition passed_modules (db : Database) (user : nat) : list nat :=
  fst <$> remove_dups
    ((λ a, (attempt_module a, attempt_completed_at a)) <$>
       order_by (desc attempt_completed_at)
         (filter (λ a, attempt_user a = user
                       ∧ module_in (training_modules db) (attempt_module a)
                       ∧ is_passed a = true) (quiz_attempts db))).

(** The French branch of [update_progress]: completed count, average score
    and number of attempts. *)
Definition quiz_statistics (db : Database) (user : nat) (self : OverallProgress)
    : nat * option Q * nat :=
  let training_modules := training_modules db in
  let passed_modules := passed_modules db user in
  let completed_count := length passed_modules in
  let attempts :=
    filter (λ a, attempt_user a = user ∧ module_in training_modules (attempt_module a))
           (quiz_attempts db) in
  let average_quiz_score :=
    match attempts with
    | [] => average_quiz_score self
    | _ :: _ =>
        let best_attempts :=
          omap (λ module,
                  score <$> first (order_by (descQ score)
                              (filter (λ a, attempt_module a = module_id module) attempts)))
               training_modules in
        match best_attempts with
        | [] => average_quiz_score self
        | _ :: _ => Some (mean best_attempts)
        end
    end in
  (completed_count, average_quiz_score, length attempts).

(** The Fon branch: completed count and total listening time. *)
Definition audio_statistics (db : Database) (user : nat) : nat * nat :=
  let completed_progress :=
    filter (λ p, progress_user p = user
                 ∧ module_in (training_modules db) (progress_module p)
                 ∧ is_completed p = true) (module_progress db) in
  let total_time :=
    sum_list (total_listening_time <$>
                filter (λ p, progress_user p = user) (module_progress db)) in
  (length completed_progress, total_time).

(** [OverallProgress.update_progress], up to [self.save()]; [user] is
    [self.user]. *)
Definition recompute (db : Database) (now : nat) (user : User) (self : OverallProgress)
    : OverallProgress :=
  let training_modules := training_modules db in
  let '(completed_count, average_quiz_score, total_quiz_attempts, total_audio_time) :=
    if decide (preferred_language user = "FR"%string) then
      let '(c, avg, n) := quiz_statistics db (user_id user) self in
      (c, avg, n, total_audio_time self)
    else
      let '(c, t) := audio_statistics db (user_id user) in
      (c, average_quiz_score self, total_quiz_attempts self, t) in
  let total_modules := length training_modules in
  let can_get_certificate := bool_decide (completed_count = total_modules) in
  {| overall_id := overall_id self; overall_user := overall_user self;
     total_modules := total_modules;
     completed_modules := completed_count;
     completion_percentage :=
       (if decide (0 < total_modules)
        then (of_nat completed_count / of_nat total_modules * 100)%Q
        else completion_percentage self);
     total_quiz_attempts := total_quiz_attempts;
     average_quiz_score := average_quiz_score;
     total_audio_time := total_audio_time;
     can_get_certificate := can_get_certificate;
     certificate_requested := certificate_requested self;
     overall_started_at := overall_started_at self;
     overall_updated_at := now;
     completed_at :=
       (if can_get_certificate
        then match completed_at self with None => Some now | Some t => Some t end
        else completed_at self) |}.

Definition update_progress (now : nat) (user : User) (self : OverallProgress)
    : DbM OverallProgress :=
  db ← query id;
  let self := recompute db now user self in
  _ ← execute (with_overall_progress (update_row overall_id self)); mret self.

(** [OverallProgress.objects.get_or_create(user=user)]. *)
Definition OverallProgress_get_or_create (now user : nat) : DbM (OverallProgress * bool) :=
  rows ← query overall_progress;
  match get (λ p, overall_user p = user) rows with
  | inr progress => mret (progress, false)
  | inl DoesNotExist =>
      let progress :=
        {| overall_id := next_pk (overall_id <$> rows); overall_user := user;
           total_modules := 10; completed_modules := 0; completion_percentage := 0%Q;
           total_quiz_attempts := 0; average_quiz_score := None; total_audio_time := 0;
           can_get_certificate := false; certificate_requested := false;
           overall_started_at := now; overall_updated_at := now;
           completed_at := None |} in
      _ ← execute (with_overall_progress (λ rows, rows ++ [progress]));
      mret (progress, true)
  | inl e => raise e
  end.

(** [UserProgressView.get_object]: the recomputation on read. *)
Definition UserProgressView_get_object (now : nat) (user : User) : DbM OverallProgress :=
  found ← OverallProgress_get_or_create now (user_id user);
  update_progress now user found.1.

(** ** Certificates: [progress/serializers.py] and [progress/views.py] *)

(** A Python [str] is kept as its UTF-8 encoding, which is what a request
    body carries.  A character is a leading byte together with the
    continuation bytes (10xxxxxx) that follow it. *)
Definition is_continuation (b : ascii) : bool :=
  match b with Ascii _ _ _ _ _ _ b6 b7 => b7 && negb b6 end.

Fixpoint characters (s : string) : list string :=
  match s with
  | EmptyString => []
  | String b s' =>
      match characters s' with
      | String b' c :: cs =>
          if is_continuation b' then String b (String b' c) :: cs
          else String b "" :: String b' c :: cs
      | cs => String b "" :: cs
      end
  end.

(** [len(s)]: the number of characters. *)
Definition len (s : string) : nat := length (characters s).

(** The UTF-8 encoding of a code point. *)
Definition utf8 (code : N) : string :=
  if (code <? 128)%N then String (ascii_of_N code) ""
  else if (code <? 2048)%N then
    String (ascii_of_N (192 + code / 64))
      (String (ascii_of_N (128 + code mod 64)) "")
  else if (code <? 65536)%N then
    String (ascii_of_N (224 + code / 4096))
      (String (ascii_of_N (128 + code / 64 mod 64))
         (String (ascii_of_N (128 + code mod 64)) ""))
  else
    String (ascii_of_N (240 + code / 262144))
      (String (ascii_of_N (128 + code / 4096 mod 64))
         (String (ascii_of_N (128 + code / 64 mod 64))
            (String (ascii_of_N (128 + code mod 64)) ""))).

(** [c.isspace()]: the code points Python counts as whitespace, the ASCII
    blanks and separators, NEL, the no-break space and the Unicode spaces. *)
Definition whitespace : list N :=
  [9; 10; 11; 12; 13; 28; 29; 30; 31; 32; 133; 160; 5760;
   8192; 8193; 8194; 8195; 8196; 8197; 8198; 8199; 8200; 8201; 8202;
   8232; 8233; 8239; 8287; 12288]%N.

Definition isspace (c : string) : bool := bool_decide (c ∈ utf8 <$> whitespace).

(** [str.strip()]: whitespace is removed at both ends. *)
Fixpoint lstrip (cs : list string) : list string :=
  match cs with
  | c :: cs' => if isspace c then lstrip cs' else cs
  | [] => []
  end.

Definition strip (s : string) : string :=
  String.concat "" (reverse (lstrip (reverse (lstrip (characters s))))).

(** [ProhibitNullCharactersValidator]: ['\x00' in str(value)]. *)
Definition has_null_character (value : string) : bool :=
  bool_decide ("000"%char ∈ list_ascii_of_string value).

(** [CharField(max_length=100)] of the REST framework, on a name that is
    absent from the request ([None]) or a string: the field is required;
    a value that is empty once trimmed is blank; otherwise the trimmed
    value goes through the validators, which count characters and refuse
    null characters, and whose errors are gathered. *)
Definition validate_full_name (value : option string) : list ErrorDetail + string :=
  match value with
  | None => inl [Message "This field is required."]
  | Some data =>
      if decide (strip data = "") then inl [Blank]
      else
        let value := strip data in
        let errors :=
          (if decide (100 < len value) then [MaxLength 100] else [])
          ++ (if has_null_character value
              then [Message "Null characters are not allowed."] else []) in
        match errors with
        | [] => inr value
        | _ :: _ => inl errors
        end
  end.

Definition must_validate_all_modules : string :=
  "Vous devez valider tous les modules avant de demander l'attestation.".

Definition fon_users_must_sit_exam : string :=
  "Les utilisateurs en langue Fon doivent passer l'examen au siège de HAI pour obtenir leur attestation.".

(** [CertificateRequestSerializer.validate]. *)
Definition CertificateRequestSerializer_validate (db : Database) (user : User)
    (attrs : string) : list ErrorDetail + string :=
  if decide (preferred_language user = "FR") then
    let training_modules := training_modules db in
    let passed_modules := passed_modules db (user_id user) in
    if decide (length passed_modules < length training_modules)
    then inl [Message must_validate_all_modules]
    else inr attrs
  else inl [Message fon_users_must_sit_exam].

(** [CertificateRequestSerializer.is_valid]: the field first, then the
    object-level [validate]. *)
Definition CertificateRequestSerializer (user : User) (full_name : option string)
    : DbM (Errors + string) :=
  db ← query id;
  match validate_full_name full_name with
  | inl e => mret (inl [("full_name", e)])
  | inr value =>
      match CertificateRequestSerializer_validate db user value with
      | inl e => mret (inl [("non_field_errors", e)])
      | inr value => mret (inr value)
      end
  end.

(** The payload of [FonUserProgressSerializer.to_representation]. *)
Record ContactInfo := {
  contact_whatsapp_number : string;
  organization : string;
  required_info : list string;
}.

Record CompletionStatus := {
  status_completed_modules : nat;
  status_total_modules : nat;
  is_eligible : bool;
}.

Record FonInstructions := {
  fon_message : string;
  contact_info : ContactInfo;
  progress_screenshot_required : bool;
  whatsapp_number : string;
  completion_status : CompletionStatus;
}.

Definition hai_contact_info : ContactInfo :=
  {| contact_whatsapp_number := "+229 01 57 57 51 67";
     organization := "HAI (Human Rights and Advocacy Initiative)";
     required_info := ["Nom complet"; "Lieu de résidence";
                       "Capture d'écran de progression 100%"] |}.

Definition all_audio_modules_done : string :=
  "Félicitations ! Vous avez terminé tous les modules audio. Pour obtenir votre attestation, vous devez passer l'examen au siège de HAI ou dans une annexe. Envoyez une capture d'écran de votre progression à 100% avec vos informations (nom, prénom, lieu de résidence) au numéro WhatsApp ci-dessous.".

Definition FonUserProgressSerializer_to_representation (db : Database) (user : User)
    : FonInstructions :=
  let training_modules := training_modules db in
  let completed_modules :=
    length (filter (λ p, progress_user p = user_id user
                         ∧ module_in training_modules (progress_module p)
                         ∧ is_completed p = true) (module_progress db)) in
  let done := bool_decide (completed_modules = length training_modules) in
  {| fon_message :=
       (if done then all_audio_modules_done
        else "Vous avez terminé " +:+ pretty completed_modules +:+ "/"
             +:+ pretty (length training_modules)
             +:+ " modules. Continuez votre formation pour être éligible à l'attestation.");
     contact_info := hai_contact_info;
     progress_screenshot_required := done;
     whatsapp_number := "+229 01 57 57 51 67";
     completion_status :=
       {| status_completed_modules := completed_modules;
          status_total_modules := length training_modules;
          is_eligible := done |} |}.

Definition set_certificate_requested (now : nat) (p : OverallProgress) : OverallProgress :=
  {| overall_id := overall_id p; overall_user := overall_user p;
     total_modules := total_modules p; completed_modules := completed_modules p;
     completion_percentage := completion_percentage p;
     total_quiz_attempts := total_quiz_attempts p;
     average_quiz_score := average_quiz_score p;
     total_audio_time := total_audio_time p;
     can_get_certificate := can_get_certificate p;
     certificate_requested := true;
     overall_started_at := overall_started_at p; overall_updated_at := now;
     completed_at := completed_at p |}.

(** [UserActivity.objects.create(...)]. *)
Definition UserActivity_create (now user : nat) (activity_type : string)
    (details : list (string * string)) : DbM () :=
  execute (with_activities (λ rows, rows ++
    [{| activity_id := next_pk (activity_id <$> rows); activity_user := user;
        activity_type := activity_type; activity_module := None;
        details := details; timestamp := now |}])).

Inductive CertificateRequestData :=
  | ManualVerification (instructions : FonInstructions)
  | CertificateMessage (message : string) (certificate : Certificate)
  | RequestErrors (errors : Errors).

(** The best passing score of each training module that has one. *)
Definition best_scores (db : Database) (user : nat) : list Q :=
  omap (λ module,
          score <$> first (order_by (descQ score)
                      (filter (λ a, attempt_user a = user
                                    ∧ attempt_module a = module_id module
                                    ∧ is_passed a = true) (quiz_attempts db))))
       (training_modules db).

(** [request_certificate(request)]; [full_name] is [request.data]. *)
Definition request_certificate (now : nat) (random : nat → nat) (uuid4 : nat)
    (user : User) (full_name : option string) : DbM (Response CertificateRequestData) :=
  db ← query id;
  if decide (preferred_language user ≠ "FR") then
    mret {| status_code := HTTP_200_OK;
            data := ManualVerification (FonUserProgressSerializer_to_representation db user) |}
  else
    let existing_certificate :=
      first (order_by (desc completion_date)
               (filter (λ c, cert_user c = user_id user ∧ is_valid c = true)
                       (certificates db))) in
    match existing_certificate with
    | Some existing_certificate =>
        mret {| status_code := HTTP_200_OK;
                data := CertificateMessage "Vous avez déjà un certificat valide"
                                           existing_certificate |}
    | None =>
        serializer ← CertificateRequestSerializer user full_name;
        match serializer with
        | inl errors =>
            mret {| status_code := HTTP_400_BAD_REQUEST; data := RequestErrors errors |}
        | inr validated_full_name =>
            let best_scores := best_scores db (user_id user) in
            let average_score :=
              match best_scores with [] => 0%Q | _ :: _ => mean best_scores end in
            certificate ← Certificate_create now random uuid4 user validated_full_name
                            (length best_scores) average_score;
            rows ← query overall_progress;
            overall_progress ← lift (get (λ p, overall_user p = user_id user) rows);
            _ ← execute (with_overall_progress
                           (update_row overall_id
                              (set_certificate_requested now overall_progress)));
            _ ← UserActivity_create now (user_id user) "CERTIFICATE_REQUEST"
                  [("certificate_id", pretty (certificate_id certificate))];
            mret {| status_code := HTTP_201_CREATED;
                    data := CertificateMessage "Certificat généré avec succès"
                                               certificate |}
        end
    end.

(** [verify_certificate(request, verification_code)]. *)
Record VerifiedCertificate := {
  verified_full_name : string;
  verified_completion_date : nat;
  verified_total_modules_completed : nat;
  verified_average_score : option Q;
  verified_verification_code : string;
  verified_signed_by : string;
  verified_signature_date : option nat;
}.

Inductive VerificationData :=
  | Verified (is_valid : bool) (certificate : VerifiedCertificate) (verified_at : nat)
  | NotVerified (is_valid : bool) (message : string).

Definition verify_certificate (now : nat) (code : string)
    : DbM (Response VerificationData) :=
  rows ← query certificates;
  match get (λ c, verification_code c = code ∧ is_valid c = true) rows with
  | inr certificate =>
      mret {| status_code := HTTP_200_OK;
              data := Verified true
                {| verified_full_name := cert_full_name certificate;
                   verified_completion_date := completion_date certificate;
                   verified_total_modules_completed := total_modules_completed certificate;
                   verified_average_score := average_score certificate;
                   verified_verification_code := verification_code certificate;
                   verified_signed_by := signed_by certificate;
                   verified_signature_date := signature_date certificate |}
                now |}
  | inl DoesNotExist =>
      mret {| status_code := HTTP_404_NOT_FOUND;
              data := NotVerified false "Certificat non trouvé ou invalide" |}
  | inl e => raise e
  end.

(** ** Notions the properties are stated with *)

(** A computation that leaves the database as it found it. *)
Definition read_only {A} (m : DbM A) : Prop := ∀ db, (m db).1 = db.

(** The constraints the schema puts on the tables: primary keys, the
    [unique] and [unique_together] declarations, and the foreign key from
    an answer to its attempt. *)
Record consistent (db : Database) : Prop := {
  modules_pk : NoDup (module_id <$> modules db);
  answers_fk : ∀ r, r ∈ quiz_answers db →
               answer_attempt r ∈ attempt_id <$> quiz_attempts db;
  progress_pk : NoDup (progress_id <$> module_progress db);
  progress_unique :
    NoDup ((λ p, (progress_user p, progress_module p)) <$> module_progress db);
  verification_code_unique : NoDup (verification_code <$> certificates db);
}.

(** Scoring, in the words of the specification: an answer is correct when
    the selected ids and the correct ids are the same set; it earns the
    question's points or nothing. *)
Definition selected_choice_ids (a : ValidatedAnswer) : gset nat :=
  list_to_set (choice_id <$> answer_selected_choices a).

Definition correct_choice_ids (db : Database) (q : QuizQuestion) : gset nat :=
  list_to_set (choice_id <$>
    filter (λ c, choice_question c = question_id q ∧ choice_is_correct c = true)
           (answer_choices db)).

Definition answered_correctly (db : Database) (a : ValidatedAnswer) : bool :=
  bool_decide (selected_choice_ids a = correct_choice_ids db (question a)).

Definition answer_points (db : Database) (a : ValidatedAnswer) : nat :=
  if answered_correctly db a then points (question a) else 0.

Definition earned_points (db : Database) (l : list ValidatedAnswer) : nat :=
  sum_list (answer_points db <$> l).

Definition possible_points (l : list ValidatedAnswer) : nat :=
  sum_list ((λ a, points (question a)) <$> l).

(** The score once more, through the IEEE 754 operations that the standard
    library defines on binary64 numbers (53 bits, exponents below 1024), to
    compare [binary64] with. *)
Definition spec_float_value (f : spec_float) : Q :=
  match f with
  | S754_finite s m e => ((if s then -1 else 1) * inject_Z (Z.pos m) * 2 ^ e)%Q
  | _ => 0%Q
  end.

Definition reference_score (earned possible : nat) : Q :=
  let float n := binary_normalize 53 1024 (Z.of_nat n) 0 false in
  spec_float_value (SFmul 53 1024 (SFdiv 53 1024 (float earned) (float possible))
                          (float 100)).

(** A valid quiz submission: the serializer accepts it, the learner is on
    the French track, the module has active questions, and no question is
    answered twice (the schema keeps one answer per attempt and question). *)
Definition valid_submission (db : Database) (user : User)
    (request_data : QuizSubmissionData) (data : QuizSubmission) : Prop :=
  (QuizSubmissionSerializer request_data db).2 = inr (inr data)
  ∧ preferred_language user = "FR"
  ∧ (∃ q, q ∈ quiz_questions db ∧ question_module q = data_module_id request_data
          ∧ question_is_active q = true)
  ∧ NoDup ((λ a, question_id (question a)) <$> answers data).

(** The attempt numbers of a learner on a module, in submission order. *)
Definition attempt_numbers (db : Database) (user module : nat) : list nat :=
  attempt_number <$>
    filter (λ a, attempt_user a = user ∧ attempt_module a = module) (quiz_attempts db).

(** A sequence of submissions, one after the other, whatever each returns
    or raises. *)
Fixpoint submit_all (requests : list (nat * User * QuizSubmissionData))
    (db : Database) : Database :=
  match requests with
  | [] => db
  | (now, user, request_data) :: rest =>
      submit_all rest (submit_quiz now user request_data db).1
  end.

(** A sequence of [track_audio_progress] calls by one learner, each with
    the time of the call. *)
Fixpoint track_all (user : User) (calls : list (nat * AudioProgressData))
    (db : Database) : Database :=
  match calls with
  | [] => db
  | (now, request_data) :: rest =>
      track_all user rest (track_audio_progress now user request_data db).1
  end.

(** The record kept for a learner and a module. *)
Definition stored_progress (db : Database) (user module : nat)
    : Exception + ModuleProgress :=
  get (λ p, progress_user p = user ∧ progress_module p = module) (module_progress db).

(** A call the serializer accepts for module [m], an active module with an
    audio file, and whose position the column can hold. *)
Definition valid_audio_call (db : Database) (m : Module_) (d : AudioProgressData)
    : Prop :=
  m ∈ modules db ∧ module_is_active m = true ∧ FieldFile_bool (audio_fon m) = true
  ∧ audio_module_id d = module_id m
  ∧ (0 <= audio_progress_percentage d)%Q ∧ (audio_progress_percentage d <= 100)%Q
  ∧ (0 ≤ current_time d ≤ PositiveIntegerField_max)%Z.

(** [max(p1, ..., pn)], taken from the left as the calls arrive. *)
Definition max_percentage (p : Q) (ps : list Q) : Q := foldl Qmax p ps.

Definition progress_key (p : ModuleProgress) : nat * nat :=
  (progress_user p, progress_module p).

(** ** A small database to run the views on *)

Definition awa : User :=
  {| user_id := 1; preferred_language := "FR"; full_name := "Awa Dossou" |}.

Definition codjo : User :=
  {| user_id := 2; preferred_language := "FON"; full_name := "Codjo Hounkpe" |}.

Definition module_1 : Module_ :=
  {| module_id := 1; number := 1; title := "Droits fondamentaux";
     audio_fon := Some "modules/audio/1/intro.mp3"; module_is_active := true |}.

Definition module_2 : Module_ :=
  {| module_id := 2; number := 2; title := "Acces a la justice";
     audio_fon := Some "modules/audio/2/justice.mp3"; module_is_active := true |}.

Definition question_1 : QuizQuestion :=
  {| question_id := 1; question_module := 1; order := 1; question_type := SINGLE;
     points := 1; question_is_active := true |}.

Definition question_2 : QuizQuestion :=
  {| question_id := 2; question_module := 1; order := 2; question_type := MULTIPLE;
     points := 3; question_is_active := true |}.

Definition choice (id question : nat) (correct : bool) (position : nat) : AnswerChoice :=
  {| choice_id := id; choice_question := question; choice_is_correct := correct;
     choice_order := position |}.

Definition sample_db : Database :=
  {| modules := [module_1; module_2];
     quiz_questions := [question_1; question_2];
     answer_choices := [choice 1 1 true 1; choice 2 1 false 2;
                        choice 3 2 true 1; choice 4 2 true 2; choice 5 2 false 3];
     quiz_attempts := []; quiz_answers := []; module_progress := [];
     certificates := []; overall_progress := []; activities := [] |}.

(** Question 1 answered wrongly, question 2 with both correct choices. *)
Definition sample_submission : QuizSubmissionData :=
  {| data_module_id := 1;
     data_answers := [ {| data_question := 1; data_selected_choices := [2] |};
                       {| data_question := 2; data_selected_choices := [4; 3] |} ];
     data_started_at := 7 |}.

Definition sample_validated : QuizSubmission :=
  {| validated_module_id := 1;
     answers := [ {| question := question_1;
                     answer_selected_choices := [choice 2 1 false 2] |};
                  {| question := question_2;
                     answer_selected_choices := [choice 4 2 true 2; choice 3 2 true 1] |} ];
     validated_started_at := 7 |}.

(** [sample_db] with 18 points on question 1 and 7 on question 2, and what
    the serializer makes of [sample_submission] there. *)
Definition weighted_db : Database :=
  {| modules := modules sample_db;
     quiz_questions :=
       [ {| question_id := 1; question_module := 1; order := 1; question_type := SINGLE;
            points := 18; question_is_active := true |};
         {| question_id := 2; question_module := 1; order := 2;
            question_type := MULTIPLE; points := 7; question_is_active := true |} ];
     answer_choices := answer_choices sample_db;
     quiz_attempts := []; quiz_answers := []; module_progress := [];
     certificates := []; overall_progress := []; activities := [] |}.

Definition weighted_validated : QuizSubmission :=
  {| validated_module_id := 1;
     answers := [ {| question :=
                       {| question_id := 1; question_module := 1; order := 1;
                          question_type := SINGLE; points := 18;
                          question_is_active := true |};
                     answer_selected_choices := [choice 2 1 false 2] |};
                  {| question :=
                       {| question_id := 2; question_module := 1; order := 2;
                          question_type := MULTIPLE; points := 7;
                          question_is_active := true |};
                     answer_selected_choices := [choice 4 2 true 2; choice 3 2 true 1] |} ];
     validated_started_at := 7 |}.

(** Four calls on module 1 by a learner on the audio track. *)
Definition sample_calls : list (nat * AudioProgressData) :=
  [ (1, {| audio_module_id := 1; audio_progress_percentage := 30; current_time := 40 |});
    (2, {| audio_module_id := 1; audio_progress_percentage := 25 # 2; current_time := 15 |});
    (3, {| audio_module_id := 1; audio_progress_percentage := 100; current_time := 130 |});
    (4, {| audio_module_id := 1; audio_progress_percentage := 55; current_time := 70 |}) ].

(** A database in which Awa has passed both training modules, Codjo holds
    a certificate issued by hand after the on-site examination, and one
    certificate has been revoked. *)
Definition passed_attempt (id user module completed : nat) (s : Q) : UserQuizAttempt :=
  {| attempt_id := id; attempt_user := user; attempt_module := module;
     attempt_number := 1; score := s; total_questions := 2; correct_answers := 2;
     is_passed := true; started_at := completed - 1;
     attempt_completed_at := completed |}.

Definition issued (id user uuid : nat) (code name : string) (date : nat) (valid : bool)
    : Certificate :=
  {| cert_id := id; cert_user := user; certificate_id := uuid;
     verification_code := code; cert_full_name := name; completion_date := date;
     total_modules_completed := 2; average_score := Some 90%Q; is_valid := valid;
     signed_by := ""; signature_date := None |}.

Definition kossi : User :=
  {| user_id := 3; preferred_language := "FR"; full_name := "Kossi Agbo" |}.

Definition certified_db : Database :=
  {| modules := modules sample_db;
     quiz_questions := quiz_questions sample_db;
     answer_choices := answer_choices sample_db;
     quiz_attempts := [passed_attempt 1 1 1 20 100; passed_attempt 2 1 2 30 90];
     quiz_answers := []; module_progress := [];
     certificates := [issued 1 3 501 "AAAAAAAAAAAA" "Kossi Agbo" 40 true;
                      issued 2 2 502 "K7Q2M9X4T1ZB" "Codjo Hounkpe" 45 true;
                      issued 3 4 503 "R3V0K3D00001" "Sena Ahouan" 47 false];
     overall_progress := []; activities := [] |}.

(** Awa has passed module 1 only. *)
Definition half_way_db : Database :=
  with_quiz_attempts (λ _, [passed_attempt 1 1 1 20 100]) sample_db.

(** An uppercase letter or a digit. *)
Definition is_uppercase_or_digit (c : ascii) : bool :=
  let n := nat_of_ascii c in
  (65 <=? n) && (n <=? 90) || (48 <=? n) && (n <=? 57).

(** Awa has passed module 1 twice, at times 20 and 25, and never module 2. *)
Definition twice_passed_db : Database :=
  with_quiz_attempts
    (λ _, [passed_attempt 1 1 1 20 100;
           {| attempt_id := 2; attempt_user := 1; attempt_module := 1;
              attempt_number := 2; score := 90; total_questions := 2;
              correct_answers := 2; is_passed := true; started_at := 24;
              attempt_completed_at := 25 |}]) sample_db.

(** The same question answered twice in one submission. *)
Definition doubled_submission : QuizSubmissionData :=
  {| data_module_id := 1;
     data_answers := [ {| data_question := 1; data_selected_choices := [1] |};
                       {| data_question := 1; data_selected_choices := [1] |} ];
     data_started_at := 7 |}.

(** Nine training modules and the reporting module; a learner's first
    attempts on modules 1 to 9 with the given scores, one per module. *)
Definition numbered_module (n : nat) : Module_ :=
  {| module_id := n; number := n; title := "Module " +:+ pretty n;
     audio_fon := None; module_is_active := true |}.

Definition scored_attempt (id user module number : nat) (s : Q) (completed : nat)
    : UserQuizAttempt :=
  UserQuizAttempt_pre_save
    {| attempt_id := id; attempt_user := user; attempt_module := module;
       attempt_number := number; score := s; total_questions := 10;
       correct_answers := 0; is_passed := false; started_at := completed - 1;
       attempt_completed_at := completed |}.

Definition first_scores : list Q := [85; 90; 82; 95; 80; 88; 91; 79; 84]%Q.

Definition course_db (later : list UserQuizAttempt) : Database :=
  {| modules := numbered_module <$> seq 1 10;
     quiz_questions := []; answer_choices := [];
     quiz_attempts :=
       imap (λ i s, scored_attempt (S i) 1 (S i) 1 s (10 + i)) first_scores ++ later;
     quiz_answers := []; module_progress := []; certificates := [];
     overall_progress := []; activities := [] |}.

(** ** Further views of [modules/views.py] *)

(** [get_object_or_404(Model, ...)]: [None] stands for [Http404], which the
    framework turns into a 404 answer; a second matching row still raises. *)
Definition get_object_or_404 {A} (P : A → Prop) `{!∀ x, Decision (P x)}
    (rows : list A) : Exception + option A :=
  match get P rows with
  | inr x => inr (Some x)
  | inl DoesNotExist => inr None
  | inl e => inl e
  end.

(** [order_by('-score', '-completed_at')]. *)
Definition by_score_then_recent (x y : UserQuizAttempt) : bool :=
  match (score x ?= score y)%Q with
  | Gt => true
  | Eq => bool_decide (attempt_completed_at y ≤ attempt_completed_at x)
  | Lt => false
  end.

Inductive BestAttemptData :=
  | BestHttp404
  | BestMissing (message : string)
  | BestFound (attempt : UserQuizAttempt) (module : Module_).

(** [quiz_best_attempt(request, module_id)]. *)
Definition quiz_best_attempt (user : User) (module_pk : nat)
    : DbM (Response BestAttemptData) :=
  rows ← query modules;
  found ← lift (get_object_or_404
                  (λ m, module_id m = module_pk ∧ module_is_active m = true) rows);
  match found with
  | None => mret {| status_code := HTTP_404_NOT_FOUND; data := BestHttp404 |}
  | Some module =>
      attempts ← query quiz_attempts;
      let best_attempt :=
        first (order_by by_score_then_recent
                 (filter (λ a, attempt_user a = user_id user
                               ∧ attempt_module a = module_id module) attempts)) in
      match best_attempt with
      | None =>
          mret {| status_code := HTTP_404_NOT_FOUND;
                  data := BestMissing "Aucune tentative trouvée pour ce module" |}
      | Some best_attempt =>
          mret {| status_code := HTTP_200_OK; data := BestFound best_attempt module |}
      end
  end.

Inductive AttemptListData :=
  | AttemptsHttp404
  | AttemptList (attempts : list UserQuizAttempt).

(** [user_quiz_attempts(request, module_id=None)]; a [module_id] of 0 is
    as good as none. *)
Definition user_quiz_attempts (user : User) (module_pk : option nat)
    : DbM (Response AttemptListData) :=
  attempts ← query quiz_attempts;
  let queryset := filter (λ a, attempt_user a = user_id user) attempts in
  match module_pk with
  | Some (S _ as module_pk) =>
      rows ← query modules;
      found ← lift (get_object_or_404
                      (λ m, module_id m = module_pk ∧ module_is_active m = true) rows);
      match found with
      | None => mret {| status_code := HTTP_404_NOT_FOUND; data := AttemptsHttp404 |}
      | Some module =>
          mret {| status_code := HTTP_200_OK;
                  data := AttemptList
                    (order_by (desc attempt_completed_at)
                       (filter (λ a, attempt_module a = module_id module) queryset)) |}
      end
  | _ =>
      mret {| status_code := HTTP_200_OK;
              data := AttemptList (order_by (desc attempt_completed_at) queryset) |}
  end.

(** One entry of [user_module_status]; [progress_percentage] is present
    for audio modules only. *)
Record ModuleStatus := {
  status_module : Module_;
  status_is_completed : bool;
  best_score : option Q;
  total_attempts : nat;
  can_access : bool;
  status_progress_percentage : option Q;
  status_type : string;
}.

(** The body of the loop of [user_module_status]. *)
Definition module_status (db : Database) (user : User) (module : Module_)
    : Exception + ModuleStatus :=
  if is_reporting_module module then
    inr {| status_module := module; status_is_completed := false; best_score := None;
           total_attempts := 0; can_access := true;
           status_progress_percentage := None; status_type := "reporting" |}
  else if decide (preferred_language user = "FR") then
    let attempts :=
      filter (λ a, attempt_user a = user_id user ∧ attempt_module a = module_id module)
             (quiz_attempts db) in
    match first (order_by (descQ score) attempts) with
    | Some best_attempt =>
        inr {| status_module := module;
               status_is_completed := is_passed best_attempt;
               best_score := Some (score best_attempt);
               total_attempts := length attempts; can_access := true;
               status_progress_percentage := None; status_type := "quiz" |}
    | None =>
        inr {| status_module := module; status_is_completed := false;
               best_score := None; total_attempts := 0; can_access := true;
               status_progress_percentage := None; status_type := "quiz" |}
    end
  else
    match get (λ p, progress_user p = user_id user ∧ progress_module p = module_id module)
              (module_progress db) with
    | inr progress =>
        inr {| status_module := module; status_is_completed := is_completed progress;
               best_score := None; total_attempts := 0; can_access := true;
               status_progress_percentage := Some (progress_percentage progress);
               status_type := "audio" |}
    | inl DoesNotExist =>
        inr {| status_module := module; status_is_completed := false;
               best_score := None; total_attempts := 0; can_access := true;
               status_progress_percentage := Some 0%Q; status_type := "audio" |}
    | inl e => inl e
    end.

(** [user_module_status(request)]. *)
Definition user_module_status (user : User)
    : DbM (Response (string * list ModuleStatus)) :=
  db ← query id;
  let modules :=
    order_by (asc number) (filter (λ m, module_is_active m = true) (modules db)) in
  module_status ← for_each (λ module, lift (module_status db user module)) modules;
  mret {| status_code := HTTP_200_OK;
          data := (preferred_language user, module_status) |}.

(** ** The leaderboard: [user_leaderboard] *)

(** [order_by('-completion_percentage', '-completed_modules')]. *)
Definition by_completion (x y : OverallProgress) : bool :=
  match (completion_percentage x ?= completion_percentage y)%Q with
  | Gt => true
  | Eq => bool_decide (completed_modules y ≤ completed_modules x)
  | Lt => false
  end.

Record LeaderboardEntry := {
  entry_completion_percentage : Q;
  entry_average_score : option Q;
  entry_completed_modules : nat;
  commune : string;
  is_current_user : bool;
  rank : nat;
}.

Record Leaderboard := {
  leaderboard : list LeaderboardEntry;
  total_users : nat;
  user_rank : option nat;
}.

(** [user_leaderboard(request)].  [commune_of] gives [progress.user.commune],
    a column of the user table; [rank] is what the second loop,
    [enumerate(leaderboard, 1)], writes into each entry. *)
Definition user_leaderboard (commune_of : nat → string) (user : User)
    : DbM (Response Leaderboard) :=
  users_progress ← query overall_progress;
  let leaderboard :=
    imap (λ i progress,
            {| entry_completion_percentage := completion_percentage progress;
               entry_average_score := average_quiz_score progress;
               entry_completed_modules := completed_modules progress;
               commune := commune_of (overall_user progress);
               is_current_user := bool_decide (overall_user progress = user_id user);
               rank := S i |})
         (order_by by_completion users_progress) in
  let top_50 := take 50 leaderboard in
  let current_user_in_top :=
    bool_decide (Exists (λ entry, is_current_user entry = true) top_50) in
  let top_50 :=
    if current_user_in_top then top_50
    else match list_find (λ entry, is_current_user entry = true) leaderboard with
         | Some (_, current_user_entry) => top_50 ++ [current_user_entry]
         | None => top_50
         end in
  mret {| status_code := HTTP_200_OK;
          data := {| leaderboard := top_50;
                     total_users := length leaderboard;
                     user_rank :=
                       (λ found, rank found.2) <$>
                         list_find (λ entry, is_current_user entry = true) leaderboard |} |}.

(** ** Further views of [progress/views.py] *)

(** [UserActivity.objects.create(user=, activity_type=, module=, details=)]. *)
Definition UserActivity_create_for_module (now user : nat) (activity_type : string)
    (module : nat) (details : list (string * string)) : DbM () :=
  execute (with_activities (λ rows, rows ++
    [{| activity_id := next_pk (activity_id <$> rows); activity_user := user;
        activity_type := activity_type; activity_module := Some module;
        details := details; timestamp := now |}])).

Inductive ModuleStartedData :=
  | StartedHttp404
  | Started (message : string) (progress : ModuleProgress).

(** [mark_module_started(request, module_id)]; [get_or_create] is called
    without [defaults], so a new record takes the defaults of the model. *)
Definition mark_module_started (now : nat) (user : User) (module_pk : nat)
    : DbM (Response ModuleStartedData) :=
  rows ← query modules;
  found ← lift (get_object_or_404
                  (λ m, module_id m = module_pk ∧ module_is_active m = true) rows);
  match found with
  | None => mret {| status_code := HTTP_404_NOT_FOUND; data := StartedHttp404 |}
  | Some module =>
      found ← ModuleProgress_get_or_create now (user_id user) (module_id module) 0 0;
      let progress : ModuleProgress := found.1 in
      _ ← UserActivity_create_for_module now (user_id user) "MODULE_VIEW"
            (module_id module) [("action", "started")];
      mret {| status_code := HTTP_200_OK;
              data := Started ("Module " +:+ pretty (number module)
                               +:+ " marqué comme commencé") progress |}
  end.

Inductive FonInfoData :=
  | FonInfoError (error : string)
  | FonInfo (instructions : FonInstructions).

(** [fon_certificate_info(request)]. *)
Definition fon_certificate_info (user : User) : DbM (Response FonInfoData) :=
  db ← query id;
  if decide (preferred_language user ≠ "FON") then
    mret {| status_code := HTTP_400_BAD_REQUEST;
            data := FonInfoError "Cette vue est réservée aux utilisateurs en langue Fon" |}
  else
    mret {| status_code := HTTP_200_OK;
            data := FonInfo (FonUserProgressSerializer_to_representation db user) |}.

(** ** [OverallProgress.get_next_module] *)

(** [values_list('module__number', flat=True)] on rows that refer to the
    modules [ids]: the join with the module table. *)
Definition module_numbers (db : Database) (ids : list nat) : list nat :=
  id ← ids; number <$> filter (λ m, module_id m = id) (modules db).

(** [self.get_next_module()]; [user] is [self.user]. *)
Definition get_next_module (db : Database) (user : User) : option Module_ :=
  if decide (preferred_language user = "FR") then
    let passed_modules :=
      module_numbers db
        (attempt_module <$>
           filter (λ a, attempt_user a = user_id user ∧ is_passed a = true)
                  (quiz_attempts db)) in
    first (order_by (asc number)
             (filter (λ m, number m ∉ passed_modules)
                (filter (λ m, module_is_active m = true ∧ number m < 10) (modules db))))
  else
    let completed_modules :=
      module_numbers db
        (progress_module <$>
           filter (λ p, progress_user p = user_id user ∧ is_completed p = true)
                  (module_progress db)) in
    first (order_by (asc number)
             (filter (λ m, number m ∉ completed_modules)
                (filter (λ m, module_is_active m = true ∧ number m < 10) (modules db)))).

(** ** [CertificateVerificationSerializer] *)

(** [validate_verification_code]. *)
Definition validate_verification_code (value : string) : DbM (list ErrorDetail + string) :=
  rows ← query certificates;
  match get (λ c, verification_code c = value ∧ is_valid c = true) rows with
  | inr certificate => mret (inr value)
  | inl DoesNotExist =>
      mret (inl [Message "Code de vérification invalide ou certificat non trouvé."])
  | inl e => raise e
  end.

(** ** Actions of the administration site: [progress/admin.py] *)

Definition set_is_valid (valid : bool) (c : Certificate) : Certificate :=
  {| cert_id := cert_id c; cert_user := cert_user c; certificate_id := certificate_id c;
     verification_code := verification_code c; cert_full_name := cert_full_name c;
     completion_date := completion_date c;
     total_modules_completed := total_modules_completed c;
     average_score := average_score c; is_valid := valid;
     signed_by := signed_by c; signature_date := signature_date c |}.

Definition set_can_get_certificate (eligible : bool) (p : OverallProgress)
    : OverallProgress :=
  {| overall_id := overall_id p; overall_user := overall_user p;
     total_modules := total_modules p; completed_modules := completed_modules p;
     completion_percentage := completion_percentage p;
     total_quiz_attempts := total_quiz_attempts p;
     average_quiz_score := average_quiz_score p;
     total_audio_time := total_audio_time p;
     can_get_certificate := eligible;
     certificate_requested := certificate_requested p;
     overall_started_at := overall_started_at p;
     overall_updated_at := overall_updated_at p;
     completed_at := completed_at p |}.

(** [queryset.update(field=value)] on the rows selected in the change list,
    given by their primary keys: one [UPDATE] statement, no [save()]; the
    result is the number of rows matched. *)
Definition queryset_update {A} (pk : A → nat) (set : A → A) (queryset : list nat)
    (rows : list A) : list A :=
  (λ x, if decide (pk x ∈ queryset) then set x else x) <$> rows.

Definition queryset_count {A} (pk : A → nat) (queryset : list nat) (rows : list A) : nat :=
  length (filter (λ x, pk x ∈ queryset) rows).

(** [CertificateAdmin.invalidate_certificates]. *)
Definition invalidate_certificates (queryset : list nat) : DbM nat :=
  rows ← query certificates;
  _ ← execute (with_certificates (queryset_update cert_id (set_is_valid false) queryset));
  mret (queryset_count cert_id queryset rows).

(** [OverallProgressAdmin.mark_certificate_eligible]. *)
Definition mark_certificate_eligible (queryset : list nat) : DbM nat :=
  rows ← query overall_progress;
  _ ← execute (with_overall_progress
                 (queryset_update overall_id (set_can_get_certificate true) queryset));
  mret (queryset_count overall_id queryset rows).

(** ** Further notions *)

(** What every stored attempt satisfies once it has gone through
    [UserQuizAttempt.save]. *)
Definition attempt_sound (a : UserQuizAttempt) : Prop :=
  is_passed a = Qle_bool 80 (score a) ∧ (0 <= score a)%Q ∧ (score a <= 100)%Q
  ∧ 1 ≤ attempt_number a.

(** What the audio records satisfy: a percentage between 0 and 100, a
    completion date exactly on the completed records, and 100 % on those. *)
Definition progress_sound (p : ModuleProgress) : Prop :=
  (0 <= progress_percentage p)%Q ∧ (progress_percentage p <= 100)%Q
  ∧ (is_completed p = true ↔ is_Some (progress_completed_at p))
  ∧ (is_completed p = true → (progress_percentage p == 100)%Q).

(** The learner is done with a module: a passing attempt on the French
    track, a completed audio record otherwise. *)
Definition has_finished (db : Database) (user : User) (m : Module_) : Prop :=
  if decide (preferred_language user = "FR") then
    ∃ a, a ∈ quiz_attempts db ∧ attempt_user a = user_id user
         ∧ attempt_module a = module_id m ∧ is_passed a = true
  else
    ∃ p, p ∈ module_progress db ∧ progress_user p = user_id user
         ∧ progress_module p = module_id m ∧ is_completed p = true.

(** ** More rows to run the views on *)

(** Codjo after the four calls of [sample_calls]. *)
Definition listened_db : Database := track_all codjo sample_calls sample_db.

Definition enrolled (id user : nat) (eligible : bool) : OverallProgress :=
  {| overall_id := id; overall_user := user; total_modules := 10;
     completed_modules := 0; completion_percentage := 0; total_quiz_attempts := 0;
     average_quiz_score := None; total_audio_time := 0;
     can_get_certificate := eligible; certificate_requested := false;
     overall_started_at := 5; overall_updated_at := 5; completed_at := None |}.

(** [certified_db] with an overall progress row for Awa and for Codjo. *)
Definition enrolled_db : Database :=
  with_overall_progress (λ _, [enrolled 1 1 false; enrolled 2 2 false]) certified_db.

(** No training module: the reporting module only. *)
Definition reporting_only_db : Database :=
  {| modules := [numbered_module 10]; quiz_questions := []; answer_choices := [];
     quiz_attempts := []; quiz_answers := []; module_progress := [];
     certificates := []; overall_progress := []; activities := [] |}.

(** [enrolled_db] after Awa has been issued her certificate. *)
Definition issued_db : Database :=
  (request_certificate 50 (λ i, i) 99 awa (Some "  Awa Dossou ") enrolled_db).1.

(** ** Requests, one after the other *)

(** A request to one of the views or admin actions that write. *)
Inductive Request :=
  | SubmitQuiz (now : nat) (user : User) (request_data : QuizSubmissionData)
  | TrackAudioProgress (now : nat) (user : User) (request_data : AudioProgressData)
  | MarkModuleStarted (now : nat) (user : User) (module_pk : nat)
  | RequestCertificate (now : nat) (random : nat → nat) (uuid4 : nat) (user : User)
      (sent : option string)
  | GetProgress (now : nat) (user : User)
  | InvalidateCertificates (queryset : list nat)
  | MarkCertificateEligible (queryset : list nat).

(** The database after a request, whether the view answers or raises. *)
Definition serve (request : Request) (db : Database) : Database :=
  match request with
  | SubmitQuiz now user request_data => (submit_quiz now user request_data db).1
  | TrackAudioProgress now user request_data =>
      (track_audio_progress now user request_data db).1
  | MarkModuleStarted now user module_pk => (mark_module_started now user module_pk db).1
  | RequestCertificate now random uuid4 user sent =>
      (request_certificate now random uuid4 user sent db).1
  | GetProgress now user => (UserProgressView_get_object now user db).1
  | InvalidateCertificates queryset => (invalidate_certificates queryset db).1
  | MarkCertificateEligible queryset => (mark_certificate_eligible queryset db).1
  end.

Fixpoint serve_all (requests : list Request) (db : Database) : Database :=
  match requests with
  | [] => db
  | request :: rest => serve_all rest (serve request db)
  end.

(** A morning of requests on [sample_db]. *)
Definition sample_requests : list Request :=
  [ GetProgress 1 awa;
    SubmitQuiz 9 awa sample_submission;
    SubmitQuiz 10 awa doubled_submission;
    MarkModuleStarted 11 codjo 1;
    TrackAudioProgress 12 codjo
      {| audio_module_id := 1; audio_progress_percentage := 100; current_time := 130 |};
    RequestCertificate 13 (λ i, i) 99 awa (Some "Awa Dossou");
    InvalidateCertificates [1];
    MarkCertificateEligible [1] ].

(* ================================================================== *)
(** * Properties *)

(** ** Querysets *)

Section queryset_facts.
Context {A : Type}.
Implicit Types (l : list A) (before : A → A → bool).

Lemma insert_by_perm before x l : insert_by before x l ≡ₚ x :: l.
Proof.
  induction l as [|y l IH]; simpl; [done|].
  destruct (before x y); [done|]. rewrite IH. apply Permutation_swap.
Qed.

Lemma order_by_perm before l : order_by before l ≡ₚ l.
Proof.
  induction l as [|x l IH]; simpl; [done|].
  rewrite insert_by_perm. by rewrite IH.
Qed.

Lemma elem_of_order_by before l x : x ∈ order_by before l ↔ x ∈ l.
Proof. by rewrite order_by_perm. Qed.

Lemma length_order_by before l : length (order_by before l) = length l.
Proof. by rewrite order_by_perm. Qed.

Lemma order_by_nil_inv before l : order_by before l = [] → l = [].
Proof.
  intros H. apply Permutation_nil_r. rewrite <- H. symmetry. apply order_by_perm.
Qed.

Lemma head_insert_by before x l :
  head (insert_by before x l)
  = Some (match head l with
          | Some y => if before x y then x else y
          | None => x
          end).
Proof. destruct l as [|y l]; simpl; [done|]. by destruct (before x y). Qed.

Lemma first_order_by_cons before x l :
  first (order_by before (x :: l))
  = Some (match first (order_by before l) with
          | Some y => if before x y then x else y
          | None => x
          end).
Proof. apply head_insert_by. Qed.

Lemma first_order_by_None before l : first (order_by before l) = None → l = [].
Proof. destruct l; [done|]. by rewrite first_order_by_cons. Qed.

Lemma first_order_by_is_Some before l : l ≠ [] → is_Some (first (order_by before l)).
Proof. destruct l; [done|]. rewrite first_order_by_cons. eauto. Qed.

(** The first row of a descending order carries the largest key. *)
Lemma first_desc_max (key : A → nat) l x :
  first (order_by (desc key) l) = Some x →
  x ∈ l ∧ ∀ y, y ∈ l → key y ≤ key x.
Proof.
  revert x. induction l as [|z l IH]; intros x; [done|].
  rewrite first_order_by_cons. intros [= <-].
  destruct (first (order_by (desc key) l)) as [y|] eqn:Hy.
  - destruct (IH y eq_refl) as [Hin Hmax]. unfold desc.
    case_bool_decide as Hle.
    + split; [left|]. intros w [->|Hw]%elem_of_cons; [lia|].
      specialize (Hmax w Hw). lia.
    + split; [by right|]. intros w [->|Hw]%elem_of_cons; [lia|]. by apply Hmax.
  - apply first_order_by_None in Hy as ->. split; [left|].
    intros w [->|Hw]%elem_of_cons; [lia|]. by apply elem_of_nil in Hw.
Qed.

Lemma first_descQ_max (key : A → Q) l x :
  first (order_by (descQ key) l) = Some x →
  x ∈ l ∧ ∀ y, y ∈ l → (key y <= key x)%Q.
Proof.
  revert x. induction l as [|z l IH]; intros x; [done|].
  rewrite first_order_by_cons. intros [= <-].
  destruct (first (order_by (descQ key) l)) as [y|] eqn:Hy.
  - destruct (IH y eq_refl) as [Hin Hmax]. unfold descQ.
    destruct (Qle_bool (key y) (key z)) eqn:Hle.
    + apply Qle_bool_iff in Hle. split; [left|].
      intros w [->|Hw]%elem_of_cons; [apply Qle_refl|].
      eapply Qle_trans; [by apply Hmax|done].
    + split; [by right|]. intros w [->|Hw]%elem_of_cons; [|by apply Hmax].
      destruct (Qlt_le_dec (key y) (key z)) as [Hlt|Hge]; [|done].
      apply Qlt_le_weak in Hlt. apply Qle_bool_iff in Hlt. congruence.
  - apply first_order_by_None in Hy as ->. split; [left|].
    intros w [->|Hw]%elem_of_cons; [apply Qle_refl|]. by apply elem_of_nil in Hw.
Qed.

Lemma filter_none (P : A → Prop) `{!∀ x, Decision (P x)} l :
  (∀ x, x ∈ l → ¬ P x) → filter P l = [].
Proof.
  intros Hnone. destruct (filter P l) as [|y l'] eqn:Hf; [done|].
  assert (y ∈ filter P l) as [HP Hy]%list_elem_of_filter by (rewrite Hf; left).
  by destruct (Hnone y Hy).
Qed.

(** Reading [get]. *)
Lemma get_inr (P : A → Prop) `{!∀ x, Decision (P x)} l x :
  get P l = inr x → x ∈ l ∧ P x ∧ filter P l = [x].
Proof.
  unfold get. destruct (filter P l) as [|y [|??]] eqn:Hf; intros [= <-].
  assert (y ∈ filter P l) as [??]%list_elem_of_filter by (rewrite Hf; left).
  done.
Qed.

Lemma get_DoesNotExist (P : A → Prop) `{!∀ x, Decision (P x)} l :
  get P l = inl DoesNotExist ↔ ∀ x, x ∈ l → ¬ P x.
Proof.
  unfold get. split.
  - destruct (filter P l) as [|y [|??]] eqn:Hf; intros [=].
    intros x Hx HP. assert (x ∈ filter P l) as Hin by (by apply list_elem_of_filter).
    rewrite Hf in Hin. by apply elem_of_nil in Hin.
  - intros Hnone. destruct (filter P l) as [|y l'] eqn:Hf; [done|].
    assert (y ∈ filter P l) as [HP Hy]%list_elem_of_filter by (rewrite Hf; left).
    by destruct (Hnone y Hy).
Qed.

(** A key larger than every key of the table matches no row. *)
Lemma next_pk_fresh (pk : A → nat) l x : x ∈ l → pk x < next_pk (pk <$> l).
Proof.
  intros Hx. unfold next_pk.
  assert (pk x ≤ max_list (pk <$> l)); [|lia].
  apply max_list_elem_of_le, list_elem_of_fmap. eauto.
Qed.

Lemma update_row_other (pk : A → nat) r l :
  (∀ x, x ∈ l → pk x ≠ pk r) → update_row pk r l = l.
Proof.
  intros H. unfold update_row. induction l as [|y l IH]; simpl; [done|].
  rewrite decide_False by (apply H; left).
  f_equal. apply IH. intros x Hx. apply H. by right.
Qed.

Lemma update_row_new (pk : A → nat) r r0 l :
  pk r0 = next_pk (pk <$> l) → pk r = pk r0 →
  update_row pk r (l ++ [r0]) = l ++ [r].
Proof.
  intros H0 Hr. unfold update_row. rewrite fmap_app. simpl.
  rewrite decide_True by done. f_equal.
  apply (update_row_other pk r l). intros x Hx.
  pose proof (next_pk_fresh pk l x Hx). lia.
Qed.
End queryset_facts.

(** ** The monad of a request *)

Lemma bind_run {A B} (m : DbM A) (k : A → DbM B) db db' x :
  m db = (db', inr x) → (m ≫= k) db = k x db'.
Proof. intros H. unfold mbind, DbM_bind. by rewrite H. Qed.

Lemma bind_raise {A B} (m : DbM A) (k : A → DbM B) db db' e :
  m db = (db', inl e) → (m ≫= k) db = (db', inl e).
Proof. intros H. unfold mbind, DbM_bind. by rewrite H. Qed.

Lemma read_only_run {A} (m : DbM A) db : read_only m → m db = (db, (m db).2).
Proof. intros H. specialize (H db). destruct (m db); simpl in *. by subst. Qed.

Lemma read_only_ret {A} (x : A) : read_only (mret x).
Proof. done. Qed.

Lemma read_only_query {A} (f : Database → A) : read_only (query f).
Proof. done. Qed.

Lemma read_only_raise {A} e : read_only (@raise A e).
Proof. done. Qed.

Lemma read_only_lift {A} (r : Exception + A) : read_only (lift r).
Proof. done. Qed.

Lemma read_only_bind {A B} (m : DbM A) (k : A → DbM B) :
  read_only m → (∀ x, read_only (k x)) → read_only (m ≫= k).
Proof.
  intros Hm Hk db. unfold mbind, DbM_bind. rewrite (read_only_run m db Hm).
  destruct (m db).2; [done|]. apply Hk.
Qed.

Lemma read_only_for_each {A B} (f : A → DbM B) l :
  (∀ x, read_only (f x)) → read_only (for_each f l).
Proof.
  intros Hf. induction l as [|x l IH]; simpl; [done|].
  apply read_only_bind; [done|]. intros y.
  apply read_only_bind; [done|]. intros ys. done.
Qed.

Create HintDb read_only.
#[global] Hint Resolve read_only_ret read_only_query read_only_raise read_only_lift
  read_only_bind read_only_for_each : read_only.

Ltac read_only :=
  repeat first
    [ progress intros
    | apply read_only_bind
    | apply read_only_for_each
    | apply read_only_ret | apply read_only_query
    | apply read_only_raise | apply read_only_lift
    | match goal with
      | |- read_only (match ?x with _ => _ end) => destruct x
      | |- read_only (if ?x then _ else _) => destruct x
      end ].

Lemma read_only_related_pk {A} (pk : A → nat) table value :
  read_only (related_pk pk table value).
Proof. unfold related_pk. read_only. Qed.

Lemma read_only_UserQuizAnswerSerializer a : read_only (UserQuizAnswerSerializer a).
Proof.
  unfold UserQuizAnswerSerializer. read_only; apply read_only_related_pk.
Qed.

Lemma read_only_validate_module_id value : read_only (validate_module_id value).
Proof. unfold validate_module_id. read_only. Qed.

Lemma read_only_validate_answers value : read_only (validate_answers value).
Proof. unfold validate_answers. read_only. Qed.

Lemma read_only_QuizSubmissionSerializer d : read_only (QuizSubmissionSerializer d).
Proof.
  unfold QuizSubmissionSerializer. read_only;
    auto using read_only_validate_module_id, read_only_UserQuizAnswerSerializer,
               read_only_validate_answers.
Qed.

Lemma read_only_AudioProgressSerializer d : read_only (AudioProgressSerializer d).
Proof.
  unfold AudioProgressSerializer, validate_audio_module_id. read_only.
Qed.

Lemma read_only_CertificateRequestSerializer user full_name :
  read_only (CertificateRequestSerializer user full_name).
Proof. unfold CertificateRequestSerializer. read_only. Qed.

Lemma read_only_verify_certificate now code : read_only (verify_certificate now code).
Proof. unfold verify_certificate. read_only. Qed.

Lemma bind_inv {A B} (m : DbM A) (k : A → DbM B) db y :
  ((m ≫= k) db).2 = inr y →
  ∃ db' x, m db = (db', inr x) ∧ (k x db').2 = inr y.
Proof.
  unfold mbind, DbM_bind. destruct (m db) as [db' [e|x]]; [done|]. eauto.
Qed.

(** ** Rounding to binary64 *)

Lemma round_half_even_floor q :
  round_half_even q = Qfloor q ∨ round_half_even q = (Qfloor q + 1)%Z.
Proof.
  unfold round_half_even. destruct (_ ?= _)%Q; [destruct (Z.even _)|..]; auto.
Qed.

Lemma round_half_even_le q z : (q <= inject_Z z)%Q → (round_half_even q ≤ z)%Z.
Proof.
  intros Hq. pose proof (Qfloor_le q) as Hf.
  assert (Qfloor q ≤ z)%Z as Hfz by (rewrite Zle_Qle; by eapply Qle_trans).
  unfold round_half_even.
  destruct (q - inject_Z (Qfloor q) ?= 1 # 2)%Q eqn:Hc; [|done|].
  - apply Qeq_alt in Hc.
    assert (Qfloor q < z)%Z; [|destruct (Z.even _); lia].
    rewrite Zlt_Qlt. lra.
  - apply Qgt_alt in Hc.
    assert (Qfloor q < z)%Z; [|lia].
    rewrite Zlt_Qlt. lra.
Qed.

Lemma round_half_even_ge q z : (inject_Z z <= q)%Q → (z ≤ round_half_even q)%Z.
Proof.
  intros Hq. pose proof (Qlt_floor q) as Hf.
  assert (z < Qfloor q + 1)%Z as Hfz by (rewrite Zlt_Qlt; by eapply Qle_lt_trans).
  destruct (round_half_even_floor q) as [-> | ->]; lia.
Qed.

Lemma round_half_even_near q : (Qabs (inject_Z (round_half_even q) - q) <= 1 # 2)%Q.
Proof.
  pose proof (Qfloor_le q) as Hf. pose proof (Qlt_floor q) as Hf'.
  rewrite inject_Z_plus in Hf'. change (inject_Z 1) with 1%Q in Hf'.
  apply Qabs_Qle_condition. unfold round_half_even.
  destruct (q - inject_Z (Qfloor q) ?= 1 # 2)%Q eqn:Hc.
  - apply Qeq_alt in Hc. destruct (Z.even _).
    + lra.
    + rewrite inject_Z_plus. change (inject_Z 1) with 1%Q. lra.
  - apply Qlt_alt in Hc. lra.
  - apply Qgt_alt in Hc. rewrite inject_Z_plus. change (inject_Z 1) with 1%Q. lra.
Qed.

Lemma pow2_pos e : (0 < 2 ^ e)%Q.
Proof. by apply Qpower_0_lt. Qed.

Lemma pow2_opp e : (2 ^ (- e) * 2 ^ e == 1)%Q.
Proof.
  rewrite <- Qpower_plus by done. by replace (- e + e)%Z with 0%Z by lia.
Qed.

Lemma pow2_le e e' : (e ≤ e')%Z → (2 ^ e <= 2 ^ e')%Q.
Proof. intros. by apply Qpower_le_compat_l. Qed.

Lemma pow2_Z e : (0 ≤ e)%Z → (2 ^ e == inject_Z (2 ^ e))%Q.
Proof. intros. by rewrite Zpower_Qpower. Qed.

Lemma floor_log2_le q : (0 < q)%Q → (2 ^ floor_log2 q <= q)%Q.
Proof.
  intros Hq. unfold floor_log2.
  destruct (Qle_bool _ q) eqn:Hle; [by apply Qle_bool_iff|]. clear Hle.
  destruct q as [n d]. cbn [Qnum Qden].
  assert (0 < n)%Z as Hn by (unfold Qlt in Hq; simpl in Hq; lia).
  destruct (Z.log2_spec n Hn) as [Hn1 _].
  destruct (Z.log2_spec (Z.pos d) eq_refl) as [_ Hd2].
  pose proof (Z.log2_nonneg n). pose proof (Z.log2_nonneg (Z.pos d)).
  replace (Z.log2 n - Z.log2 (Z.pos d) - 1)%Z
    with (Z.log2 n - Z.succ (Z.log2 (Z.pos d)))%Z by lia.
  rewrite Qpower_minus by done.
  rewrite !pow2_Z by lia.
  apply Qle_shift_div_r.
  { rewrite <- pow2_Z by lia. apply pow2_pos. }
  set (a := (2 ^ Z.log2 n)%Z) in *. set (b := (2 ^ Z.succ (Z.log2 (Z.pos d)))%Z) in *.
  unfold Qle, Qmult, inject_Z. cbn [Qnum Qden]. rewrite Pos.mul_1_r. nia.
Qed.

Lemma floor_log2_lt q k : (0 < q)%Q → (q < 2 ^ k)%Q → (floor_log2 q < k)%Z.
Proof.
  intros Hq Hk. apply (Qpower_lt_compat_l_inv 2); [|done].
  eapply Qle_lt_trans; [by apply floor_log2_le|done].
Qed.

Lemma ulp_exponent_le q k :
  ¬ (q == 0)%Q → (Qabs q < 2 ^ k)%Q → (-1021 ≤ k)%Z → (ulp_exponent q ≤ k - 53)%Z.
Proof.
  intros Hq Hk Hmin. unfold ulp_exponent.
  assert (0 < Qabs q)%Q as Hpos.
  { destruct (Qlt_le_dec 0 (Qabs q)) as [|Hle]; [done|].
    destruct Hq. pose proof (Qabs_nonneg q).
    assert (Qabs q == 0)%Q as H0 by lra.
    revert H0. apply Qabs_case; intros; lra. }
  pose proof (floor_log2_lt _ _ Hpos Hk). lia.
Qed.

Lemma binary64_0 q : (q == 0)%Q → binary64 q = 0%Q.
Proof. intros Hq. unfold binary64. by rewrite (proj2 (Qeq_bool_iff q 0) Hq). Qed.

Lemma binary64_nonneg q : (0 <= q)%Q → (0 <= binary64 q)%Q.
Proof.
  intros Hq. unfold binary64. destruct (Qeq_bool q 0); [done|].
  apply Qmult_le_0_compat; [|apply Qlt_le_weak, pow2_pos].
  change 0%Q with (inject_Z 0). rewrite <- Zle_Qle. apply round_half_even_ge.
  apply Qmult_le_0_compat; [done|apply Qlt_le_weak, pow2_pos].
Qed.

(** A number that is on the grid of [q] and above [q] is above what [q]
    is rounded to. *)
Lemma binary64_le_Z q n :
  (0 <= q)%Q → (q <= inject_Z n)%Q → (q < 2 ^ 53)%Q → (binary64 q <= inject_Z n)%Q.
Proof.
  intros H0 Hn Hk. unfold binary64.
  destruct (Qeq_bool q 0) eqn:Hz; [lra|].
  assert (¬ (q == 0)%Q) as Hne by (intros E; apply Qeq_bool_iff in E; congruence).
  assert (ulp_exponent q ≤ 0)%Z as He.
  { pose proof (ulp_exponent_le q 53 Hne) as H. rewrite Qabs_pos in H by done.
    specialize (H Hk). lia. }
  set (e := ulp_exponent q) in *.
  assert (round_half_even (q * 2 ^ (- e)) ≤ n * 2 ^ (- e))%Z as Hm.
  { apply round_half_even_le. rewrite inject_Z_mult, <- pow2_Z by lia.
    apply Qmult_le_compat_r; [done|apply Qlt_le_weak, pow2_pos]. }
  rewrite Zle_Qle, inject_Z_mult, <- pow2_Z in Hm by lia.
  apply (Qmult_le_compat_r _ _ (2 ^ e)) in Hm; [|apply Qlt_le_weak, pow2_pos].
  rewrite <- Qmult_assoc, pow2_opp, Qmult_1_r in Hm. done.
Qed.

Lemma binary64_near q k :
  (Qabs q < 2 ^ k)%Q → (-1021 ≤ k)%Z → (Qabs (binary64 q - q) <= 2 ^ (k - 54))%Q.
Proof.
  intros Hk Hmin. unfold binary64.
  destruct (Qeq_bool q 0) eqn:Hz.
  { apply Qeq_bool_iff in Hz. rewrite Hz. apply Qlt_le_weak, pow2_pos. }
  assert (¬ (q == 0)%Q) as Hne by (intros E; apply Qeq_bool_iff in E; congruence).
  pose proof (ulp_exponent_le q k Hne Hk Hmin) as He.
  set (e := ulp_exponent q) in *.
  pose proof (round_half_even_near (q * 2 ^ (- e))) as Hm.
  set (m := inject_Z (round_half_even (q * 2 ^ (- e)))) in *.
  assert (m * 2 ^ e - q == (m - q * 2 ^ (- e)) * 2 ^ e)%Q as ->.
  { transitivity (m * 2 ^ e - q * (2 ^ (- e) * 2 ^ e))%Q; [|ring].
    rewrite pow2_opp. ring. }
  rewrite Qabs_Qmult, (Qabs_pos (2 ^ e)) by apply Qlt_le_weak, pow2_pos.
  eapply Qle_trans.
  { apply Qmult_le_compat_r; [exact Hm|apply Qlt_le_weak, pow2_pos]. }
  assert ((1 # 2) * 2 ^ e == 2 ^ (e - 1))%Q as ->.
  { rewrite Qpower_minus by done. change (2 ^ 1)%Q with 2%Q. field. }
  apply pow2_le. lia.
Qed.

Lemma floor_log2_gt q : (0 < q)%Q → (q < 2 ^ (floor_log2 q + 1))%Q.
Proof.
  intros Hq. unfold floor_log2.
  destruct (Qle_bool _ q) eqn:Hle.
  - clear Hle. destruct q as [n d]. cbn [Qnum Qden].
    assert (0 < n)%Z as Hn by (unfold Qlt in Hq; simpl in Hq; lia).
    destruct (Z.log2_spec n Hn) as [_ Hn2].
    destruct (Z.log2_spec (Z.pos d) eq_refl) as [Hd1 _].
    pose proof (Z.log2_nonneg n). pose proof (Z.log2_nonneg (Z.pos d)).
    replace (Z.log2 n - Z.log2 (Z.pos d) + 1)%Z
      with (Z.succ (Z.log2 n) - Z.log2 (Z.pos d))%Z by lia.
    rewrite Qpower_minus by done.
    rewrite !pow2_Z by lia.
    apply Qlt_shift_div_l.
    { rewrite <- pow2_Z by lia. apply pow2_pos. }
    set (a := (2 ^ Z.succ (Z.log2 n))%Z) in *. set (b := (2 ^ Z.log2 (Z.pos d))%Z) in *.
    unfold Qlt, Qmult, inject_Z. cbn [Qnum Qden]. rewrite Pos.mul_1_r. nia.
  - replace (Z.log2 (Qnum q) - Z.log2 (Z.pos (Qden q)) - 1 + 1)%Z
      with (Z.log2 (Qnum q) - Z.log2 (Z.pos (Qden q)))%Z by lia.
    apply Qnot_le_lt. intros H%Qle_bool_iff. congruence.
Qed.

Lemma floor_log2_unique q l :
  (2 ^ l <= q)%Q → (q < 2 ^ (l + 1))%Q → floor_log2 q = l.
Proof.
  intros Hl Hu.
  assert (0 < q)%Q as Hq by (eapply Qlt_le_trans; [apply pow2_pos|exact Hl]).
  pose proof (floor_log2_le q Hq) as Hl'. pose proof (floor_log2_gt q Hq) as Hu'.
  assert (floor_log2 q < l + 1)%Z
    by (apply (Qpower_lt_compat_l_inv 2); [eapply Qle_lt_trans; eauto|done]).
  assert (l < floor_log2 q + 1)%Z
    by (apply (Qpower_lt_compat_l_inv 2); [eapply Qle_lt_trans; eauto|done]).
  lia.
Qed.

Lemma floor_log2_proper q q' : (0 < q)%Q → (q == q')%Q → floor_log2 q = floor_log2 q'.
Proof.
  intros Hq E. symmetry. apply floor_log2_unique; rewrite <- E.
  - by apply floor_log2_le.
  - by apply floor_log2_gt.
Qed.

Lemma round_half_even_proper q q' : (q == q')%Q → round_half_even q = round_half_even q'.
Proof.
  intros E. unfold round_half_even. rewrite <- (Qfloor_comp _ _ E).
  set (f := Qfloor q).
  assert ((q - inject_Z f ?= 1 # 2) = (q' - inject_Z f ?= 1 # 2))%Q as ->; [|done].
  apply Qcompare_comp; [by rewrite E|done].
Qed.

Lemma binary64_proper q q' : (q == q')%Q → (binary64 q == binary64 q')%Q.
Proof.
  intros E. unfold binary64.
  destruct (Qeq_bool q 0) eqn:Hz.
  - apply Qeq_bool_iff in Hz. rewrite E in Hz. apply Qeq_bool_iff in Hz. by rewrite Hz.
  - assert (¬ (q == 0)%Q) as Hne by (intros H%Qeq_bool_iff; congruence).
    assert (Qeq_bool q' 0 = false) as ->.
    { destruct (Qeq_bool q' 0) eqn:Hz'; [|done].
      apply Qeq_bool_iff in Hz'. destruct Hne. by rewrite E. }
    assert (ulp_exponent q = ulp_exponent q') as <-.
    { unfold ulp_exponent. f_equal. f_equal. apply floor_log2_proper; [|by apply Qabs_wd].
      destruct (Qlt_le_dec 0 (Qabs q)) as [|Hle]; [done|].
      destruct Hne. pose proof (Qabs_nonneg q).
      assert (Qabs q == 0)%Q as H0 by lra.
      revert H0. apply Qabs_case; intros; lra. }
    rewrite (round_half_even_proper (q * 2 ^ (- ulp_exponent q))
               (q' * 2 ^ (- ulp_exponent q)))
      by (apply Qmult_comp; [exact E|reflexivity]).
    reflexivity.
Qed.

Lemma binary64_exact q z :
  (q * 2 ^ (- ulp_exponent q) == inject_Z z)%Q → (binary64 q == q)%Q.
Proof.
  intros Hz. unfold binary64. destruct (Qeq_bool q 0) eqn:H0.
  { apply Qeq_bool_iff in H0. by rewrite H0. }
  assert (round_half_even (q * 2 ^ (- ulp_exponent q)) = z) as ->.
  { apply Z.le_antisymm; [apply round_half_even_le|apply round_half_even_ge];
      rewrite Hz; apply Qle_refl. }
  rewrite <- Hz, <- Qmult_assoc, pow2_opp. ring.
Qed.

(** The score of a tally whose earned points are within the possible
    ones. *)
Lemma ratio_unit e p :
  e ≤ p → 0 < p → (0 <= of_nat e / of_nat p)%Q ∧ (of_nat e / of_nat p <= 1)%Q.
Proof.
  intros Hle Hpos. unfold of_nat.
  assert (0 < inject_Z (Z.of_nat p))%Q as Hp
    by (change 0%Q with (inject_Z 0); rewrite <- Zlt_Qlt; lia).
  assert (inject_Z (Z.of_nat e) <= inject_Z (Z.of_nat p))%Q as He
    by (rewrite <- Zle_Qle; lia).
  assert (0 <= inject_Z (Z.of_nat e))%Q as He0
    by (change 0%Q with (inject_Z 0); rewrite <- Zle_Qle; lia).
  split.
  - apply Qle_shift_div_l; [done|]. lra.
  - apply Qle_shift_div_r; [done|]. lra.
Qed.

Lemma binary64_unit q :
  (0 <= q)%Q → (q <= 1)%Q → (0 <= binary64 q)%Q ∧ (binary64 q <= 1)%Q.
Proof.
  intros H0 H1. split; [by apply binary64_nonneg|].
  apply (binary64_le_Z q 1); [done|done|].
  eapply Qle_lt_trans; [exact H1|done].
Qed.

Lemma binary64_percentage_range q :
  (0 <= q)%Q → (q <= 1)%Q →
  (0 <= binary64 (binary64 q * 100))%Q ∧ (binary64 (binary64 q * 100) <= 100)%Q.
Proof.
  intros H0 H1. destruct (binary64_unit q H0 H1) as [Hy0 Hy1].
  split; [apply binary64_nonneg; lra|].
  apply (binary64_le_Z _ 100); [lra|change (inject_Z 100) with 100%Q; lra|].
  apply Qle_lt_trans with 100%Q; [lra|done].
Qed.

Lemma binary64_percentage_near q :
  (0 <= q)%Q → (q <= 1)%Q →
  (Qabs (binary64 (binary64 q * 100) - 100 * q) <= 2 # 100000000000000)%Q.
Proof.
  intros H0 H1. destruct (binary64_unit q H0 H1) as [Hy0 Hy1].
  pose proof (binary64_near q 1) as Hq.
  rewrite Qabs_pos in Hq by done.
  specialize (Hq ltac:(apply Qle_lt_trans with 1%Q; done) ltac:(lia)).
  pose proof (binary64_near (binary64 q * 100) 7) as Hy.
  rewrite (Qabs_pos (binary64 q * 100)) in Hy by lra.
  specialize (Hy ltac:(apply Qle_lt_trans with 100%Q; [lra|done]) ltac:(lia)).
  change (2 ^ (1 - 54))%Q with (1 # 9007199254740992)%Q in Hq.
  change (2 ^ (7 - 54))%Q with (1 # 140737488355328)%Q in Hy.
  apply Qabs_Qle_condition in Hq, Hy. apply Qabs_Qle_condition. lra.
Qed.

(** ** Scoring a quiz submission *)

Lemma get_by_pk {A} (pk : A → nat) (l : list A) v x :
  NoDup (pk <$> l) → x ∈ l → pk x = v → get (λ y, pk y = v) l = inr x.
Proof.
  intros Hnd Hx Hv. unfold get.
  replace (filter (λ y, pk y = v) l) with [x]; [done|].
  induction l as [|z l IH]; [by apply elem_of_nil in Hx|].
  rewrite fmap_cons in Hnd. apply NoDup_cons in Hnd as [Hz Hnd].
  apply elem_of_cons in Hx as [->|Hx].
  - rewrite filter_cons_True by done. f_equal.
    symmetry. apply filter_none. intros y Hy Hpk.
    apply Hz, list_elem_of_fmap. exists y. split; [congruence|done].
  - rewrite filter_cons_False; [by apply IH|].
    intros Hpk. apply Hz, list_elem_of_fmap. exists x. split; [congruence|done].
Qed.

Lemma is_correct_answered_correctly db a :
  bool_decide (list_to_set (choice_id <$> get_correct_answers db (question a))
               = (list_to_set (choice_id <$> answer_selected_choices a) : gset nat))
  = answered_correctly db a.
Proof. apply bool_decide_ext. unfold selected_choice_ids, correct_choice_ids. done. Qed.

Lemma process_answer_run quiz_attempt t a db :
  (∀ r, r ∈ quiz_answers db →
        ¬ (answer_attempt r = attempt_id quiz_attempt
           ∧ answer_question r = question_id (question a))) →
  ∃ r t',
    process_answer quiz_attempt t a db
      = (with_quiz_answers (λ rows, rows ++ [r]) db, inr t')
    ∧ answer_id r = next_pk (answer_id <$> quiz_answers db)
    ∧ answer_attempt r = attempt_id quiz_attempt
    ∧ answer_question r = question_id (question a)
    ∧ selected_choices r = selected_choice_ids a
    ∧ is_correct r = answered_correctly db a
    ∧ points_earned r = answer_points db a
    ∧ total_points_possible t' = total_points_possible t + points (question a)
    ∧ total_points_earned t' = total_points_earned t + answer_points db a
    ∧ tally_correct_answers t'
      = tally_correct_answers t + (if answered_correctly db a then 1 else 0).
Proof.
  intros Hfree.
  exists {| answer_id := next_pk (answer_id <$> quiz_answers db);
            answer_attempt := attempt_id quiz_attempt;
            answer_question := question_id (question a);
            selected_choices := selected_choice_ids a;
            is_correct := answered_correctly db a;
            points_earned := answer_points db a |}.
  unfold process_answer, UserQuizAnswer_create, UserQuizAnswer_save.
  unfold mbind, DbM_bind, query, execute, mret, DbM_ret. simpl.
  rewrite decide_False; cycle 1.
  { intros (r & Hr & ?)%Exists_exists. by apply (Hfree r). }
  simpl. eexists. split.
  - f_equal. unfold with_quiz_answers. simpl.
    rewrite (update_row_new answer_id) by done.
    rewrite (update_row_new answer_id) by done.
    unfold get_correct_answers. simpl.
    fold (get_correct_answers db (question a)).
    rewrite is_correct_answered_correctly. done.
  - simpl. unfold get_correct_answers. simpl.
    fold (get_correct_answers db (question a)).
    rewrite is_correct_answered_correctly. unfold answer_points.
    destruct (answered_correctly db a); repeat split; lia.
Qed.

Lemma process_answers_run quiz_attempt l : ∀ db t,
  NoDup ((λ a, question_id (question a)) <$> l) →
  (∀ r, r ∈ quiz_answers db → answer_attempt r = attempt_id quiz_attempt →
        answer_question r ∉ (λ a, question_id (question a)) <$> l) →
  ∃ rows t',
    process_answers quiz_attempt t l db
      = (with_quiz_answers (λ old, old ++ rows) db, inr t')
    ∧ Forall2 (λ a r, answer_attempt r = attempt_id quiz_attempt
                      ∧ answer_question r = question_id (question a)
                      ∧ selected_choices r = selected_choice_ids a
                      ∧ is_correct r = answered_correctly db a
                      ∧ points_earned r = answer_points db a) l rows
    ∧ total_points_possible t' = total_points_possible t + possible_points l
    ∧ total_points_earned t' = total_points_earned t + earned_points db l
    ∧ tally_correct_answers t'
      = tally_correct_answers t + length (filter (λ a, answered_correctly db a = true) l).
Proof.
  induction l as [|a l IH]; intros db t Hnd Hfree.
  - exists [], t. simpl. split; [|repeat split; [constructor|..]; 
      unfold possible_points, earned_points; simpl; lia].
    unfold mret, DbM_ret. f_equal. destruct db. unfold with_quiz_answers. simpl.
    by rewrite app_nil_r.
  - rewrite fmap_cons in Hnd. apply NoDup_cons in Hnd as [Ha Hnd].
    destruct (process_answer_run quiz_attempt t a db)
      as (r & t1 & Hrun & Hid & Hatt & Hq & Hsel & Hcor & Hpts & Hp & He & Hc).
    { intros r Hr [Hatt Hq]. apply (Hfree r Hr Hatt). rewrite Hq. left. }
    set (db1 := with_quiz_answers (λ rows, rows ++ [r]) db) in *.
    destruct (IH db1 t1 Hnd) as (rows & t' & Hrun' & Hall & Hp' & He' & Hc').
    { intros r' [Hr'|Hr']%elem_of_app Hatt'.
      - intros Hin. apply (Hfree r' Hr' Hatt'). by right.
      - apply list_elem_of_singleton in Hr' as ->. by rewrite Hq. }
    exists (r :: rows), t'. split; [|split; [|split; [|split]]].
    + simpl. erewrite bind_run by apply Hrun. rewrite Hrun'.
      f_equal. unfold db1, with_quiz_answers. simpl. by rewrite <- app_assoc.
    + constructor; [done|]. done.
    + rewrite Hp', Hp.
      change (possible_points (a :: l)) with (points (question a) + possible_points l).
      lia.
    + rewrite He', He.
      change (earned_points db (a :: l)) with (answer_points db a + earned_points db l).
      change (earned_points db1 l) with (earned_points db l). lia.
    + rewrite Hc', Hc. change (answered_correctly db1) with (answered_correctly db).
      destruct (answered_correctly db a) eqn:E.
      * rewrite filter_cons_True by done. simpl. lia.
      * rewrite filter_cons_False by (by rewrite E). lia.
Qed.

Lemma validate_module_id_ok value db v :
  (validate_module_id value db).2 = inr (inr v) →
  v = value
  ∧ ∃ module, get (λ m, module_id m = value ∧ module_is_active m = true) (modules db)
              = inr module.
Proof.
  unfold validate_module_id, mbind, DbM_bind, query. simpl.
  destruct (get _ (modules db)) as [[]|module]; simpl; try done.
  destruct (is_reporting_module module); simpl; intros [=]. eauto.
Qed.

Lemma QuizSubmissionSerializer_ok d db data :
  (QuizSubmissionSerializer d db).2 = inr (inr data) →
  validated_module_id data = data_module_id d
  ∧ ∃ module, get (λ m, module_id m = data_module_id d ∧ module_is_active m = true)
                  (modules db) = inr module.
Proof.
  unfold QuizSubmissionSerializer. intros H.
  apply bind_inv in H as (db1 & r1 & H1 & H).
  apply bind_inv in H as (db2 & r2 & H2 & H).
  apply bind_inv in H as (db3 & r3 & H3 & H).
  pose proof (read_only_validate_module_id (data_module_id d) db) as Hro.
  rewrite H1 in Hro. simpl in Hro. subst db1.
  simpl in H. destruct r1 as [e|v]; [by destruct r3|].
  destruct r3 as [e|value]; [done|]. injection H as <-. simpl.
  apply validate_module_id_ok. by rewrite H1.
Qed.

Lemma attempt_number_fresh (attempts : list UserQuizAttempt) u m :
  ¬ Exists (λ r, attempt_user r = u ∧ attempt_module r = m
                 ∧ attempt_number r
                   = match first (order_by (desc attempt_number)
                             (filter (λ a, attempt_user a = u ∧ attempt_module a = m)
                                     attempts)) with
                     | Some last_attempt => attempt_number last_attempt + 1
                     | None => 1
                     end) attempts.
Proof.
  intros (r & Hr & Hu & Hm & Hn)%Exists_exists.
  assert (r ∈ filter (λ a, attempt_user a = u ∧ attempt_module a = m) attempts) as Hin
    by (by apply list_elem_of_filter).
  destruct (first _) as [last|] eqn:Hlast.
  - apply first_desc_max in Hlast as [_ Hmax]. specialize (Hmax r Hin). lia.
  - apply first_order_by_None in Hlast. rewrite Hlast in Hin. by apply elem_of_nil in Hin.
Qed.

Lemma UserQuizAttempt_create_run now user module number started total score correct db :
  ¬ Exists (λ r, attempt_user r = user ∧ attempt_module r = module
                 ∧ attempt_number r = number) (quiz_attempts db) →
  ∃ a, UserQuizAttempt_create now user module number started total score correct db
       = (with_quiz_attempts (λ rows, rows ++ [a]) db, inr a)
     ∧ attempt_id a = next_pk (attempt_id <$> quiz_attempts db)
     ∧ attempt_user a = user ∧ attempt_module a = module
     ∧ attempt_number a = number.
Proof.
  intros Hfree. eexists. unfold UserQuizAttempt_create.
  unfold mbind, DbM_bind, query, execute, mret, DbM_ret. simpl.
  rewrite decide_False by done. simpl. split; [reflexivity|done].
Qed.

Lemma max_list_le (ns : list nat) n : (∀ k, k ∈ ns → k ≤ n) → max_list ns ≤ n.
Proof.
  intros H. destruct ns as [|k ns]; [simpl; lia|].
  apply H, max_list_elem_of. done.
Qed.

Lemma max_list_snoc (ns : list nat) n : max_list (ns ++ [n]) = max_list ns `max` n.
Proof. induction ns as [|k ns IH]; simpl; lia. Qed.

Lemma max_list_seq k : max_list (seq 1 k) = k.
Proof.
  induction k as [|k IH]; [done|].
  rewrite seq_S, max_list_snoc, IH. lia.
Qed.

Lemma next_attempt_number (attempts : list UserQuizAttempt) u m :
  match first (order_by (desc attempt_number)
                 (filter (λ a, attempt_user a = u ∧ attempt_module a = m) attempts)) with
  | Some last_attempt => attempt_number last_attempt + 1
  | None => 1
  end
  = S (max_list (attempt_number <$>
                   filter (λ a, attempt_user a = u ∧ attempt_module a = m) attempts)).
Proof.
  destruct (first _) as [last|] eqn:Hlast.
  - apply first_desc_max in Hlast as [Hin Hmax].
    assert (attempt_number last ≤ max_list (attempt_number <$>
              filter (λ a, attempt_user a = u ∧ attempt_module a = m) attempts)).
    { apply max_list_elem_of_le, list_elem_of_fmap. eauto. }
    assert (max_list (attempt_number <$>
              filter (λ a, attempt_user a = u ∧ attempt_module a = m) attempts)
            ≤ attempt_number last); [|lia].
    apply max_list_le. intros k (y & -> & Hy)%list_elem_of_fmap. by apply Hmax.
  - apply first_order_by_None in Hlast. by rewrite Hlast.
Qed.

(** A valid submission runs to the end: one attempt and one answer per
    submitted answer are stored, and the view answers 201. *)
Lemma submit_quiz_run db now user request_data data :
  consistent db → valid_submission db user request_data data →
  ∃ result rows t,
    let attempt := result_attempt result in
    submit_quiz now user request_data db
      = (with_quiz_attempts (λ old, old ++ [attempt])
           (with_quiz_answers (λ old, old ++ rows) db),
         inr {| status_code := HTTP_201_CREATED; data := SubmitResult result |})
    ∧ attempt_user attempt = user_id user
    ∧ attempt_module attempt = data_module_id request_data
    ∧ attempt_number attempt
      = S (max_list (attempt_numbers db (user_id user) (data_module_id request_data)))
    ∧ score attempt = score_percentage t
    ∧ is_passed attempt = Qle_bool 80 (score attempt)
    ∧ passed result = is_passed attempt
    ∧ total_points_possible t = possible_points (answers data)
    ∧ total_points_earned t = earned_points db (answers data)
    ∧ Forall2 (λ a r, answer_attempt r = attempt_id attempt
                      ∧ answer_question r = question_id (question a)
                      ∧ selected_choices r = selected_choice_ids a
                      ∧ is_correct r = answered_correctly db a
                      ∧ points_earned r = answer_points db a) (answers data) rows.
Proof.
  intros Hdb (Hser & Hfr & (q & Hq & Hqm & Hqa) & Hnd).
  destruct (QuizSubmissionSerializer_ok _ _ _ Hser) as (Hmid & module & Hget).
  apply get_inr in Hget as (Hmod & [Hmodid _] & _).
  assert (get (λ m, module_id m = validated_module_id data) (modules db) = inr module)
    as Hget by (apply get_by_pk; [apply Hdb|done|congruence]).
  unfold submit_quiz.
  erewrite bind_run; cycle 1.
  { rewrite read_only_run by apply read_only_QuizSubmissionSerializer.
    by rewrite Hser. }
  cbv beta iota.
  erewrite bind_run by reflexivity.
  erewrite bind_run by (unfold lift; rewrite Hget; reflexivity).
  rewrite decide_False by (intros ?; congruence).
  erewrite bind_run by reflexivity. cbv beta zeta.
  erewrite bind_run by reflexivity. cbv beta zeta.
  rewrite decide_False; cycle 1.
  { unfold get_quiz_questions. intros Hnil%order_by_nil_inv.
    assert (q ∈ @nil QuizQuestion) as Hin; [|by apply elem_of_nil in Hin].
    rewrite <- Hnil. apply list_elem_of_filter. split; [|done]. split; [congruence|done]. }
  edestruct (UserQuizAttempt_create_run now (user_id user) (module_id module))
    as (a & Hcreate & Haid & Hau & Ham & Han); [apply attempt_number_fresh|].
  erewrite bind_run by apply Hcreate.
  rewrite next_attempt_number in Han.
  destruct (process_answers_run a (answers data)
              (with_quiz_attempts (λ rows, rows ++ [a]) db)
              {| tally_correct_answers := 0; total_points_possible := 0;
                 total_points_earned := 0; user_answers_data := ∅ |} Hnd)
    as (rows & t & Hrun & Hall & Hp & He & Hc).
  { simpl. intros r Hr Hatt. apply (answers_fk db Hdb) in Hr.
    apply list_elem_of_fmap in Hr as (a0 & Ha0 & Hin).
    pose proof (next_pk_fresh attempt_id _ _ Hin). lia. }
  erewrite bind_run by apply Hrun.
  unfold UserQuizAttempt_save.
  erewrite bind_run by (erewrite bind_run by reflexivity; reflexivity).
  erewrite bind_run by reflexivity.
  eexists _, rows, t. simpl. split.
  { unfold mret, DbM_ret. f_equal.
    unfold with_quiz_attempts, with_quiz_answers. simpl. f_equal.
    apply (update_row_new attempt_id); [done|]. done. }
  split; [done|]. split; [simpl; congruence|].
  split; [simpl; rewrite Han; unfold attempt_numbers; by rewrite Hmodid|].
  split; [done|]. split; [done|]. split; [done|].
  split; [exact Hp|]. split; [exact He|exact Hall].
Qed.

Lemma earned_points_le db l : earned_points db l ≤ possible_points l.
Proof.
  unfold earned_points, possible_points.
  induction l as [|a l IH]; csimpl; [done|].
  unfold answer_points at 1. destruct (answered_correctly db a); lia.
Qed.

(** C3 (amended).  A valid submission is scored answer by answer: an answer
    is correct exactly when the set of selected choice ids equals the set
    of correct choice ids of its question, and earns the question's points
    or nothing.  The attempt that is stored carries the score
    [(earned / possible) * 100] as floating-point arithmetic yields it, the
    quotient and the product each rounded to the nearest binary64 number
    (0 when no point is possible): it lies between 0 and 100 and within
    2e-14 of the exact 100 * earned / possible, equals it when all or none
    of the points are earned, but need not equal it otherwise.  The pass
    flag is [score >= 80]. *)
Theorem submit_quiz_scores db now user request_data data :
  consistent db → valid_submission db user request_data data →
  ∃ result rows,
    let attempt := result_attempt result in
    let earned := earned_points db (answers data) in
    let possible := possible_points (answers data) in
    submit_quiz now user request_data db
      = (with_quiz_attempts (λ old, old ++ [attempt])
           (with_quiz_answers (λ old, old ++ rows) db),
         inr {| status_code := HTTP_201_CREATED; data := SubmitResult result |})
    ∧ Forall2 (λ a r,
         answer_attempt r = attempt_id attempt
         ∧ answer_question r = question_id (question a)
         ∧ is_correct r
           = bool_decide (selected_choice_ids a = correct_choice_ids db (question a))
         ∧ points_earned r = (if is_correct r then points (question a) else 0))
        (answers data) rows
    ∧ (0 < possible →
       score attempt = binary64 (binary64 (of_nat earned / of_nat possible) * 100)
       ∧ (0 <= score attempt)%Q ∧ (score attempt <= 100)%Q
       ∧ (Qabs (score attempt - 100 * of_nat earned / of_nat possible)
          <= 2 # 100000000000000)%Q
       ∧ (earned = possible → (score attempt == 100)%Q)
       ∧ (earned = 0 → (score attempt == 0)%Q))
    ∧ (possible = 0 → score attempt = 0%Q)
    ∧ is_passed attempt = Qle_bool 80 (score attempt)
    ∧ passed result = is_passed attempt.
Proof.
  intros Hdb Hvalid.
  destruct (submit_quiz_run db now user request_data data Hdb Hvalid)
    as (result & rows & t & Hrun & _ & _ & _ & Hscore & Hpassed & Hshown & Hp & He & Hall).
  exists result, rows. cbv zeta. cbv zeta in Hscore.
  split; [exact Hrun|]. split; [|split; [|split; [|by split]]].
  - eapply Forall2_impl; [exact Hall|]. simpl.
    intros x r (-> & -> & _ & -> & ->). done.
  - intros Hpos. rewrite Hscore. unfold score_percentage. rewrite Hp, He.
    rewrite decide_True by done.
    pose proof (earned_points_le db (answers data)) as Hle.
    destruct (ratio_unit _ _ Hle Hpos) as [H0 H1].
    split; [done|].
    destruct (binary64_percentage_range _ H0 H1) as [Hs0 Hs100].
    split; [done|]. split; [done|]. split; [|split].
    + assert (100 * of_nat (earned_points db (answers data))
              / of_nat (possible_points (answers data))
              == 100 * (of_nat (earned_points db (answers data))
                        / of_nat (possible_points (answers data))))%Q as ->
        by (unfold Qdiv; ring).
      by apply binary64_percentage_near.
    + intros ->.
      assert (of_nat (possible_points (answers data))
              / of_nat (possible_points (answers data)) == 1)%Q as E.
      { apply Qmult_inv_r. unfold of_nat. intros E0.
        unfold Qeq in E0. simpl in E0. lia. }
      rewrite (binary64_proper _ _
                 (Qmult_comp _ _ (binary64_proper _ _ E) _ _ (Qeq_refl 100))).
      reflexivity.
    + intros ->.
      assert (of_nat 0 / of_nat (possible_points (answers data)) == 0)%Q as E
        by (unfold Qdiv; apply Qmult_0_l).
      rewrite (binary64_proper _ _
                 (Qmult_comp _ _ (binary64_proper _ _ E) _ _ (Qeq_refl 100))).
      reflexivity.
  - intros H0. rewrite Hscore. unfold score_percentage.
    rewrite decide_False; [done|]. rewrite Hp. lia.
Qed.

Lemma sample_db_consistent : consistent sample_db.
Proof.
  split; simpl.
  - compute_done.
  - intros r Hr. by apply elem_of_nil in Hr.
  - constructor.
  - constructor.
  - constructor.
Qed.

Lemma sample_submission_valid :
  valid_submission sample_db awa sample_submission sample_validated.
Proof.
  unfold valid_submission. split; [|split; [|split]].
  - vm_compute. reflexivity.
  - reflexivity.
  - exists question_1. split; [left|done].
  - compute_done.
Qed.

Lemma submit_quiz_scores_witness :
  ∃ result rows,
    submit_quiz 9 awa sample_submission sample_db
    = (with_quiz_attempts (λ old, old ++ [result_attempt result])
         (with_quiz_answers (λ old, old ++ rows) sample_db),
       inr {| status_code := HTTP_201_CREATED; data := SubmitResult result |})
    ∧ score (result_attempt result) = binary64 (binary64 (of_nat 3 / of_nat 4) * 100)
    ∧ (Qabs (score (result_attempt result) - 100 * of_nat 3 / of_nat 4)
       <= 2 # 100000000000000)%Q
    ∧ is_passed (result_attempt result) = Qle_bool 80 (score (result_attempt result)).
Proof.
  destruct (submit_quiz_scores sample_db 9 awa sample_submission sample_validated
              sample_db_consistent sample_submission_valid)
    as (result & rows & Hrun & _ & Hscore & _ & Hpassed & _).
  destruct (Hscore ltac:(vm_compute; lia)) as (Hs & _ & _ & Hnear & _).
  exists result, rows. split; [exact Hrun|]. split; [exact Hs|].
  split; [exact Hnear|exact Hpassed].
Defined.

Lemma weighted_db_consistent : consistent weighted_db.
Proof.
  split; simpl.
  - compute_done.
  - intros r Hr. by apply elem_of_nil in Hr.
  - constructor.
  - constructor.
  - constructor.
Qed.

Lemma weighted_submission_valid :
  valid_submission weighted_db awa sample_submission weighted_validated.
Proof.
  unfold valid_submission. split; [|split; [|split]].
  - vm_compute. reflexivity.
  - reflexivity.
  - eexists. split; [left|done].
  - compute_done.
Qed.

(** C3 as stated fails: a valid submission that earns 7 points out of 25
    is stored with the score 28.000000000000004, the binary64 number next
    above 28, and not with 100 * 7 / 25 = 28. *)
Lemma score_is_rounded :
  consistent weighted_db
  ∧ valid_submission weighted_db awa sample_submission weighted_validated
  ∧ earned_points weighted_db (answers weighted_validated) = 7
  ∧ possible_points (answers weighted_validated) = 25
  ∧ ∃ db' result,
      submit_quiz 9 awa sample_submission weighted_db
      = (db', inr {| status_code := HTTP_201_CREATED; data := SubmitResult result |})
      ∧ (score (result_attempt result) == 28 + (1 # 281474976710656))%Q
      ∧ ¬ (score (result_attempt result) == 100 * of_nat 7 / of_nat 25)%Q.
Proof.
  split; [apply weighted_db_consistent|]. split; [apply weighted_submission_valid|].
  split; [reflexivity|]. split; [reflexivity|].
  eexists _, _. split; [vm_compute; reflexivity|]. split; [reflexivity|]. by vm_compute.
Qed.

(** On every tally out of 1 to 30 points, [score_percentage] is the score
    that the IEEE 754 operations of the standard library give. *)
Example score_percentage_reference :
  Forall (λ possible,
    Forall (λ earned,
      (score_percentage {| tally_correct_answers := 0; total_points_possible := possible;
                           total_points_earned := earned; user_answers_data := ∅ |}
       == reference_score earned possible)%Q)
      (seq 0 (S possible)))
    (seq 1 30).
Proof.
  assert (forallb (λ possible,
            forallb (λ earned,
              Qeq_bool
                (score_percentage
                   {| tally_correct_answers := 0; total_points_possible := possible;
                      total_points_earned := earned; user_answers_data := ∅ |})
                (reference_score earned possible))
              (seq 0 (S possible)))
            (seq 1 30) = true) as H by (by vm_compute).
  apply Forall_forall. intros possible Hp%list_elem_of_In.
  apply Forall_forall. intros earned He%list_elem_of_In.
  pose proof (proj1 (forallb_forall _ _) H possible Hp) as H1. cbv beta in H1.
  pose proof (proj1 (forallb_forall _ _) H1 earned He) as H2. cbv beta in H2.
  by apply Qeq_bool_iff.
Qed.

(** Three points out of four: 75 %, not passed. *)
Example submit_quiz_sample :
  ∃ db' result,
    submit_quiz 9 awa sample_submission sample_db
      = (db', inr {| status_code := 201; data := SubmitResult result |})
    ∧ (score (result_attempt result) == 75)%Q
    ∧ passed result = false
    ∧ attempt_number (result_attempt result) = 1
    ∧ (is_correct <$> quiz_answers db') = [false; true]
    ∧ (points_earned <$> quiz_answers db') = [0; 3].
Proof. eexists _, _. split; [vm_compute; reflexivity|]. by vm_compute. Qed.

(** A submission that answers a question twice passes the serializer; the
    second answer violates [unique_together = ['attempt', 'question']] and
    the view raises, leaving the attempt with the score 0 it was created
    with. *)
Example submit_quiz_doubled :
  ∃ db', submit_quiz 9 awa doubled_submission sample_db = (db', inl IntegrityError)
       ∧ (score <$> quiz_attempts db') = [0%Q]
       ∧ (is_passed <$> quiz_attempts db') = [false].
Proof. eexists. split; [vm_compute; reflexivity|]. done. Qed.

(** ** Attempt numbers *)

Lemma process_answer_attempts quiz_attempt t a db :
  quiz_attempts (process_answer quiz_attempt t a db).1 = quiz_attempts db.
Proof.
  unfold process_answer, UserQuizAnswer_create, UserQuizAnswer_save.
  unfold mbind, DbM_bind, query, execute, mret, DbM_ret, raise. simpl.
  by case_decide.
Qed.

Lemma process_answers_attempts quiz_attempt l : ∀ t db,
  quiz_attempts (process_answers quiz_attempt t l db).1 = quiz_attempts db.
Proof.
  induction l as [|a l IH]; intros t db; [done|]. simpl.
  pose proof (process_answer_attempts quiz_attempt t a db) as Ha.
  unfold mbind, DbM_bind.
  destruct (process_answer quiz_attempt t a db) as [db1 [e|t1]]; simpl in *; [done|].
  by rewrite IH.
Qed.

Lemma submit_quiz_attempts db now user d db' r :
  submit_quiz now user d db = (db', r) →
  (quiz_attempts db' = quiz_attempts db
     ∧ ∀ result, r ≠ inr {| status_code := HTTP_201_CREATED; data := result |})
  ∨ ∃ a, quiz_attempts db' = quiz_attempts db ++ [a]
         ∧ attempt_user a = user_id user
         ∧ attempt_module a = data_module_id d
         ∧ attempt_number a
           = S (max_list (attempt_numbers db (user_id user) (data_module_id d))).
Proof.
  unfold submit_quiz. intros H.
  unfold mbind at 1 in H. unfold DbM_bind at 1 in H.
  pose proof (read_only_QuizSubmissionSerializer d db) as Hro.
  pose proof (QuizSubmissionSerializer_ok d db) as Hok.
  destruct (QuizSubmissionSerializer d db) as [db0 [e|[errors|data]]];
    simpl in Hro; subst db0;
    [injection H as <- <-; left; by split
    |injection H as <- <-; left; by split|].
  destruct (Hok data eq_refl) as (Hmid & _). clear Hok.
  erewrite bind_run in H by reflexivity.
  unfold mbind at 1 in H. unfold DbM_bind at 1 in H. unfold lift at 1 in H.
  destruct (get _ (modules db)) as [e|module] eqn:Hget;
    [injection H as <- <-; left; by split|].
  apply get_inr in Hget as (_ & Hmodid & _).
  case_decide; [injection H as <- <-; left; by split|].
  erewrite bind_run in H by reflexivity. cbv beta zeta in H.
  erewrite bind_run in H by reflexivity. cbv beta zeta in H.
  case_decide; [injection H as <- <-; left; by split|].
  edestruct (UserQuizAttempt_create_run now (user_id user) (module_id module))
    as (a & Hcreate & Haid & Hau & Ham & Han); [apply attempt_number_fresh|].
  erewrite bind_run in H by apply Hcreate.
  rewrite next_attempt_number in Han.
  right.
  unfold mbind at 1 in H. unfold DbM_bind at 1 in H.
  match type of H with
  | context [process_answers ?att ?t ?l ?d] =>
      pose proof (process_answers_attempts att l t d) as Hatt;
      destruct (process_answers att t l d) as [db1 [e|t1]]
  end; simpl in Hatt.
  - injection H as <- <-. exists a. rewrite Hatt. repeat split; try done.
    + congruence.
    + rewrite Han. unfold attempt_numbers. by rewrite Hmodid, Hmid.
  - unfold UserQuizAttempt_save in H.
    erewrite bind_run in H by (erewrite bind_run by reflexivity; reflexivity).
    erewrite bind_run in H by reflexivity.
    injection H as <- <-. simpl. rewrite Hatt.
    eexists. split; [apply (update_row_new attempt_id); [done|]; reflexivity|].
    simpl. repeat split; try done.
    + congruence.
    + rewrite Han. unfold attempt_numbers. by rewrite Hmodid, Hmid.
Qed.

Lemma contiguous_step db db' u m a :
  (∀ u m, attempt_numbers db u m = seq 1 (length (attempt_numbers db u m))) →
  quiz_attempts db' = quiz_attempts db ++ [a] →
  attempt_number a = S (max_list (attempt_numbers db (attempt_user a) (attempt_module a))) →
  attempt_numbers db' u m = seq 1 (length (attempt_numbers db' u m)).
Proof.
  intros Hc Hdb' Hn. unfold attempt_numbers at 1 2. rewrite Hdb'.
  rewrite filter_app, fmap_app.
  fold (attempt_numbers db u m).
  destruct (decide (attempt_user a = u ∧ attempt_module a = m)) as [[<- <-]|Hne].
  - rewrite filter_cons_True by done. simpl. rewrite Hn.
    rewrite length_app. simpl. rewrite Nat.add_1_r, seq_S.
    pose proof (Hc (attempt_user a) (attempt_module a)) as E.
    set (ns := attempt_numbers db (attempt_user a) (attempt_module a)) in *.
    assert (max_list ns = length ns) as ->
      by (rewrite E, max_list_seq; by rewrite length_seq).
    by rewrite <- E.
  - rewrite filter_cons_False by done. simpl. rewrite app_nil_r. apply Hc.
Qed.

(** C8.  A valid submission is answered 201 and stores exactly one attempt,
    the one shown in the answer, numbered one more than the largest attempt
    number the learner already has on that module (1 when there is none).
    Any other call either stores no attempt (and is not answered 201) or
    stores one numbered in the same way.  Hence, along any sequence of
    submissions, the attempt numbers of every learner and module read
    1, 2, 3, ... in submission order. *)
Theorem attempt_numbers_contiguous :
  (∀ db now user d data,
     consistent db → valid_submission db user d data →
     let db' := (submit_quiz now user d db).1 in
     let earlier := attempt_numbers db (user_id user) (data_module_id d) in
     ∃ result,
       (submit_quiz now user d db).2
       = inr {| status_code := HTTP_201_CREATED; data := SubmitResult result |}
       ∧ quiz_attempts db' = quiz_attempts db ++ [result_attempt result]
       ∧ attempt_user (result_attempt result) = user_id user
       ∧ attempt_module (result_attempt result) = data_module_id d
       ∧ attempt_number (result_attempt result) = S (max_list earlier)
       ∧ (earlier = [] → attempt_number (result_attempt result) = 1)
       ∧ attempt_numbers db' (user_id user) (data_module_id d)
         = earlier ++ [S (max_list earlier)])
  ∧ (∀ db now user d,
       let db' := (submit_quiz now user d db).1 in
       (quiz_attempts db' = quiz_attempts db
          ∧ ∀ result, (submit_quiz now user d db).2
                      ≠ inr {| status_code := HTTP_201_CREATED; data := result |})
       ∨ ∃ a, quiz_attempts db' = quiz_attempts db ++ [a]
              ∧ attempt_user a = user_id user
              ∧ attempt_module a = data_module_id d
              ∧ attempt_number a
                = S (max_list (attempt_numbers db (user_id user) (data_module_id d))))
  ∧ (∀ requests db,
       (∀ u m, attempt_numbers db u m = seq 1 (length (attempt_numbers db u m))) →
       ∀ u m, attempt_numbers (submit_all requests db) u m
              = seq 1 (length (attempt_numbers (submit_all requests db) u m))).
Proof.
  split; [|split].
  - intros db now user d data Hdb Hvalid db' earlier. subst db' earlier.
    destruct (submit_quiz_run db now user d data Hdb Hvalid)
      as (result & rows & t & Hrun & Hu & Hm & Hn & _).
    cbv zeta in Hrun, Hu, Hm, Hn. rewrite Hrun. simpl.
    exists result. split; [done|]. split; [done|]. split; [done|]. split; [done|].
    split; [done|]. split; [by intros E; rewrite Hn, E|].
    unfold attempt_numbers at 1. simpl.
    rewrite filter_app, fmap_app, filter_cons_True by done. simpl.
    by rewrite Hn.
  - intros db now user d db'. subst db'.
    destruct (submit_quiz now user d db) as [db' r] eqn:H.
    by apply submit_quiz_attempts in H.
  - induction requests as [|[[now user] d] requests IH]; intros db Hc; [done|].
    simpl. apply IH. intros u m.
    destruct (submit_quiz now user d db) as [db' r] eqn:H.
    apply submit_quiz_attempts in H as [[H _]|(a & H & Hu & Hm & Hn)]; simpl.
    + unfold attempt_numbers. rewrite H. apply Hc.
    + apply (contiguous_step db db' u m a Hc H). by rewrite Hu, Hm.
Qed.

Lemma attempt_numbers_contiguous_witness :
  (∃ result,
     (submit_quiz 9 awa sample_submission sample_db).2
     = inr {| status_code := HTTP_201_CREATED; data := SubmitResult result |}
     ∧ attempt_number (result_attempt result) = 1
     ∧ attempt_numbers (submit_quiz 9 awa sample_submission sample_db).1 1 1 = [1])
  ∧ let requests := [(9, awa, sample_submission); (12, codjo, sample_submission);
                     (15, awa, sample_submission); (21, awa, sample_submission)] in
    attempt_numbers (submit_all requests sample_db) 1 1
    = seq 1 (length (attempt_numbers (submit_all requests sample_db) 1 1)).
Proof.
  split.
  - destruct (proj1 attempt_numbers_contiguous sample_db 9 awa sample_submission
                sample_validated sample_db_consistent sample_submission_valid)
      as (result & Hrun & _ & _ & _ & Hn & _ & Hns).
    exists result. split; [exact Hrun|]. split; [exact Hn|exact Hns].
  - apply (proj2 (proj2 attempt_numbers_contiguous)). intros u m. reflexivity.
Defined.

Example attempt_numbers_sample :
  attempt_numbers
    (submit_all [(9, awa, sample_submission); (12, codjo, sample_submission);
                 (15, awa, sample_submission); (21, awa, sample_submission)] sample_db)
    1 1 = [1; 2; 3].
Proof. vm_compute. reflexivity. Qed.

(** ** Audio progress *)

Section more_queryset_facts.
Context {A B : Type}.
Implicit Types (l : list A) (f : A → B) (P : A → Prop).

Lemma NoDup_fmap_eq f l x y :
  NoDup (f <$> l) → x ∈ l → y ∈ l → f x = f y → x = y.
Proof.
  induction l as [|z l IH]; [by intros _ ?%elem_of_nil|].
  rewrite fmap_cons. intros [Hz Hnd]%NoDup_cons Hx Hy Hf.
  apply elem_of_cons in Hx as [->|Hx]; apply elem_of_cons in Hy as [->|Hy].
  - done.
  - destruct Hz. apply list_elem_of_fmap. eauto.
  - destruct Hz. apply list_elem_of_fmap. eauto.
  - by apply IH.
Qed.

Lemma get_unique f P `{!∀ x, Decision (P x)} l x :
  NoDup (f <$> l) → x ∈ l → P x → (∀ y, y ∈ l → P y → f y = f x) →
  get P l = inr x.
Proof.
  intros Hnd Hx HP Huniq. unfold get.
  replace (filter P l) with [x]; [done|].
  assert (∀ y, y ∈ l → P y → y = x) as Heq
    by (intros y Hy HPy; eapply NoDup_fmap_eq; eauto).
  clear Huniq. pose proof (NoDup_fmap_1 _ _ Hnd) as Hl. clear Hnd.
  induction l as [|z l IH]; [by apply elem_of_nil in Hx|].
  apply NoDup_cons in Hl as [Hz Hl].
  apply elem_of_cons in Hx as [->|Hx].
  - rewrite filter_cons_True by done. f_equal. symmetry. apply filter_none.
    intros y Hy HPy. apply Hz. rewrite <- (Heq y); [done|by right|done].
  - rewrite filter_cons_False.
    + apply IH; [done| |done]. intros y Hy. apply Heq. by right.
    + intros HPz. apply Hz. rewrite (Heq z); [done|left|done].
Qed.

Lemma get_not_multiple f P `{!∀ x, Decision (P x)} l :
  NoDup (f <$> l) → (∀ y y', P y → P y' → f y = f y') →
  get P l ≠ inl MultipleObjectsReturned.
Proof.
  intros Hnd Hsame. unfold get.
  destruct (filter P l) as [|a [|b l']] eqn:Hf; try done. intros _.
  assert (a ∈ filter P l ∧ b ∈ filter P l) as [[Pa Ha]%list_elem_of_filter
                                               [Pb Hb]%list_elem_of_filter].
  { rewrite Hf. split; [left|right; left]. }
  assert (a = b) as -> by (eapply NoDup_fmap_eq; eauto).
  assert (NoDup (filter P l)) as Hnd'
    by (apply NoDup_filter; by eapply NoDup_fmap_1).
  rewrite Hf in Hnd'. apply NoDup_cons in Hnd' as [Hb' _]. apply Hb'. left.
Qed.

Lemma fmap_update_row f (pk : A → nat) r l :
  (∀ x, x ∈ l → pk x = pk r → f x = f r) →
  f <$> update_row pk r l = f <$> l.
Proof.
  intros H. unfold update_row. induction l as [|z l IH]; [done|].
  rewrite !fmap_cons. rewrite IH by (intros x Hx; apply H; by right). f_equal.
  case_decide; [|done]. symmetry. apply H; [left|done].
Qed.

Lemma elem_of_update_row (pk : A → nat) r l x :
  x ∈ l → pk x = pk r → r ∈ update_row pk r l.
Proof.
  intros Hx Hpk. unfold update_row. apply list_elem_of_fmap.
  exists x. by rewrite decide_True.
Qed.
End more_queryset_facts.

Lemma progress_saved l old r u m :
  NoDup (progress_id <$> l) → NoDup (progress_key <$> l) →
  old ∈ l → progress_id r = progress_id old →
  progress_user old = u → progress_module old = m →
  progress_user r = u → progress_module r = m →
  NoDup (progress_id <$> update_row progress_id r l)
  ∧ NoDup (progress_key <$> update_row progress_id r l)
  ∧ get (λ p, progress_user p = u ∧ progress_module p = m)
        (update_row progress_id r l) = inr r.
Proof.
  intros Hpk Hkey Hold Hid Hu Hm Hu' Hm'.
  assert (progress_id <$> update_row progress_id r l = progress_id <$> l) as Epk
    by (by apply fmap_update_row).
  assert (progress_key <$> update_row progress_id r l = progress_key <$> l) as Ekey.
  { apply fmap_update_row. intros x Hx Hxid.
    assert (x = old) as -> by (eapply (NoDup_fmap_eq progress_id); eauto; congruence).
    unfold progress_key. congruence. }
  rewrite Epk, Ekey. split; [done|]. split; [done|].
  apply (get_unique progress_key); [by rewrite Ekey| |done|].
  - by eapply elem_of_update_row.
  - intros y _ [??]. unfold progress_key. congruence.
Qed.

Lemma get_not_IntegrityError {A} (P : A → Prop) `{!∀ x, Decision (P x)} (l : list A) :
  get P l ≠ inl IntegrityError.
Proof. unfold get. by destruct (filter P l) as [|? [|??]]. Qed.

Lemma progress_created l r u m :
  NoDup (progress_id <$> l) → NoDup (progress_key <$> l) →
  (∀ x, x ∈ l → ¬ (progress_user x = u ∧ progress_module x = m)) →
  progress_id r = next_pk (progress_id <$> l) →
  progress_user r = u → progress_module r = m →
  NoDup (progress_id <$> l ++ [r])
  ∧ NoDup (progress_key <$> l ++ [r])
  ∧ get (λ p, progress_user p = u ∧ progress_module p = m) (l ++ [r]) = inr r.
Proof.
  intros Hpk Hkey Hnone Hid Hu Hm.
  assert (NoDup (progress_key <$> l ++ [r])) as Hkey'.
  { rewrite fmap_app. apply NoDup_app. split; [done|]. split; [|apply NoDup_singleton].
    intros k (x & -> & Hx)%list_elem_of_fmap Hin. simpl in Hin.
    apply list_elem_of_singleton in Hin. apply (Hnone x Hx).
    unfold progress_key in Hin. split; congruence. }
  split; [|split; [done|]].
  - rewrite fmap_app. apply NoDup_app. split; [done|]. split; [|apply NoDup_singleton].
    intros k (x & -> & Hx)%list_elem_of_fmap Hin. simpl in Hin.
    apply list_elem_of_singleton in Hin.
    pose proof (next_pk_fresh progress_id l x Hx). lia.
  - apply (get_unique progress_key); [done|apply elem_of_app; right; left|done|].
    intros y _ [??]. unfold progress_key. congruence.
Qed.

Lemma AudioProgressSerializer_run db m d :
  NoDup (module_id <$> modules db) → valid_audio_call db m d →
  AudioProgressSerializer d db
  = (db, inr (inr {| validated_audio_module_id := module_id m;
                     validated_progress_percentage := audio_progress_percentage d;
                     validated_current_time := Z.to_nat (current_time d) |})).
Proof.
  intros Hpk (Hm & Hact & Hfile & Hid & H0 & H100 & Ht).
  unfold AudioProgressSerializer, validate_audio_module_id.
  unfold mbind, DbM_bind, query, mret, DbM_ret. simpl.
  rewrite (get_unique module_id _ (modules db) m Hpk Hm) by (try done; by intros y _ [-> _]).
  rewrite Hfile. simpl.
  unfold validate_progress_percentage, validate_current_time.
  apply Qle_bool_iff in H0, H100. rewrite H0, H100. simpl.
  rewrite decide_False by lia. by rewrite Hid.
Qed.

Lemma ModuleProgress_get_or_create_run now u m p t db :
  ModuleProgress_get_or_create now u m p t db
  = match get (λ x, progress_user x = u ∧ progress_module x = m) (module_progress db) with
    | inr r => (db, inr (r, false))
    | inl DoesNotExist =>
        let r0 := ModuleProgress_pre_save now
          {| progress_id := next_pk (progress_id <$> module_progress db);
             progress_user := u; progress_module := m; progress_percentage := p;
             is_completed := false; last_audio_position := t;
             total_listening_time := 0; listening_sessions := 0;
             progress_started_at := now; progress_updated_at := now;
             progress_completed_at := None |} in
        (with_module_progress (λ rows, rows ++ [r0]) db, inr (r0, true))
    | inl e => (db, inl e)
    end.
Proof.
  unfold ModuleProgress_get_or_create, mbind, DbM_bind, query, execute, mret, DbM_ret,
    raise. simpl.
  by destruct (get _ (module_progress db)) as [[]|r].
Qed.

Lemma ModuleProgress_pre_save_fields now r :
  progress_id (ModuleProgress_pre_save now r) = progress_id r
  ∧ progress_user (ModuleProgress_pre_save now r) = progress_user r
  ∧ progress_module (ModuleProgress_pre_save now r) = progress_module r
  ∧ progress_percentage (ModuleProgress_pre_save now r) = progress_percentage r
  ∧ is_completed (ModuleProgress_pre_save now r) = is_completed r.
Proof.
  unfold ModuleProgress_pre_save.
  by destruct (is_completed r) eqn:E, (progress_completed_at r).
Qed.

Lemma track_audio_progress_step db now user m d :
  consistent db → preferred_language user = "FON" → valid_audio_call db m d →
  ∃ l' r',
    track_audio_progress now user d db
      = (with_module_progress (λ _, l') db,
         inr {| status_code := HTTP_200_OK;
                data := AudioTracked
                  {| audio_message := "Progression mise à jour";
                     result_progress_percentage := progress_percentage r';
                     result_is_completed := is_completed r' |} |})
    ∧ NoDup (progress_id <$> l') ∧ NoDup (progress_key <$> l')
    ∧ get (λ p, progress_user p = user_id user ∧ progress_module p = module_id m) l'
      = inr r'
    ∧ progress_percentage r'
      = match stored_progress db (user_id user) (module_id m) with
        | inr r => if Qlt_le_dec (progress_percentage r) (audio_progress_percentage d)
                   then audio_progress_percentage d else progress_percentage r
        | inl _ => audio_progress_percentage d
        end
    ∧ ((100 <= audio_progress_percentage d)%Q → is_completed r' = true).
Proof.
  intros Hdb Hfon Hvalid.
  pose proof (modules_pk db Hdb) as Hmpk.
  pose proof (progress_pk db Hdb) as Hpk.
  pose proof (progress_unique db Hdb) as Hkey. fold progress_key in Hkey.
  unfold track_audio_progress.
  erewrite bind_run by (by apply AudioProgressSerializer_run). cbv beta iota.
  erewrite bind_run by reflexivity.
  destruct Hvalid as (Hm & _).
  erewrite bind_run; cycle 1.
  { unfold lift. simpl. by rewrite (get_by_pk module_id (modules db) _ m). }
  rewrite decide_False by (intros ?; congruence).
  simpl validated_progress_percentage. simpl validated_current_time.
  set (p := audio_progress_percentage d). set (t := Z.to_nat (current_time d)).
  unfold stored_progress.
  destruct (get _ (module_progress db)) as [[]|r] eqn:Hget.
  - (* created *)
    erewrite bind_run by (rewrite ModuleProgress_get_or_create_run, Hget; reflexivity).
    pose proof (proj1 (get_DoesNotExist _ _) Hget) as Hnone.
    cbv beta zeta. simpl fst. simpl snd. cbv iota.
    erewrite bind_run by reflexivity.
    set (r0 := ModuleProgress_pre_save now _).
    destruct (progress_created (module_progress db) r0 (user_id user) (module_id m))
      as (Hpk0 & Hkey0 & Hget0); try done.
    destruct (Qle_bool 100 p) eqn:H100.
    + set (r1 := ModuleProgress_pre_save now (set_completed true (Some now) now r0)).
      erewrite bind_run by reflexivity.
      exists (module_progress db ++ [r1]), r1. split.
      { unfold mret, DbM_ret. f_equal. unfold with_module_progress. simpl. f_equal.
        by apply (update_row_new progress_id). }
      destruct (progress_created (module_progress db) r1 (user_id user) (module_id m))
        as (Hpk1 & Hkey1 & Hget1); try done.
    + erewrite bind_run by reflexivity.
      exists (module_progress db ++ [r0]), r0. split; [done|].
      repeat split; try done. intros Hle%Qle_bool_iff. congruence.
  - (* more than one row: excluded by unique_together *)
    exfalso. revert Hget. apply (get_not_multiple progress_key); [done|].
    intros y y' [??] [??]. unfold progress_key. congruence.
  - exfalso. revert Hget. apply get_not_IntegrityError.
  - (* the record exists *)
    erewrite bind_run by (rewrite ModuleProgress_get_or_create_run, Hget; reflexivity).
    cbv beta zeta. simpl fst. simpl snd. cbv iota.
    pose proof Hget as (Hr & [Hu Hmo] & _)%get_inr.
    assert (∃ l1 r1,
      (if Qlt_le_dec (progress_percentage r) p
       then ModuleProgress_save now (set_progress p t now r)
       else mret r : DbM ModuleProgress) db
      = (with_module_progress (λ _, l1) db, inr r1)
      ∧ NoDup (progress_id <$> l1) ∧ NoDup (progress_key <$> l1)
      ∧ get (λ p, progress_user p = user_id user ∧ progress_module p = module_id m) l1
        = inr r1
      ∧ progress_percentage r1
        = (if Qlt_le_dec (progress_percentage r) p then p else progress_percentage r))
      as (l1 & r1 & Hrun1 & Hpk1 & Hkey1 & Hget1 & Hpct1).
    { destruct (Qlt_le_dec (progress_percentage r) p).
      - eexists _, _. split; [reflexivity|].
        destruct (ModuleProgress_pre_save_fields now (set_progress p t now r))
          as (Hid1 & Hu1 & Hm1 & Hp1 & Hc1). simpl in Hid1, Hu1, Hm1, Hp1, Hc1.
        destruct (progress_saved (module_progress db) r
                    (ModuleProgress_pre_save now (set_progress p t now r))
                    (user_id user) (module_id m)) as (? & ? & ?);
          try done; try congruence.
      - exists (module_progress db), r. split; [by destruct db|]. done. }
    erewrite bind_run by apply Hrun1.
    destruct (Qle_bool 100 p) eqn:H100.
    + pose proof Hget1 as (Hr1 & [Hu1 Hmo1] & _)%get_inr.
      set (r2 := ModuleProgress_pre_save now (set_completed true (Some now) now r1)).
      destruct (ModuleProgress_pre_save_fields now (set_completed true (Some now) now r1))
        as (Hid2 & Hu2 & Hm2 & Hp2 & Hc2).
      fold r2 in Hid2, Hu2, Hm2, Hp2, Hc2. simpl in Hid2, Hu2, Hm2, Hp2, Hc2.
      erewrite bind_run by reflexivity.
      destruct (progress_saved l1 r1 r2 (user_id user) (module_id m))
        as (? & ? & ?); try done; try congruence.
      eexists _, r2. split; [reflexivity|]. repeat split; try done; congruence.
    + erewrite bind_run by reflexivity.
      exists l1, r1. repeat split; try done. intros Hle%Qle_bool_iff. congruence.
Qed.

Lemma consistent_with_module_progress db l :
  consistent db → NoDup (progress_id <$> l) → NoDup (progress_key <$> l) →
  consistent (with_module_progress (λ _, l) db).
Proof. intros [] ??. by split. Qed.

Lemma valid_audio_call_modules db db' m d :
  modules db' = modules db → valid_audio_call db m d → valid_audio_call db' m d.
Proof. unfold valid_audio_call. by intros ->. Qed.

Lemma max_percentage_proper a b ps :
  (a == b)%Q → (max_percentage a ps == max_percentage b ps)%Q.
Proof.
  unfold max_percentage. revert a b. induction ps as [|p ps IH]; intros a b E; [done|].
  simpl. apply IH. by rewrite E.
Qed.

Lemma track_all_max user m calls : ∀ db r,
  consistent db → preferred_language user = "FON" →
  Forall (λ c, valid_audio_call db m c.2) calls →
  stored_progress db (user_id user) (module_id m) = inr r →
  ∃ r', stored_progress (track_all user calls db) (user_id user) (module_id m) = inr r'
        ∧ (progress_percentage r'
           == max_percentage (progress_percentage r)
                ((λ c, audio_progress_percentage c.2) <$> calls))%Q.
Proof.
  induction calls as [|[now d] calls IH]; intros db r Hdb Hfon Hvalid Hr.
  - exists r. split; [done|]. reflexivity.
  - apply Forall_cons in Hvalid as [Hd Hvalid]. simpl in Hd.
    destruct (track_audio_progress_step db now user m d Hdb Hfon Hd)
      as (l1 & r1 & Hrun & Hpk & Hkey & Hget & Hpct & _).
    rewrite Hr in Hpct. simpl track_all. rewrite Hrun. simpl fst.
    destruct (IH (with_module_progress (λ _, l1) db) r1) as (r' & Hr' & Hmax);
      [by apply consistent_with_module_progress|done| |done|].
    { eapply Forall_impl; [exact Hvalid|]. intros c. by apply valid_audio_call_modules. }
    exists r'. split; [done|]. rewrite Hmax. rewrite fmap_cons.
    unfold max_percentage at 2. simpl foldl. apply max_percentage_proper.
    rewrite Hpct. destruct (Qlt_le_dec _ _) as [Hlt|Hle].
    + symmetry. apply Q.max_r. by apply Qlt_le_weak.
    + symmetry. by apply Q.max_l.
Qed.


Lemma sample_calls_valid :
  Forall (λ c, valid_audio_call sample_db module_1 c.2) sample_calls.
Proof.
  unfold sample_calls.
  repeat (apply Forall_cons; split); try (by apply Forall_nil_2);
    (split; [by left|]); repeat (split; [reflexivity|]);
    unfold Qle, PositiveIntegerField_max; simpl; lia.
Qed.


(** A module whose audio column holds the empty name has no file: the call
    is refused and nothing is stored. *)
Example track_audio_progress_without_file :
  let module := {| module_id := 1; number := 1; title := "Droits fondamentaux";
                   audio_fon := Some ""; module_is_active := true |} in
  let db := {| modules := [module]; quiz_questions := []; answer_choices := [];
               quiz_attempts := []; quiz_answers := []; module_progress := [];
               certificates := []; overall_progress := []; activities := [] |} in
  track_audio_progress 1 codjo
    {| audio_module_id := 1; audio_progress_percentage := 30; current_time := 40 |} db
  = (db, inr {| status_code := HTTP_400_BAD_REQUEST;
                data := AudioErrors
                  [("module_id", [Message "Ce module n'a pas de fichier audio."])] |}).
Proof. reflexivity. Qed.

(** The stored record after the four calls: 100 %, completed at time 3. *)
Example track_all_sample :
  ∃ r, stored_progress (track_all codjo sample_calls sample_db) 2 1 = inr r
     ∧ progress_percentage r = 100%Q ∧ is_completed r = true
     ∧ progress_completed_at r = Some 3 ∧ last_audio_position r = 130.
Proof. eexists. split; [vm_compute; reflexivity|]. done. Qed.

(** ** Recomputing the overall progress *)

Lemma update_progress_run now user self db :
  update_progress now user self db
  = (with_overall_progress (update_row overall_id (recompute db now user self)) db,
     inr (recompute db now user self)).
Proof. reflexivity. Qed.

(** The recomputation reads the modules, the attempts and the audio records
    only, and [update_progress] writes none of them. *)
Lemma recompute_with_overall_progress f db now user self :
  recompute (with_overall_progress f db) now user self = recompute db now user self.
Proof. reflexivity. Qed.

Lemma recompute_again db now1 now2 user self :
  let self1 := recompute db now1 user self in
  let self2 := recompute db now2 user self1 in
  total_modules self2 = total_modules self1
  ∧ completed_modules self2 = completed_modules self1
  ∧ completion_percentage self2 = completion_percentage self1
  ∧ can_get_certificate self2 = can_get_certificate self1
  ∧ average_quiz_score self2 = average_quiz_score self1
  ∧ total_quiz_attempts self2 = total_quiz_attempts self1
  ∧ total_audio_time self2 = total_audio_time self1
  ∧ completed_at self2 = completed_at self1.
Proof.
  unfold recompute, quiz_statistics, audio_statistics.
  destruct (decide (preferred_language user = "FR")); simpl.
  - repeat split.
    + by case_decide.
    + destruct (filter _ (quiz_attempts db)); [done|].
      by destruct (omap (M:=list) _ (training_modules db)).
    + case_bool_decide; [|done]. by destruct (completed_at self).
  - repeat split.
    + by case_decide.
    + case_bool_decide; [|done]. by destruct (completed_at self).
Qed.

(** C5.  Running [update_progress] twice in a row (it writes the overall
    progress row only, so nothing it reads changes in between) gives the
    same completed_modules, completion_percentage and can_get_certificate
    the second time; completed_at is a latch: it is set as soon as the
    learner is eligible and a value already set is kept. *)
Theorem update_progress_idempotent db now1 now2 user self :
  ∃ db1 self1 db2 self2,
    update_progress now1 user self db = (db1, inr self1)
    ∧ update_progress now2 user self1 db1 = (db2, inr self2)
    ∧ completed_modules self2 = completed_modules self1
    ∧ completion_percentage self2 = completion_percentage self1
    ∧ can_get_certificate self2 = can_get_certificate self1
    ∧ completed_at self2 = completed_at self1
    ∧ (can_get_certificate self1 = true → is_Some (completed_at self1))
    ∧ (is_Some (completed_at self) → completed_at self1 = completed_at self).
Proof.
  eexists _, _, _, _. rewrite !update_progress_run.
  split; [reflexivity|]. split; [reflexivity|].
  rewrite recompute_with_overall_progress.
  destruct (recompute_again db now1 now2 user self) as (_ & Hc & Hp & Hg & _ & _ & _ & Ha).
  repeat split; try done.
  - unfold recompute. destruct (decide _).
    + destruct (quiz_statistics _ _ _) as [[??]?]. simpl.
      intros ->. by destruct (completed_at self).
    + destruct (audio_statistics _ _). simpl.
      intros ->. by destruct (completed_at self).
  - intros [t Ht]. unfold recompute. destruct (decide _).
    + destruct (quiz_statistics _ _ _) as [[??]?]. simpl.
      rewrite Ht. by case_bool_decide.
    + destruct (audio_statistics _ _). simpl. rewrite Ht. by case_bool_decide.
Qed.

(** First attempts scoring 85, 90, 82, 95, 80, 88, 91, 79, 84 on modules 1
    to 9 leave module 8 open; a second attempt on module 8 scoring 81 makes
    the learner eligible. *)
Example update_progress_course :
  (∃ p, (UserProgressView_get_object 100 awa (course_db [])).2 = inr p
      ∧ total_modules p = 9 ∧ completed_modules p = 8
      ∧ can_get_certificate p = false ∧ completed_at p = None)
  ∧ (∃ p, (UserProgressView_get_object 100 awa
             (course_db [scored_attempt 10 1 8 2 81 40])).2 = inr p
        ∧ total_modules p = 9 ∧ completed_modules p = 9
        ∧ can_get_certificate p = true ∧ completed_at p = Some 100
        ∧ (completion_percentage p == 100)%Q).
Proof.
  split; eexists; (split; [vm_compute; reflexivity|]); by repeat split.
Qed.

(** ** Certificates *)

Lemma certified_db_consistent : consistent certified_db.
Proof.
  split; simpl.
  - compute_done.
  - intros r Hr. by apply elem_of_nil in Hr.
  - constructor.
  - constructor.
  - compute_done.
Qed.

(** C6.  A learner whose preferred language is not French always receives
    the manual-verification instructions (with the contact details), status
    200, whatever the audio records say; nothing is written. *)
Theorem request_certificate_manual_verification db now random uuid4 user full_name :
  preferred_language user ≠ "FR" →
  ∃ instructions,
    request_certificate now random uuid4 user full_name db
      = (db, inr {| status_code := HTTP_200_OK;
                    data := ManualVerification instructions |})
    ∧ contact_info instructions = hai_contact_info
    ∧ whatsapp_number instructions = "+229 01 57 57 51 67".
Proof.
  intros Hlang. eexists. unfold request_certificate.
  erewrite bind_run by reflexivity. rewrite decide_True by done.
  split; [reflexivity|]. done.
Qed.

Lemma request_certificate_manual_verification_witness :
  ∃ instructions,
    request_certificate 50 (λ i, i) 99 codjo (Some "Codjo Hounkpe") certified_db
      = (certified_db, inr {| status_code := HTTP_200_OK;
                              data := ManualVerification instructions |})
    ∧ contact_info instructions = hai_contact_info
    ∧ whatsapp_number instructions = "+229 01 57 57 51 67".
Proof.
  apply (request_certificate_manual_verification certified_db 50 (λ i, i) 99 codjo).
  simpl. discriminate.
Defined.

(** C10.  Verification succeeds exactly for the code of a certificate
    whose [is_valid] flag is set; every other code, revoked or never
    issued, gets one and the same 404 answer; nothing is written. *)
Theorem verify_certificate_valid_only db now code :
  consistent db →
  (verify_certificate now code db).1 = db
  ∧ ((∃ c, c ∈ certificates db ∧ verification_code c = code ∧ is_valid c = true)
     ↔ ∃ certificate,
         (verify_certificate now code db).2
         = inr {| status_code := HTTP_200_OK;
                  data := Verified true certificate now |})
  ∧ ((¬ ∃ c, c ∈ certificates db ∧ verification_code c = code ∧ is_valid c = true)
     → (verify_certificate now code db).2
       = inr {| status_code := HTTP_404_NOT_FOUND;
                data := NotVerified false "Certificat non trouvé ou invalide" |}).
Proof.
  intros Hdb. split; [apply read_only_verify_certificate|].
  unfold verify_certificate. erewrite bind_run by reflexivity.
  destruct (get _ (certificates db)) as [[]|c] eqn:Hget.
  - pose proof (proj1 (get_DoesNotExist _ _) Hget) as Hnone. split; [|done].
    split; [|by intros [? [=]]]. intros (c & Hc & Hcode & Hvalid).
    by destruct (Hnone c Hc).
  - exfalso. revert Hget.
    apply (get_not_multiple verification_code); [apply Hdb|].
    intros y y' [??] [??]. congruence.
  - exfalso. revert Hget. apply get_not_IntegrityError.
  - apply get_inr in Hget as (Hc & [Hcode Hvalid] & _). split.
    + split; [eauto|]. intros _. eauto.
    + intros Hnone. destruct Hnone. eauto.
Qed.

Lemma verify_certificate_valid_only_witness :
  (verify_certificate 60 "R3V0K3D00001" certified_db).2
  = inr {| status_code := HTTP_404_NOT_FOUND;
           data := NotVerified false "Certificat non trouvé ou invalide" |}.
Proof.
  apply (verify_certificate_valid_only certified_db 60 "R3V0K3D00001"
           certified_db_consistent).
  intros (c & Hc & Hcode & Hvalid). simpl in Hc.
  repeat (apply elem_of_cons in Hc as [->|Hc]; [discriminate|]).
  by apply elem_of_nil in Hc.
Defined.

Example verify_certificate_sample :
  (verify_certificate 60 "BADCODE0000" certified_db).2
  = (verify_certificate 60 "R3V0K3D00001" certified_db).2
  ∧ ∃ certificate,
      (verify_certificate 60 "K7Q2M9X4T1ZB" certified_db).2
      = inr {| status_code := 200; data := Verified true certificate 60 |}
      ∧ verified_full_name certificate = "Codjo Hounkpe".
Proof. split; [reflexivity|]. eexists. split; [vm_compute; reflexivity|done]. Qed.

Lemma Certificate_create_run now random uuid4 user name n avg db :
  let code := string_of_list_ascii (random_choices random code_alphabet 12) in
  let certificate :=
    {| cert_id := next_pk (cert_id <$> certificates db); cert_user := user_id user;
       certificate_id := uuid4; verification_code := code;
       cert_full_name := (if decide (name = "") then full_name user else name);
       completion_date := now; total_modules_completed := n;
       average_score := Some avg; is_valid := true;
       signed_by := ""; signature_date := None |} in
  Certificate_create now random uuid4 user name n avg db
  = if decide (Exists (λ r, certificate_id r = uuid4 ∨ verification_code r = code)
                      (certificates db))
    then (db, inl IntegrityError)
    else (with_certificates (λ rows, rows ++ [certificate]) db, inr certificate).
Proof.
  unfold Certificate_create, mbind, DbM_bind, query, execute, raise, mret, DbM_ret.
  simpl. by case_decide.
Qed.

Lemma no_existing_certificate db user :
  (∀ c, c ∈ certificates db → ¬ (cert_user c = user_id user ∧ is_valid c = true)) →
  first (order_by (desc completion_date)
           (filter (λ c, cert_user c = user_id user ∧ is_valid c = true)
                   (certificates db))) = None.
Proof. intros H. by rewrite filter_none. Qed.

(** C9.  For a French-track learner without a valid certificate whose
    request passes the validation, [request_certificate] inserts the
    certificate and then fetches the overall progress with a bare [get]:
    when the learner has no such row the view raises [DoesNotExist] and the
    certificate stays in the table; when the row exists the view answers
    201 with that certificate. *)
Theorem request_certificate_needs_overall_progress
    db now random uuid4 user full_name name :
  preferred_language user = "FR" →
  (∀ c, c ∈ certificates db → ¬ (cert_user c = user_id user ∧ is_valid c = true)) →
  (CertificateRequestSerializer user full_name db).2 = inr (inr name) →
  ¬ Exists (λ r, certificate_id r = uuid4
                 ∨ verification_code r
                   = string_of_list_ascii (random_choices random code_alphabet 12))
           (certificates db) →
  ∃ certificate,
    cert_user certificate = user_id user ∧ is_valid certificate = true
    ∧ verification_code certificate
      = string_of_list_ascii (random_choices random code_alphabet 12)
    ∧ ((∀ p, p ∈ overall_progress db → overall_user p ≠ user_id user) →
       request_certificate now random uuid4 user full_name db
       = (with_certificates (λ rows, rows ++ [certificate]) db, inl DoesNotExist))
    ∧ (∀ p, get (λ p, overall_user p = user_id user) (overall_progress db) = inr p →
       ∃ db', request_certificate now random uuid4 user full_name db
              = (db', inr {| status_code := HTTP_201_CREATED;
                             data := CertificateMessage "Certificat généré avec succès"
                                                        certificate |})
            ∧ certificates db' = certificates db ++ [certificate]).
Proof.
  intros Hfr Hnone Hser Hfresh.
  eexists. split; [|split; [|split; [|split]]]; cycle 3.
  - intros Hmissing. unfold request_certificate.
    erewrite bind_run by reflexivity. rewrite decide_False by (intros ?; congruence).
    rewrite no_existing_certificate by done.
    erewrite bind_run; cycle 1.
    { rewrite read_only_run by apply read_only_CertificateRequestSerializer.
      by rewrite Hser. }
    cbv beta iota zeta.
    erewrite bind_run by (rewrite Certificate_create_run, decide_False by done; reflexivity).
    erewrite bind_run by reflexivity.
    erewrite bind_raise; [reflexivity|].
    unfold lift. simpl. f_equal. apply get_DoesNotExist. intros p Hp. by apply Hmissing.
  - intros p Hp. unfold request_certificate.
    erewrite bind_run by reflexivity. rewrite decide_False by (intros ?; congruence).
    rewrite no_existing_certificate by done.
    erewrite bind_run; cycle 1.
    { rewrite read_only_run by apply read_only_CertificateRequestSerializer.
      by rewrite Hser. }
    cbv beta iota zeta.
    erewrite bind_run by (rewrite Certificate_create_run, decide_False by done; reflexivity).
    erewrite bind_run by reflexivity.
    erewrite bind_run by (unfold lift; simpl; rewrite Hp; reflexivity).
    erewrite bind_run by reflexivity.
    erewrite bind_run by reflexivity.
    eexists. split; [reflexivity|]. reflexivity.
  - reflexivity.
  - reflexivity.
  - reflexivity.
Qed.

Lemma request_certificate_needs_overall_progress_witness :
  ∃ certificate,
    request_certificate 50 (λ i, i) 99 awa (Some "Awa Dossou") certified_db
    = (with_certificates (λ rows, rows ++ [certificate]) certified_db,
       inl DoesNotExist)
    ∧ cert_user certificate = 1 ∧ is_valid certificate = true
    ∧ verification_code certificate = "ABCDEFGHIJKL".
Proof.
  destruct (request_certificate_needs_overall_progress certified_db 50 (λ i, i) 99
              awa (Some "Awa Dossou") "Awa Dossou")
    as (certificate & Huser & Hvalid & Hcode & Hraise & _).
  - reflexivity.
  - intros c Hc [Hu _]. simpl in Hc.
    repeat (apply elem_of_cons in Hc as [->|Hc]; [discriminate|]).
    by apply elem_of_nil in Hc.
  - vm_compute. reflexivity.
  - intros (c & Hc & Hdup)%Exists_exists. simpl in Hc.
    repeat (apply elem_of_cons in Hc as [->|Hc];
            [by destruct Hdup as [Hdup|Hdup]; vm_compute in Hdup|]).
    by apply elem_of_nil in Hc.
  - exists certificate. split; [|done].
    apply Hraise. intros p Hp. by apply elem_of_nil in Hp.
Defined.

(** ** Eligibility *)

Lemma length_remove_dups {A} `{EqDecision A} (l : list A) :
  length (remove_dups l) ≤ length l.
Proof.
  apply submseteq_length, NoDup_submseteq; [apply NoDup_remove_dups|].
  intros x. by rewrite elem_of_remove_dups.
Qed.

Lemma NoDup_fmap_filter {A B} (f : A → B) (P Q : A → Prop)
    `{!∀ x, Decision (P x)} `{!∀ x, Decision (Q x)} (l : list A) :
  (∀ x, Q x → P x) → NoDup (f <$> filter P l) → NoDup (f <$> filter Q l).
Proof.
  intros HQP. induction l as [|x l IH]; [done|].
  destruct (decide (Q x)) as [HQ|HQ].
  - rewrite (filter_cons_True Q) by done. rewrite (filter_cons_True P) by auto.
    rewrite !fmap_cons. intros [Hx Hnd]%NoDup_cons. apply NoDup_cons. split; [|auto].
    intros (y & Hf & [HQy Hy]%list_elem_of_filter)%list_elem_of_fmap.
    apply Hx, list_elem_of_fmap. exists y. split; [done|].
    apply list_elem_of_filter. auto.
  - rewrite (filter_cons_False Q) by done.
    destruct (decide (P x)).
    + rewrite (filter_cons_True P) by done. rewrite fmap_cons.
      intros [_ Hnd]%NoDup_cons. auto.
    + rewrite (filter_cons_False P) by done. auto.
Qed.

(** With at most one passing attempt per module, a training module that is
    not passed keeps the count of the validator below the number of
    training modules. *)
Lemma not_all_passed db user m :
  m ∈ training_modules db →
  (∀ a, a ∈ quiz_attempts db → attempt_user a = user → attempt_module a = module_id m →
        is_passed a = false) →
  NoDup (attempt_module <$>
           filter (λ a, attempt_user a = user ∧ is_passed a = true) (quiz_attempts db)) →
  length (passed_modules db user) < length (training_modules db).
Proof.
  intros Hm Hfailed Hnd. unfold passed_modules.
  set (F := filter (λ a, attempt_user a = user
                         ∧ module_in (training_modules db) (attempt_module a)
                         ∧ is_passed a = true) (quiz_attempts db)).
  rewrite length_fmap.
  match goal with
  | |- length (remove_dups ?l) < _ =>
      assert (length (remove_dups l) ≤ length F) as Hdups
        by (etransitivity; [apply length_remove_dups|];
            by rewrite length_fmap, length_order_by)
  end.
  assert (NoDup (attempt_module <$> F)) as HF.
  { revert Hnd. apply NoDup_fmap_filter. by intros a (? & _ & ?). }
  assert (module_id m ∉ attempt_module <$> F) as Hnotin.
  { intros (a & Ha & [(Hu & _ & Hp) Hin]%list_elem_of_filter)%list_elem_of_fmap.
    rewrite (Hfailed a) in Hp; done. }
  assert (length (module_id m :: (attempt_module <$> F))
          ≤ length (module_id <$> training_modules db)) as Hle.
  { apply submseteq_length, NoDup_submseteq; [by apply NoDup_cons|].
    intros x [->|Hx]%elem_of_cons.
    - apply list_elem_of_fmap. eauto.
    - apply list_elem_of_fmap in Hx as (a & -> & [(_ & Hin & _) _]%list_elem_of_filter).
      exact Hin. }
  simpl in Hle. rewrite !length_fmap in Hle. lia.
Qed.

(** C7 (amended).  A French-track learner without a valid certificate, with
    at most one passing attempt per module and a training module not yet
    passed, is refused with status 400; the payload is the field error of
    [full_name] when the name is missing, blank, longer than 100 characters
    or holds a null character, and otherwise the fixed message of the
    validator.  It carries no count of the remaining modules, and nothing
    is written. *)
Theorem request_certificate_ineligible db now random uuid4 user full_name m :
  preferred_language user = "FR" →
  (∀ c, c ∈ certificates db → ¬ (cert_user c = user_id user ∧ is_valid c = true)) →
  m ∈ training_modules db →
  (∀ a, a ∈ quiz_attempts db → attempt_user a = user_id user →
        attempt_module a = module_id m → is_passed a = false) →
  NoDup (attempt_module <$>
           filter (λ a, attempt_user a = user_id user ∧ is_passed a = true)
                  (quiz_attempts db)) →
  request_certificate now random uuid4 user full_name db
  = (db, inr {| status_code := HTTP_400_BAD_REQUEST;
                data := RequestErrors
                  match validate_full_name full_name with
                  | inl e => [("full_name", e)]
                  | inr _ => [("non_field_errors", [Message must_validate_all_modules])]
                  end |}).
Proof.
  intros Hfr Hnone Hm Hfailed Hnd. unfold request_certificate.
  erewrite bind_run by reflexivity. rewrite decide_False by (intros ?; congruence).
  rewrite no_existing_certificate by done.
  assert (CertificateRequestSerializer user full_name db
          = (db, inr (inl match validate_full_name full_name with
                          | inl e => [("full_name", e)]
                          | inr _ => [("non_field_errors",
                                       [Message must_validate_all_modules])]
                          end))) as Hser.
  { unfold CertificateRequestSerializer. erewrite bind_run by reflexivity.
    destruct (validate_full_name full_name) as [e|value]; [reflexivity|].
    unfold CertificateRequestSerializer_validate.
    rewrite decide_True by done.
    rewrite decide_True by (by eapply not_all_passed). reflexivity. }
  by erewrite bind_run by apply Hser.
Qed.

(** C7 as stated fails: with no module passed and with one module passed
    out of two the answer is the same, so the payload does not tell how
    many modules remain. *)
Lemma ineligible_payload_has_no_count :
  (request_certificate 50 (λ i, i) 99 awa (Some "Awa Dossou") sample_db).2
  = inr {| status_code := 400;
           data := RequestErrors
             [("non_field_errors",
               [Message "Vous devez valider tous les modules avant de demander l'attestation."])] |}
  ∧ (request_certificate 50 (λ i, i) 99 awa (Some "Awa Dossou") half_way_db).2
    = (request_certificate 50 (λ i, i) 99 awa (Some "Awa Dossou") sample_db).2
  ∧ length (training_modules sample_db) - length (passed_modules sample_db 1) = 2
  ∧ length (training_modules half_way_db) - length (passed_modules half_way_db 1) = 1.
Proof. repeat split; vm_compute; reflexivity. Qed.

Lemma request_certificate_ineligible_witness :
  request_certificate 50 (λ i, i) 99 awa (Some "Awa Dossou") half_way_db
  = (half_way_db,
     inr {| status_code := HTTP_400_BAD_REQUEST;
            data := RequestErrors
              match validate_full_name (Some "Awa Dossou") with
              | inl e => [("full_name", e)]
              | inr _ => [("non_field_errors", [Message must_validate_all_modules])]
              end |}).
Proof.
  apply (request_certificate_ineligible half_way_db 50 (λ i, i) 99 awa
           (Some "Awa Dossou") module_2).
  - reflexivity.
  - intros c Hc. by apply elem_of_nil in Hc.
  - vm_compute. right. left.
  - intros a Ha _ Hm. simpl in Ha. apply list_elem_of_singleton in Ha as ->.
    discriminate.
  - compute_done.
Defined.

(** Names as the field takes them: a name of no-break spaces is blank; 51
    accented letters, 102 bytes, are within the 100 characters; whitespace
    of any kind is trimmed at both ends; a null character is refused, and
    both errors are reported on a long name that holds one. *)
Example validate_full_name_unicode :
  let accented := String.concat "" (replicate 51 "é") in
  let long := String.concat "" (replicate 101 "a") in
  validate_full_name (Some (utf8 160 +:+ utf8 160)) = inl [Blank]
  ∧ String.length accented = 102
  ∧ validate_full_name (Some accented) = inr accented
  ∧ validate_full_name (Some (utf8 8239 +:+ " Awa Dossou" +:+ utf8 160))
    = inr "Awa Dossou"
  ∧ validate_full_name (Some long) = inl [MaxLength 100]
  ∧ validate_full_name (Some ("Awa" +:+ String "000" "Dossou"))
    = inl [Message "Null characters are not allowed."]
  ∧ validate_full_name (Some (long +:+ String "000" ""))
    = inl [MaxLength 100; Message "Null characters are not allowed."].
Proof. by vm_compute. Qed.

(** The count that the validator compares is taken over passing attempts:
    a learner who passed module 1 twice and module 2 never is let through,
    and the certificate records one completed module. *)
Example validator_counts_passing_attempts :
  length (passed_modules twice_passed_db 1) = 2
  ∧ ∃ c, certificates
           (request_certificate 50 (λ i, i) 99 awa (Some "Awa Dossou")
              twice_passed_db).1 = [c]
       ∧ cert_user c = 1 ∧ total_modules_completed c = 1.
Proof. split; [reflexivity|]. eexists. split; [vm_compute; reflexivity|done]. Qed.

(** ** One valid certificate *)

Lemma request_certificate_certificates db now random uuid4 user full_name db' r :
  request_certificate now random uuid4 user full_name db = (db', r) →
  certificates db' = certificates db
  ∨ ∃ c, certificates db' = certificates db ++ [c]
         ∧ cert_user c = user_id user
         ∧ filter (λ c, cert_user c = user_id user ∧ is_valid c = true)
                  (certificates db) = [].
Proof.
  unfold request_certificate. intros H.
  erewrite bind_run in H by reflexivity.
  case_decide; [injection H as <- <-; by left|].
  destruct (first _) as [existing|] eqn:Hfirst; [injection H as <- <-; by left|].
  apply first_order_by_None in Hfirst.
  unfold mbind at 1 in H. unfold DbM_bind at 1 in H.
  pose proof (read_only_CertificateRequestSerializer user full_name db) as Hro.
  destruct (CertificateRequestSerializer user full_name db) as [db0 [e|[errors|name]]];
    simpl in Hro; subst db0;
    [injection H as <- <-; by left|injection H as <- <-; by left|].
  unfold mbind at 1 in H. unfold DbM_bind at 1 in H.
  rewrite Certificate_create_run in H.
  case_decide; [injection H as <- <-; by left|].
  right. erewrite bind_run in H by reflexivity.
  unfold mbind at 1 in H. unfold DbM_bind at 1 in H. unfold lift at 1 in H.
  simpl in H.
  destruct (get _ (overall_progress db)) as [e|p].
  - injection H as <- <-. eexists. split; [reflexivity|]. done.
  - injection H as <- <-. eexists. split; [reflexivity|]. done.
Qed.

(** C1 (amended).  A French-track learner who holds a valid certificate
    gets the most recent of them back, status 200, and nothing is
    evaluated or written; and the view never adds a second valid
    certificate: if every learner holds at most one before the call, so
    they do after it, however the call ends. *)
Theorem request_certificate_returns_existing db now random uuid4 user full_name :
  (preferred_language user = "FR" →
   (∃ c, c ∈ certificates db ∧ cert_user c = user_id user ∧ is_valid c = true) →
   ∃ existing,
     request_certificate now random uuid4 user full_name db
     = (db, inr {| status_code := HTTP_200_OK;
                   data := CertificateMessage "Vous avez déjà un certificat valide"
                                              existing |})
     ∧ existing ∈ certificates db
     ∧ cert_user existing = user_id user ∧ is_valid existing = true
     ∧ ∀ c, c ∈ certificates db → cert_user c = user_id user → is_valid c = true →
            completion_date c ≤ completion_date existing)
  ∧ ((∀ u, length (filter (λ c, cert_user c = u ∧ is_valid c = true)
                          (certificates db)) ≤ 1) →
     ∀ u, length (filter (λ c, cert_user c = u ∧ is_valid c = true)
                         (certificates
                            (request_certificate now random uuid4 user full_name db).1))
          ≤ 1).
Proof.
  split.
  - intros Hfr (c & Hc & Hu & Hv). unfold request_certificate.
    erewrite bind_run by reflexivity. rewrite decide_False by (intros ?; congruence).
    destruct (first _) as [existing|] eqn:Hfirst.
    + apply first_desc_max in Hfirst as [[[??] ?]%list_elem_of_filter Hmax].
      exists existing. repeat split; try done.
      intros c' ???. apply Hmax. by apply list_elem_of_filter.
    + apply first_order_by_None in Hfirst.
      assert (c ∈ @nil Certificate) as Hin; [|by apply elem_of_nil in Hin].
      rewrite <- Hfirst. by apply list_elem_of_filter.
  - intros Hone u.
    destruct (request_certificate now random uuid4 user full_name db) as [db' r] eqn:H.
    simpl fst.
    apply request_certificate_certificates in H as [->|(c & -> & Hc & Hnone)]; [done|].
    rewrite filter_app, length_app.
    destruct (decide (cert_user c = u ∧ is_valid c = true)) as [[<- ?]|?].
    + rewrite Hc, Hnone, filter_cons_True by (by rewrite Hc). done.
    + rewrite filter_cons_False by done. simpl. specialize (Hone u). lia.
Qed.

(** C1 as stated fails for a learner whose language is not French: Codjo
    holds a valid certificate and receives the manual-verification
    instructions, not the certificate. *)
Lemma fon_holder_gets_instructions :
  (∃ c, c ∈ certificates certified_db ∧ cert_user c = user_id codjo ∧ is_valid c = true)
  ∧ ∃ instructions,
      request_certificate 50 (λ i, i) 99 codjo (Some "Codjo Hounkpe") certified_db
      = (certified_db, inr {| status_code := 200;
                              data := ManualVerification instructions |}).
Proof.
  split.
  - eexists. split; [right; left|]. done.
  - eexists. vm_compute. reflexivity.
Qed.

Lemma request_certificate_returns_existing_witness :
  ∃ existing,
    request_certificate 50 (λ i, i) 99 kossi None certified_db
    = (certified_db,
       inr {| status_code := HTTP_200_OK;
              data := CertificateMessage "Vous avez déjà un certificat valide"
                                         existing |})
    ∧ existing ∈ certificates certified_db
    ∧ cert_user existing = user_id kossi ∧ is_valid existing = true
    ∧ ∀ c, c ∈ certificates certified_db → cert_user c = user_id kossi →
           is_valid c = true → completion_date c ≤ completion_date existing.
Proof.
  apply (proj1 (request_certificate_returns_existing certified_db 50 (λ i, i) 99
                  kossi None)).
  - reflexivity.
  - eexists. split; [left|]. done.
Defined.

(** ** Verification codes *)

Lemma length_random_choices random population k :
  length (random_choices random population k) = k.
Proof. unfold random_choices. by rewrite length_fmap, length_seq. Qed.

Lemma elem_of_random_choices random population k c :
  population ≠ [] → c ∈ random_choices random population k → c ∈ population.
Proof.
  intros Hne (i & -> & _)%list_elem_of_fmap.
  apply list_elem_of_In, nth_In, Nat.mod_upper_bound.
  by destruct population.
Qed.

Lemma length_string_of_list_ascii l :
  String.length (string_of_list_ascii l) = length l.
Proof. induction l as [|c l IH]; simpl; [done|]. by rewrite IH. Qed.

(** C2 (amended).  The code of a certificate is drawn once: twelve
    characters, each an uppercase letter or a digit.  It is not retried:
    when the drawn code is already taken the insertion is rejected by the
    uniqueness constraint and nothing is stored; otherwise the certificate
    is stored with that code.  Either way the stored codes stay pairwise
    distinct. *)
Theorem verification_code_drawn_once db now random uuid4 user name n avg :
  let code := string_of_list_ascii (random_choices random code_alphabet 12) in
  String.length code = 12
  ∧ Forall (λ c, is_uppercase_or_digit c = true) (list_ascii_of_string code)
  ∧ (code ∈ verification_code <$> certificates db →
     Certificate_create now random uuid4 user name n avg db = (db, inl IntegrityError))
  ∧ (¬ Exists (λ r, certificate_id r = uuid4 ∨ verification_code r = code)
              (certificates db) →
     ∃ c, Certificate_create now random uuid4 user name n avg db
          = (with_certificates (λ rows, rows ++ [c]) db, inr c)
        ∧ verification_code c = code)
  ∧ (NoDup (verification_code <$> certificates db) →
     NoDup (verification_code <$>
              certificates (Certificate_create now random uuid4 user name n avg db).1)).
Proof.
  intros code. split; [|split; [|split; [|split]]].
  - unfold code. by rewrite length_string_of_list_ascii, length_random_choices.
  - unfold code. rewrite list_ascii_of_string_of_list_ascii.
    apply Forall_forall. intros c Hc%elem_of_random_choices; [|done].
    revert c Hc. apply Forall_forall. unfold code_alphabet. simpl.
    repeat constructor.
  - intros (c & Hcode & Hc)%list_elem_of_fmap.
    rewrite Certificate_create_run. rewrite decide_True; [done|].
    apply Exists_exists. exists c. split; [done|]. by right.
  - intros Hfresh. rewrite Certificate_create_run, decide_False by done.
    eexists. split; [reflexivity|]. done.
  - intros Hnd. rewrite Certificate_create_run. case_decide as Hex; [done|].
    simpl. rewrite fmap_app. apply NoDup_app. split; [done|].
    split; [|apply NoDup_singleton].
    intros k (c & -> & Hc)%list_elem_of_fmap Hin. simpl in Hin.
    apply list_elem_of_singleton in Hin. apply Hex, Exists_exists.
    exists c. split; [done|]. by right.
Qed.

(** C2 as stated fails: the first twelve draws spell a code that is taken,
    the next twelve would spell a free one, and the request of an eligible
    learner ends in [IntegrityError] with nothing stored. *)
Lemma code_collision_is_not_retried :
  string_of_list_ascii
    (random_choices (λ i, if decide (i < 12) then 0 else 1) code_alphabet 12)
  = "AAAAAAAAAAAA"
  ∧ ("AAAAAAAAAAAA" ∈ verification_code <$> certificates certified_db)
  ∧ ("BBBBBBBBBBBB" ∉ verification_code <$> certificates certified_db)
  ∧ request_certificate 50 (λ i, if decide (i < 12) then 0 else 1) 99 awa
      (Some "Awa Dossou") certified_db
    = (certified_db, inl IntegrityError).
Proof.
  split; [reflexivity|]. split; [left|]. split; [|vm_compute; reflexivity].
  simpl. intros Hin.
  repeat (apply elem_of_cons in Hin as [Hin|Hin]; [discriminate|]).
  by apply elem_of_nil in Hin.
Qed.

(** With a free code the same request stores the certificate. *)
Example free_code_is_stored :
  ∃ c, certificates
         (request_certificate 50 (λ i, 1) 99 awa (Some "Awa Dossou") certified_db).1
       = certificates certified_db ++ [c]
     ∧ verification_code c = "BBBBBBBBBBBB" ∧ cert_full_name c = "Awa Dossou".
Proof. eexists. split; [vm_compute; reflexivity|done]. Qed.

(** ** What the quiz serializer lets through *)

Lemma for_each_inv {A B} (f : A → DbM B) l db db' ys :
  (∀ x, read_only (f x)) →
  for_each f l db = (db', inr ys) →
  Forall2 (λ x y, (f x db).2 = inr y) l ys.
Proof.
  intros Hro. revert db' ys. induction l as [|x l IH]; intros db' ys H.
  - injection H as <- <-. constructor.
  - simpl in H. unfold mbind, DbM_bind in H.
    pose proof (Hro x db) as Hdb.
    destruct (f x db) as [db1 [e|y]] eqn:Hy; simpl in H;
      [discriminate H|].
    simpl in Hdb. subst db1. unfold mbind, DbM_bind in H.
    pose proof (read_only_for_each f l Hro db) as Hdb.
    destruct (for_each f l db) as [db2 [e|ys']] eqn:Hys; simpl in H;
      [discriminate H|].
    simpl in Hdb. subst db2. injection H as <- <-.
    constructor; [by rewrite Hy|]. by eapply IH.
Qed.

Lemma collect_inr {A} (l : list (list ErrorDetail + A)) xs :
  collect l = inr xs → l = inr <$> xs.
Proof.
  revert xs. induction l as [|[e|x] l IH]; intros xs; simpl.
  - by intros [= <-].
  - by destruct (collect l).
  - destruct (collect l) as [|xs']; [done|]. intros [= <-]. by rewrite (IH xs').
Qed.

Lemma related_pk_inr {A} (pk : A → nat) table value db x :
  (related_pk pk table value db).2 = inr (inr x) →
  get (λ y, pk y = value) (table db) = inr x.
Proof.
  unfold related_pk, mbind, DbM_bind, query. simpl.
  by destruct (get _ (table db)) as [[]|y]; simpl; intros [=]; subst.
Qed.

Lemma UserQuizAnswerSerializer_inr a db v :
  (UserQuizAnswerSerializer a db).2 = inr (inr v) →
  get (λ q, question_id q = data_question a) (quiz_questions db) = inr (question v)
  ∧ Forall2 (λ pk c, get (λ c', choice_id c' = pk) (answer_choices db) = inr c)
            (data_selected_choices a) (answer_selected_choices v).
Proof.
  unfold UserQuizAnswerSerializer. intros H.
  apply bind_inv in H as (db1 & q & Hq & H).
  pose proof (read_only_related_pk question_id quiz_questions (data_question a) db) as E.
  rewrite Hq in E. simpl in E. subst db1.
  apply bind_inv in H as (db2 & cs & Hcs & H).
  pose proof (read_only_for_each (related_pk choice_id answer_choices)
                (data_selected_choices a)
                (read_only_related_pk choice_id answer_choices) db) as E.
  rewrite Hcs in E. simpl in E. subst db2.
  simpl in H. destruct q as [e|q]; [by destruct (collect cs)|].
  destruct (collect cs) as [es|cs'] eqn:Hcollect; [done|].
  injection H as <-. simpl. split.
  - apply related_pk_inr. by rewrite Hq.
  - apply collect_inr in Hcollect. subst cs.
    pose proof (for_each_inv _ _ _ _ _
                  (read_only_related_pk choice_id answer_choices) Hcs) as Hall.
    apply Forall2_fmap_r in Hall. eapply Forall2_impl; [exact Hall|].
    intros pk c Hc. by apply related_pk_inr.
Qed.

Lemma validate_answers_inr value db value' :
  (validate_answers value db).2 = inr (inr value') →
  value' = value ∧ value ≠ [] ∧ Forall (λ a, check_answer db a = None) value.
Proof.
  unfold validate_answers, mbind, DbM_bind, query. simpl.
  destruct value as [|a value]; [done|].
  destruct (list_find _ (a :: value)) as [[i b]|] eqn:Hfind; simpl; [done|].
  intros [= <-]. split; [done|]. split; [done|].
  apply list_find_None in Hfind. eapply Forall_impl; [exact Hfind|].
  intros x Hx. simpl in Hx. destruct (check_answer db x); [|done].
  destruct Hx. by eexists.
Qed.

Lemma check_answer_None db a :
  check_answer db a = None →
  (∀ c, c ∈ answer_selected_choices a →
        ∃ c', c' ∈ answer_choices db ∧ choice_id c' = choice_id c
              ∧ choice_question c' = question_id (question a))
  ∧ (question_type (question a) = SINGLE → length (answer_selected_choices a) ≤ 1).
Proof.
  unfold check_answer. case_bool_decide as Hsub; [|done]. simpl.
  case_bool_decide as Hsingle; [done|]. intros _. split.
  - intros c Hc.
    assert (choice_id c ∈ (list_to_set (choice_id <$> answer_selected_choices a) : gset nat))
      as Hin by (apply elem_of_list_to_set, list_elem_of_fmap; eauto).
    apply Hsub, elem_of_list_to_set, list_elem_of_fmap in Hin as (c' & Hid & Hc').
    apply list_elem_of_filter in Hc' as [Hq Hc']. eauto.
  - intros Hs. destruct (decide (1 < length (answer_selected_choices a))); [|lia].
    destruct Hsingle. done.
Qed.

(** X1.  Data the serializer accepts: the module is active and is not the
    reporting module, there is at least one answer, every key is resolved
    to a stored row that carries it, every selected choice belongs to the
    question it is given for, and a single-choice question has at most one
    selection. *)
Theorem QuizSubmissionSerializer_accepts d db data :
  (QuizSubmissionSerializer d db).2 = inr (inr data) →
  validated_module_id data = data_module_id d
  ∧ validated_started_at data = data_started_at d
  ∧ (∃ m, m ∈ modules db ∧ module_id m = data_module_id d
          ∧ module_is_active m = true ∧ number m ≠ 10)
  ∧ answers data ≠ []
  ∧ Forall2 (λ a v,
       question v ∈ quiz_questions db
       ∧ question_id (question v) = data_question a
       ∧ Forall2 (λ pk c, c ∈ answer_choices db ∧ choice_id c = pk)
                 (data_selected_choices a) (answer_selected_choices v)
       ∧ Forall (λ c, choice_question c = question_id (question v))
                (answer_selected_choices v)
       ∧ (question_type (question v) = SINGLE → length (answer_selected_choices v) ≤ 1))
      (data_answers d) (answers data).
Proof.
  unfold QuizSubmissionSerializer. intros H.
  apply bind_inv in H as (db1 & r1 & H1 & H).
  pose proof (read_only_validate_module_id (data_module_id d) db) as E.
  rewrite H1 in E. simpl in E. subst db1.
  apply bind_inv in H as (db2 & parsed & H2 & H).
  pose proof (read_only_for_each UserQuizAnswerSerializer (data_answers d)
                read_only_UserQuizAnswerSerializer db) as E.
  rewrite H2 in E. simpl in E. subst db2.
  apply bind_inv in H as (db3 & r3 & H3 & H).
  simpl in H. destruct r1 as [e|v]; [by destruct r3|].
  destruct r3 as [e|value]; [done|]. injection H as <-. simpl.
  destruct (collect parsed) as [es|value0] eqn:Hcollect; [done|].
  pose proof (read_only_validate_answers value0 db) as E.
  rewrite H3 in E. simpl in E. subst db3.
  destruct (validate_answers_inr value0 db value) as (-> & Hne & Hcheck);
    [by rewrite H3|].
  apply collect_inr in Hcollect. subst parsed.
  assert ((validate_module_id (data_module_id d) db).2 = inr (inr v)) as Hv
    by (by rewrite H1).
  unfold validate_module_id, mbind, DbM_bind, query in Hv. simpl in Hv.
  destruct (get _ (modules db)) as [[]|m] eqn:Hget; simpl in Hv; try done.
  destruct (is_reporting_module m) eqn:Hrep; simpl in Hv; [done|].
  injection Hv as <-. apply get_inr in Hget as (Hm & [Hid Hact] & _).
  split; [done|]. split; [done|]. split.
  { exists m. repeat split; try done. unfold is_reporting_module in Hrep.
    by apply bool_decide_eq_false in Hrep. }
  split; [done|].
  pose proof (for_each_inv _ _ _ _ _ read_only_UserQuizAnswerSerializer H2) as Hall.
  apply Forall2_fmap_r in Hall.
  apply Forall2_same_length_lookup. split; [by eapply Forall2_length|].
  intros i a v Ha Hv.
  pose proof (Forall2_lookup_lr _ _ _ _ _ _ Hall Ha Hv) as Hav. simpl in Hav.
  apply UserQuizAnswerSerializer_inr in Hav as [Hq Hcs].
  apply get_inr in Hq as (Hqin & Hqid & _).
  pose proof (proj1 (Forall_lookup _ _) Hcheck i v Hv) as Hc.
  apply check_answer_None in Hc as [Hbelongs Hsingle].
  repeat split; try done.
  - eapply Forall2_impl; [exact Hcs|]. intros pk c (? & ? & _)%get_inr. done.
  - apply Forall_forall. intros c Hc.
    destruct (Hbelongs c Hc) as (c' & Hc' & Hid' & Hq').
    apply list_elem_of_lookup in Hc as [j Hj].
    destruct (Forall2_lookup_r _ _ _ _ _ Hcs Hj) as (pk & _ & Hgetc).
    apply get_inr in Hgetc as (_ & Hpk & Hfilter).
    assert (c' ∈ filter (λ c'0, choice_id c'0 = pk) (answer_choices db)) as Hin
      by (apply list_elem_of_filter; split; [congruence|done]).
    rewrite Hfilter in Hin. apply list_elem_of_singleton in Hin. by subst c'.
Qed.

Lemma QuizSubmissionSerializer_accepts_witness :
  validated_module_id sample_validated = data_module_id sample_submission
  ∧ answers sample_validated ≠ []
  ∧ ∃ m, m ∈ modules sample_db ∧ module_id m = 1
         ∧ module_is_active m = true ∧ number m ≠ 10.
Proof.
  destruct (QuizSubmissionSerializer_accepts sample_submission sample_db sample_validated)
    as (Hid & _ & Hmodule & Hanswers & _); [vm_compute; reflexivity|].
  done.
Defined.

(** ** What a submission may store *)

Lemma process_answer_tally quiz_attempt t a db db' t' :
  process_answer quiz_attempt t a db = (db', inr t') →
  total_points_possible t' = total_points_possible t + points (question a)
  ∧ total_points_earned t' ≤ total_points_earned t + points (question a)
  ∧ tally_correct_answers t' ≤ S (tally_correct_answers t).
Proof.
  unfold process_answer, UserQuizAnswer_create, UserQuizAnswer_save.
  unfold mbind, DbM_bind, query, execute, mret, DbM_ret, raise. simpl.
  case_decide; [done|]. simpl. intros [= _ <-]. simpl.
  destruct (bool_decide _); lia.
Qed.

Lemma process_answers_tally quiz_attempt l : ∀ t db db' t',
  process_answers quiz_attempt t l db = (db', inr t') →
  total_points_earned t ≤ total_points_possible t →
  total_points_earned t' ≤ total_points_possible t'
  ∧ tally_correct_answers t' ≤ tally_correct_answers t + length l.
Proof.
  induction l as [|a l IH]; intros t db db' t' H Hle.
  - injection H as <- <-. lia.
  - simpl in H. unfold mbind, DbM_bind in H.
    destruct (process_answer quiz_attempt t a db) as [db1 [e|t1]] eqn:Ha;
      [discriminate H|].
    apply process_answer_tally in Ha as (Hp & He & Hc).
    apply IH in H as [H1 H2]; [|lia]. simpl. lia.
Qed.

Lemma score_percentage_range t :
  total_points_earned t ≤ total_points_possible t →
  (0 <= score_percentage t)%Q ∧ (score_percentage t <= 100)%Q.
Proof.
  intros Hle. unfold score_percentage. case_decide as Hpos; [|done].
  destruct (ratio_unit _ _ Hle Hpos). by apply binary64_percentage_range.
Qed.

Lemma submit_quiz_stored db now user d db' r :
  submit_quiz now user d db = (db', r) →
  quiz_attempts db' = quiz_attempts db
  ∨ ∃ a, quiz_attempts db' = quiz_attempts db ++ [a] ∧ attempt_sound a
         ∧ preferred_language user = "FR".
Proof.
  unfold submit_quiz. intros H.
  unfold mbind at 1 in H. unfold DbM_bind at 1 in H.
  pose proof (read_only_QuizSubmissionSerializer d db) as Hro.
  destruct (QuizSubmissionSerializer d db) as [db0 [e|[errors|data]]];
    simpl in Hro; subst db0;
    [injection H as <- <-; by left|injection H as <- <-; by left|].
  erewrite bind_run in H by reflexivity.
  unfold mbind at 1 in H. unfold DbM_bind at 1 in H. unfold lift at 1 in H.
  destruct (get _ (modules db)) as [e|module] eqn:Hget;
    [injection H as <- <-; by left|].
  case_decide as Hlang; [injection H as <- <-; by left|].
  erewrite bind_run in H by reflexivity. cbv beta zeta in H.
  erewrite bind_run in H by reflexivity. cbv beta zeta in H.
  case_decide; [injection H as <- <-; by left|].
  edestruct (UserQuizAttempt_create_run now (user_id user) (module_id module))
    as (a & Hcreate & Haid & Hau & Ham & Han); [apply attempt_number_fresh|].
  erewrite bind_run in H by apply Hcreate.
  assert (preferred_language user = "FR") as Hfr
    by (destruct (decide (preferred_language user = "FR")); [done|by destruct Hlang]).
  right.
  unfold mbind at 1 in H. unfold DbM_bind at 1 in H.
  match type of H with
  | context [process_answers ?att ?t ?l ?d] =>
      pose proof (process_answers_attempts att l t d) as Hatt;
      pose proof (process_answers_tally att l t d) as Htally;
      destruct (process_answers att t l d) as [db1 [e|t1]]
  end; simpl in Hatt.
  - injection H as <- <-. exists a. rewrite Hatt. split; [done|]. split; [|done].
    rewrite next_attempt_number in Han.
    assert (is_passed a = false ∧ score a = 0%Q) as [Ep Es].
    { unfold UserQuizAttempt_create, mbind, DbM_bind, query, execute, mret, DbM_ret
        in Hcreate. simpl in Hcreate.
      rewrite decide_False in Hcreate by apply attempt_number_fresh.
      by injection Hcreate as _ <-. }
    unfold attempt_sound. rewrite Ep, Es, Han.
    repeat split; try done; lia.
  - destruct (Htally _ _ eq_refl) as [Hle _]; [simpl; lia|].
    unfold UserQuizAttempt_save in H.
    erewrite bind_run in H by (erewrite bind_run by reflexivity; reflexivity).
    erewrite bind_run in H by reflexivity.
    injection H as <- <-. simpl. rewrite Hatt.
    eexists. split; [apply (update_row_new attempt_id); [done|]; reflexivity|].
    split; [|done]. destruct (score_percentage_range t1 Hle).
    rewrite next_attempt_number in Han. repeat split; simpl; try done. lia.
Qed.

(** X2.  Whatever is submitted, in whatever order, every stored attempt keeps
    [is_passed = (score >= 80)], a score between 0 and 100 and an attempt
    number of at least 1. *)
Theorem submit_all_keeps_attempts_sound requests db :
  Forall attempt_sound (quiz_attempts db) →
  Forall attempt_sound (quiz_attempts (submit_all requests db)).
Proof.
  revert db. induction requests as [|[[now user] d] requests IH]; intros db Hdb; [done|].
  simpl. apply IH.
  destruct (submit_quiz now user d db) as [db' r] eqn:H. simpl.
  apply submit_quiz_stored in H as [->|(a & -> & Ha & _)]; [done|].
  apply Forall_app. split; [done|]. by constructor.
Qed.

(** X3.  A learner whose language is not French never gets an attempt stored:
    the database is left as it was and the answer, if any, is 400. *)
Theorem submit_quiz_french_only db now user d :
  preferred_language user ≠ "FR" →
  (submit_quiz now user d db).1 = db
  ∧ ∀ response, (submit_quiz now user d db).2 = inr response →
                status_code response = HTTP_400_BAD_REQUEST.
Proof.
  intros Hlang. destruct (submit_quiz now user d db) as [db' r] eqn:H. simpl.
  unfold submit_quiz in H.
  unfold mbind at 1 in H. unfold DbM_bind at 1 in H.
  pose proof (read_only_QuizSubmissionSerializer d db) as Hro.
  destruct (QuizSubmissionSerializer d db) as [db0 [e|[errors|data]]];
    simpl in Hro; subst db0;
    [injection H as <- <-; by split
    |injection H as <- <-; by split; [|intros ? [= <-]]|].
  erewrite bind_run in H by reflexivity.
  unfold mbind at 1 in H. unfold DbM_bind at 1 in H. unfold lift at 1 in H.
  destruct (get _ (modules db)) as [e|module]; [injection H as <- <-; by split|].
  rewrite decide_True in H by done.
  injection H as <- <-. by split; [|intros ? [= <-]].
Qed.

Lemma submit_all_keeps_attempts_sound_witness :
  Forall attempt_sound
    (quiz_attempts (submit_all [(10, awa, sample_submission);
                                (12, awa, doubled_submission);
                                (15, codjo, sample_submission)] sample_db)).
Proof. apply submit_all_keeps_attempts_sound. constructor. Defined.

Lemma submit_quiz_french_only_witness :
  (submit_quiz 10 codjo sample_submission sample_db).1 = sample_db.
Proof.
  apply (submit_quiz_french_only sample_db 10 codjo sample_submission).
  simpl. discriminate.
Defined.

(** ** Orderings *)

Section total_orderings.
Context {A : Type} (before : A → A → bool).
Hypothesis before_total : ∀ x y, before x y = true ∨ before y x = true.
Hypothesis before_trans : ∀ x y z, before x y = true → before y z = true → before x z = true.

Lemma first_order_by_best (l : list A) x :
  first (order_by before l) = Some x → x ∈ l ∧ ∀ y, y ∈ l → before x y = true.
Proof.
  revert x. induction l as [|z l IH]; intros x; [done|].
  rewrite first_order_by_cons. intros [= <-].
  destruct (first (order_by before l)) as [y|] eqn:Hy.
  - destruct (IH y eq_refl) as [Hin Hbest].
    destruct (before z y) eqn:Hzy.
    + split; [left|]. intros w [->|Hw]%elem_of_cons.
      * by destruct (before_total z z).
      * eapply before_trans; [exact Hzy|]. by apply Hbest.
    + split; [by right|]. intros w [->|Hw]%elem_of_cons; [|by apply Hbest].
      destruct (before_total y z) as [?|?]; [done|congruence].
  - apply first_order_by_None in Hy as ->. split; [left|].
    intros w [->|Hw]%elem_of_cons; [|by apply elem_of_nil in Hw].
    by destruct (before_total z z).
Qed.

Lemma insert_by_sorted x (l : list A) :
  StronglySorted (λ a b, before a b = true) l →
  StronglySorted (λ a b, before a b = true) (insert_by before x l).
Proof.
  induction 1 as [|y l Hl IH Hy]; simpl; [repeat constructor|].
  destruct (before x y) eqn:Hxy.
  - constructor; [by constructor|]. constructor; [done|].
    eapply Forall_impl; [exact Hy|]. intros w Hw. by eapply before_trans.
  - constructor; [done|]. rewrite insert_by_perm. constructor; [|done].
    destruct (before_total x y); [congruence|done].
Qed.

Lemma order_by_sorted (l : list A) :
  StronglySorted (λ a b, before a b = true) (order_by before l).
Proof.
  induction l as [|x l IH]; simpl; [constructor|]. by apply insert_by_sorted.
Qed.
End total_orderings.

Lemma desc_total {A} (key : A → nat) x y : desc key x y = true ∨ desc key y x = true.
Proof. unfold desc. destruct (decide (key y ≤ key x)); [left|right];
  apply bool_decide_eq_true; lia. Qed.

Lemma desc_trans {A} (key : A → nat) x y z :
  desc key x y = true → desc key y z = true → desc key x z = true.
Proof. unfold desc. rewrite !bool_decide_eq_true. lia. Qed.

Lemma asc_total {A} (key : A → nat) x y : asc key x y = true ∨ asc key y x = true.
Proof. unfold asc. destruct (decide (key x ≤ key y)); [left|right];
  apply bool_decide_eq_true; lia. Qed.

Lemma asc_trans {A} (key : A → nat) x y z :
  asc key x y = true → asc key y z = true → asc key x z = true.
Proof. unfold asc. rewrite !bool_decide_eq_true. lia. Qed.

Lemma by_score_then_recent_spec x y :
  by_score_then_recent x y = true
  ↔ (score y < score x)%Q
    ∨ ((score y == score x)%Q ∧ attempt_completed_at y ≤ attempt_completed_at x).
Proof.
  unfold by_score_then_recent.
  destruct (score x ?= score y)%Q eqn:Hc.
  - apply Qeq_alt in Hc. rewrite bool_decide_eq_true. split.
    + intros ?. right. split; [by symmetry|done].
    + intros [Hlt|[_ ?]]; [|done]. rewrite Hc in Hlt. by apply Qlt_irrefl in Hlt.
  - apply Qlt_alt in Hc. split; [done|].
    intros [Hlt|[Heq _]].
    + destruct (Qlt_irrefl (score x)). by eapply Qlt_trans.
    + rewrite Heq in Hc. by apply Qlt_irrefl in Hc.
  - apply Qgt_alt in Hc. split; [by left|done].
Qed.

Lemma by_score_then_recent_total x y :
  by_score_then_recent x y = true ∨ by_score_then_recent y x = true.
Proof.
  rewrite !by_score_then_recent_spec.
  destruct (Q_dec (score x) (score y)) as [[Hlt|Hgt]|Heq]; [by right; left|by left; left|].
  destruct (decide (attempt_completed_at y ≤ attempt_completed_at x)).
  - left. right. split; [by symmetry|done].
  - right. right. split; [done|lia].
Qed.

Lemma by_score_then_recent_trans x y z :
  by_score_then_recent x y = true → by_score_then_recent y z = true →
  by_score_then_recent x z = true.
Proof.
  rewrite !by_score_then_recent_spec.
  intros [H1|[H1 H1']] [H2|[H2 H2']].
  - left. by eapply Qlt_trans.
  - left. by rewrite H2.
  - left. by rewrite <- H1.
  - right. split; [by rewrite H2|lia].
Qed.

(** ** The best attempt *)

(** X4.  With unique module ids, [quiz_best_attempt] writes nothing and always
    answers.  The answer is the plain 404 exactly when no active module has
    the id (the module is missing or inactive); for an active module it is
    404 with a message when the learner has no attempt on it, and otherwise
    200 with an attempt of that learner on that module whose score no other
    attempt exceeds, and which is the most recently completed among those of
    equal score. *)
Theorem quiz_best_attempt_is_best db user module_pk :
  NoDup (module_id <$> modules db) →
  (quiz_best_attempt user module_pk db).1 = db
  ∧ match (quiz_best_attempt user module_pk db).2 with
    | inl _ => False
    | inr response =>
        let mine := filter (λ a, attempt_user a = user_id user
                                 ∧ attempt_module a = module_pk) (quiz_attempts db) in
        match data response with
        | BestHttp404 =>
            status_code response = HTTP_404_NOT_FOUND
            ∧ ∀ m, m ∈ modules db → module_id m = module_pk → module_is_active m = false
        | BestMissing message =>
            status_code response = HTTP_404_NOT_FOUND
            ∧ message = "Aucune tentative trouvée pour ce module"
            ∧ (∃ module, module ∈ modules db ∧ module_id module = module_pk
                         ∧ module_is_active module = true)
            ∧ mine = []
        | BestFound best module =>
            status_code response = HTTP_200_OK
            ∧ module ∈ modules db ∧ module_id module = module_pk
            ∧ module_is_active module = true
            ∧ best ∈ mine
            ∧ ∀ a, a ∈ mine →
                   (score a <= score best)%Q
                   ∧ ((score a == score best)%Q →
                      attempt_completed_at a ≤ attempt_completed_at best)
        end
    end.
Proof.
  intros Hpk. unfold quiz_best_attempt.
  erewrite bind_run by reflexivity.
  unfold mbind at 1 3, DbM_bind at 1 3, lift, get_object_or_404. simpl.
  destruct (get _ (modules db)) as [[]|module] eqn:Hget; simpl.
  - split; [done|]. split; [done|]. intros m Hm Hid.
    pose proof (proj1 (get_DoesNotExist _ _) Hget m Hm) as Hnot. simpl in Hnot.
    destruct (module_is_active m); [|done]. by destruct Hnot.
  - exfalso. revert Hget. apply (get_not_multiple module_id); [done|].
    intros y y' [??] [??]. congruence.
  - exfalso. revert Hget. apply get_not_IntegrityError.
  - apply get_inr in Hget as (Hm & [Hid Hact] & _). subst module_pk.
    unfold mbind, DbM_bind, query. simpl.
    destruct (first _) as [best|] eqn:Hbest; simpl.
    + split; [done|]. split; [done|].
      apply (first_order_by_best _ by_score_then_recent_total
               by_score_then_recent_trans) in Hbest as [Hin Hmax].
      repeat split; try done.
      * apply Hmax, by_score_then_recent_spec in H as [?|[-> _]];
          [by apply Qlt_le_weak|apply Qle_refl].
      * intros Heq. apply Hmax, by_score_then_recent_spec in H as [Hlt|[_ ?]]; [|done].
        rewrite Heq in Hlt. by apply Qlt_irrefl in Hlt.
    + split; [done|]. split; [done|]. split; [done|]. split; [by exists module|].
      by apply first_order_by_None in Hbest.
Qed.

Lemma quiz_best_attempt_is_best_witness :
  ∃ best module,
    (quiz_best_attempt awa 1 twice_passed_db).2
    = inr {| status_code := HTTP_200_OK; data := BestFound best module |}
    ∧ (score best == 100)%Q
    ∧ ∀ a, a ∈ quiz_attempts twice_passed_db → attempt_user a = 1 →
           attempt_module a = 1 → (score a <= score best)%Q.
Proof.
  pose proof (quiz_best_attempt_is_best twice_passed_db awa 1) as [_ Hbest];
    [compute_done|].
  assert (∃ best module,
    (quiz_best_attempt awa 1 twice_passed_db).2
    = inr {| status_code := HTTP_200_OK; data := BestFound best module |}
    ∧ (score best == 100)%Q) as (best & module & Hrun & Hscore)
    by (eexists _, _; split; [vm_compute; reflexivity|reflexivity]).
  rewrite Hrun in Hbest. simpl in Hbest. destruct Hbest as (_ & _ & _ & _ & _ & Hmax).
  exists best, module. split; [done|]. split; [done|].
  intros a Ha Hu Hm. apply Hmax. by apply list_elem_of_filter.
Defined.

(** ** Listings *)

Lemma StronglySorted_weaken {A} (R S : A → A → Prop) l :
  (∀ x y, R x y → S x y) → StronglySorted R l → StronglySorted S l.
Proof.
  intros HRS. induction 1 as [|x l _ IH Hx]; constructor; [done|].
  eapply Forall_impl; [exact Hx|]. intros y. apply HRS.
Qed.

(** X5.  [user_quiz_attempts] writes nothing; when it answers with a list, the
    list holds exactly the learner's attempts (on the given module, when a
    module id other than 0 is given), the most recently completed first. *)
Theorem user_quiz_attempts_recent_first db user module_pk :
  (user_quiz_attempts user module_pk db).1 = db
  ∧ ∀ response l,
      (user_quiz_attempts user module_pk db).2 = inr response →
      data response = AttemptList l →
      status_code response = HTTP_200_OK
      ∧ StronglySorted (λ a b, attempt_completed_at b ≤ attempt_completed_at a) l
      ∧ ∀ a, a ∈ l
             ↔ a ∈ quiz_attempts db ∧ attempt_user a = user_id user
               ∧ match module_pk with
                 | Some (S n) => attempt_module a = S n
                 | _ => True
                 end.
Proof.
  assert (∀ l : list UserQuizAttempt,
            StronglySorted (λ a b, attempt_completed_at b ≤ attempt_completed_at a)
              (order_by (desc attempt_completed_at) l)) as Hsorted.
  { intros l. eapply StronglySorted_weaken;
      [|apply (order_by_sorted _ (desc_total attempt_completed_at)
                 (desc_trans attempt_completed_at))].
    intros a b Hab. simpl in Hab. unfold desc in Hab.
    by apply bool_decide_eq_true in Hab. }
  unfold user_quiz_attempts. erewrite bind_run by reflexivity.
  destruct module_pk as [[|n]|].
  - split; [done|]. intros response l [= <-] [= <-]. split; [done|].
    split; [apply Hsorted|]. intros a.
    rewrite order_by_perm, list_elem_of_filter. tauto.
  - erewrite bind_run by reflexivity.
    unfold mbind, DbM_bind, lift, get_object_or_404. simpl.
    destruct (get _ (modules db)) as [[]|module] eqn:Hget; simpl;
      try (split; [done|]; by intros response l [= <-]).
    apply get_inr in Hget as (_ & [Hid _] & _).
    split; [done|]. intros response l [= <-] [= <-]. split; [done|].
    split; [apply Hsorted|]. intros a.
    rewrite order_by_perm, !list_elem_of_filter, Hid. tauto.
  - split; [done|]. intros response l [= <-] [= <-]. split; [done|].
    split; [apply Hsorted|]. intros a.
    rewrite order_by_perm, list_elem_of_filter. tauto.
Qed.

(** ** Module status *)

Lemma for_each_lift {A B} (g : A → Exception + B) l ys db :
  Forall2 (λ x y, g x = inr y) l ys →
  for_each (λ x, lift (g x)) l db = (db, inr ys).
Proof.
  induction 1 as [|x y l ys Hxy _ IH]; [done|]. simpl.
  erewrite bind_run by (unfold lift; by rewrite Hxy).
  erewrite bind_run by apply IH. done.
Qed.

Lemma module_status_french db user module :
  preferred_language user = "FR" →
  Forall (λ a, is_passed a = Qle_bool 80 (score a)) (quiz_attempts db) →
  ∃ s, module_status db user module = inr s
       ∧ status_module s = module
       ∧ (status_is_completed s = true
          ↔ number module ≠ 10
            ∧ ∃ a, a ∈ quiz_attempts db ∧ attempt_user a = user_id user
                   ∧ attempt_module a = module_id module ∧ is_passed a = true).
Proof.
  intros Hfr Hinv. unfold module_status, is_reporting_module.
  case_bool_decide as Hrep.
  { eexists. split; [done|]. split; [done|]. simpl. split; [done|]. by intros [? _]. }
  rewrite decide_True by done.
  destruct (first _) as [best|] eqn:Hbest.
  - eexists. split; [done|]. split; [done|]. simpl.
    apply first_descQ_max in Hbest as [[[Hu Hm] Hin]%list_elem_of_filter Hmax].
    split.
    + intros Hp. split; [done|]. by exists best.
    + intros [_ (a & Ha & Hau & Ham & Hap)].
      rewrite Forall_forall in Hinv.
      rewrite (Hinv best Hin). rewrite (Hinv a Ha) in Hap.
      apply Qle_bool_iff. apply Qle_bool_iff in Hap.
      eapply Qle_trans; [exact Hap|]. apply Hmax. by apply list_elem_of_filter.
  - eexists. split; [done|]. split; [done|]. simpl. split; [done|].
    intros [_ (a & Ha & Hau & Ham & _)]. apply first_order_by_None in Hbest.
    assert (a ∈ @nil UserQuizAttempt) as Hnil; [|by apply elem_of_nil in Hnil].
    rewrite <- Hbest. by apply list_elem_of_filter.
Qed.

(** X6.  For a French-track learner, and attempts that carry the pass flag of
    their score, [user_module_status] lists the active modules by number and
    shows a module completed exactly when it is not the reporting module
    and the learner has a passing attempt on it. *)
Theorem user_module_status_french db user :
  preferred_language user = "FR" →
  Forall (λ a, is_passed a = Qle_bool 80 (score a)) (quiz_attempts db) →
  ∃ statuses,
    user_module_status user db
    = (db, inr {| status_code := HTTP_200_OK; data := ("FR"%string, statuses) |})
    ∧ status_module <$> statuses
      = order_by (asc number) (filter (λ m, module_is_active m = true) (modules db))
    ∧ Forall (λ s,
        status_is_completed s = true
        ↔ number (status_module s) ≠ 10
          ∧ ∃ a, a ∈ quiz_attempts db ∧ attempt_user a = user_id user
                 ∧ attempt_module a = module_id (status_module s)
                 ∧ is_passed a = true) statuses.
Proof.
  intros Hfr Hinv.
  set (ms := order_by (asc number) (filter (λ m, module_is_active m = true) (modules db))).
  assert (∃ statuses,
            Forall2 (λ m s, module_status db user m = inr s) ms statuses
            ∧ status_module <$> statuses = ms
            ∧ Forall (λ s,
                status_is_completed s = true
                ↔ number (status_module s) ≠ 10
                  ∧ ∃ a, a ∈ quiz_attempts db ∧ attempt_user a = user_id user
                         ∧ attempt_module a = module_id (status_module s)
                         ∧ is_passed a = true) statuses)
    as (statuses & Hall & Hms & Hstatus).
  { induction ms as [|m ms (statuses & Hall & Hms & Hstatus)].
    - exists []. by repeat split.
    - destruct (module_status_french db user m Hfr Hinv) as (s & Hs & Hm & Hc).
      exists (s :: statuses). split; [by constructor|]. split.
      + rewrite fmap_cons. congruence.
      + constructor; [by rewrite Hm|done]. }
  exists statuses. split; [|done]. unfold user_module_status.
  erewrite bind_run by reflexivity.
  erewrite bind_run by (by apply for_each_lift).
  by rewrite Hfr.
Qed.

Lemma user_module_status_french_witness :
  ∃ statuses,
    user_module_status awa twice_passed_db
    = (twice_passed_db,
       inr {| status_code := HTTP_200_OK; data := ("FR"%string, statuses) |})
    ∧ status_module <$> statuses = [module_1; module_2]
    ∧ status_is_completed <$> statuses = [true; false].
Proof.
  destruct (user_module_status_french twice_passed_db awa) as (statuses & Hrun & Hm & _).
  - reflexivity.
  - repeat constructor.
  - exists statuses. split; [done|]. split; [done|].
    vm_compute in Hrun. by injection Hrun as <-.
Defined.

(** ** What the audio views may store *)

Lemma AudioProgressSerializer_inr d db data :
  (AudioProgressSerializer d db).2 = inr (inr data) →
  (0 <= validated_progress_percentage data)%Q
  ∧ (validated_progress_percentage data <= 100)%Q.
Proof.
  unfold AudioProgressSerializer. intros (db0 & m & _ & H)%bind_inv.
  unfold validate_progress_percentage in H. simpl in H.
  destruct m as [?|m]; [done|].
  destruct (Qle_bool 0 _) eqn:H0; [|done]. simpl in H.
  destruct (Qle_bool _ 100) eqn:H100; [|done]. simpl in H.
  destruct (validate_current_time _); [done|]. injection H as <-. simpl.
  split; by apply Qle_bool_iff.
Qed.

Lemma ModuleProgress_pre_save_sound now r :
  (0 <= progress_percentage r)%Q → (progress_percentage r <= 100)%Q →
  (is_completed r = true → (progress_percentage r == 100)%Q) →
  progress_sound (ModuleProgress_pre_save now r).
Proof.
  intros H0 H100 Hc. unfold ModuleProgress_pre_save, progress_sound.
  destruct (is_completed r) eqn:E; [destruct (progress_completed_at r)|]; simpl;
    repeat split; try done; try (by eexists); try (by intros [? [=]]); auto.
Qed.

Lemma update_row_Forall {A} (P : A → Prop) (pk : A → nat) r l :
  Forall P l → P r → Forall P (update_row pk r l).
Proof.
  intros Hl Hr. unfold update_row. apply Forall_fmap.
  eapply Forall_impl; [exact Hl|]. intros x Hx. simpl. by case_decide.
Qed.

Lemma with_module_progress_id db : with_module_progress (λ _, module_progress db) db = db.
Proof. by destruct db. Qed.

(** However a call ends, it writes the audio records only and leaves them
    sound. *)
Lemma track_audio_progress_stored db now user d db' r :
  track_audio_progress now user d db = (db', r) →
  Forall progress_sound (module_progress db) →
  ∃ l, db' = with_module_progress (λ _, l) db ∧ Forall progress_sound l.
Proof.
  intros H Hsound.
  assert (∃ l, db = with_module_progress (λ _, l) db ∧ Forall progress_sound l) as Hsame
    by (exists (module_progress db); by rewrite with_module_progress_id).
  unfold track_audio_progress in H.
  unfold mbind at 1 in H. unfold DbM_bind at 1 in H.
  pose proof (read_only_AudioProgressSerializer d db) as Hro.
  pose proof (AudioProgressSerializer_inr d db) as Hrange.
  destruct (AudioProgressSerializer d db) as [db0 [e|[errors|data]]];
    simpl in Hro; subst db0;
    [by injection H as <- <-|by injection H as <- <-|].
  destruct (Hrange data eq_refl) as [H0 H100]. clear Hrange.
  erewrite bind_run in H by reflexivity.
  unfold mbind at 1 in H. unfold DbM_bind at 1 in H. unfold lift at 1 in H.
  destruct (get _ (modules db)) as [e|module]; [by injection H as <- <-|].
  case_decide; [by injection H as <- <-|].
  set (p := validated_progress_percentage data) in *.
  set (t := validated_current_time data) in *.
  unfold mbind at 1 in H. unfold DbM_bind at 1 in H.
  rewrite ModuleProgress_get_or_create_run in H.
  destruct (get _ (module_progress db)) as [[]|old] eqn:Hget;
    [|by injection H as <- <-|by injection H as <- <-|].
  - (* created *)
    cbv zeta in H. simpl fst in H. simpl snd in H. cbv iota in H.
    erewrite bind_run in H by reflexivity.
    set (r0 := ModuleProgress_pre_save now _) in H.
    assert (progress_sound r0) as Hr0 by (by apply ModuleProgress_pre_save_sound).
    assert (progress_percentage r0 = p) as Hp0
      by (by destruct (ModuleProgress_pre_save_fields now
                         {| progress_id := next_pk (progress_id <$> module_progress db);
                            progress_user := user_id user;
                            progress_module := module_id module;
                            progress_percentage := p; is_completed := false;
                            last_audio_position := t; total_listening_time := 0;
                            listening_sessions := 0; progress_started_at := now;
                            progress_updated_at := now;
                            progress_completed_at := None |}) as (_ & _ & _ & ? & _)).
    destruct (Qle_bool 100 p) eqn:Hfull.
    + unfold ModuleProgress_save in H.
      erewrite bind_run in H by (erewrite bind_run by reflexivity; reflexivity).
      injection H as <- <-. eexists. split; [reflexivity|]. simpl.
      apply update_row_Forall; [apply Forall_app; split; [done|by constructor]|].
      apply ModuleProgress_pre_save_sound; simpl; rewrite ?Hp0; try done.
      intros _. apply Qle_antisym; [done|]. by apply Qle_bool_iff.
    + erewrite bind_run in H by reflexivity. injection H as <- <-.
      eexists. split; [reflexivity|]. simpl. apply Forall_app. split; [done|by constructor].
  - (* the record exists *)
    cbv zeta in H. simpl fst in H. simpl snd in H. cbv iota in H.
    apply get_inr in Hget as (Hold & _ & _).
    pose proof (proj1 (Forall_forall _ _) Hsound old Hold) as (Ho0 & Ho100 & Hoc & Hofull).
    assert (∃ l1 r1,
      (if Qlt_le_dec (progress_percentage old) p
       then ModuleProgress_save now (set_progress p t now old)
       else mret old : DbM ModuleProgress) db
      = (with_module_progress (λ _, l1) db, inr r1)
      ∧ Forall progress_sound l1 ∧ progress_sound r1
      ∧ (100 <= p → progress_percentage r1 == 100)%Q)
      as (l1 & r1 & Hrun1 & Hl1 & Hr1 & Hfull1).
    { destruct (Qlt_le_dec (progress_percentage old) p) as [Hlt|Hle].
      - eexists _, _. split; [reflexivity|].
        assert (progress_sound (ModuleProgress_pre_save now (set_progress p t now old)))
          as Hs.
        { apply ModuleProgress_pre_save_sound; simpl; try done.
          intros Hc. apply Hofull in Hc. exfalso.
          apply (Qlt_not_le _ _ Hlt). rewrite Hc. done. }
        split; [by apply update_row_Forall|]. split; [done|].
        destruct (ModuleProgress_pre_save_fields now (set_progress p t now old))
          as (_ & _ & _ & -> & _). simpl. intros Hp. by apply Qle_antisym.
      - exists (module_progress db), old. rewrite with_module_progress_id.
        split; [done|]. split; [done|]. split; [done|].
        intros Hp. apply Qle_antisym; [done|]. by eapply Qle_trans. }
    erewrite bind_run in H by apply Hrun1.
    destruct (Qle_bool 100 p) eqn:Hfull.
    + unfold ModuleProgress_save in H.
      erewrite bind_run in H by (erewrite bind_run by reflexivity; reflexivity).
      injection H as <- <-. eexists. split; [reflexivity|]. simpl.
      apply update_row_Forall; [done|].
      destruct Hr1 as (? & ? & _ & _).
      apply ModuleProgress_pre_save_sound; simpl; try done.
      intros _. apply Hfull1. by apply Qle_bool_iff.
    + erewrite bind_run in H by reflexivity. injection H as <- <-.
      by exists l1.
Qed.

(** X7.  Whatever the calls and however each ends, [track_audio_progress]
    writes the audio records only, and every record keeps a percentage
    between 0 and 100, a completion date exactly when it is completed, and
    100 % once completed. *)
Theorem track_all_keeps_progress_sound user calls db :
  Forall progress_sound (module_progress db) →
  ∃ l, track_all user calls db = with_module_progress (λ _, l) db
       ∧ Forall progress_sound l.
Proof.
  revert db. induction calls as [|[now d] calls IH]; intros db Hdb.
  - exists (module_progress db). by rewrite with_module_progress_id.
  - simpl. destruct (track_audio_progress now user d db) as [db' r] eqn:H. simpl.
    apply track_audio_progress_stored in H as (l & -> & Hl); [|done].
    destruct (IH (with_module_progress (λ _, l) db) Hl) as (l' & -> & Hl').
    by exists l'.
Qed.

Lemma track_all_keeps_progress_sound_witness :
  ∃ l, track_all codjo sample_calls sample_db = with_module_progress (λ _, l) sample_db
       ∧ Forall progress_sound l.
Proof. apply (track_all_keeps_progress_sound codjo sample_calls sample_db). constructor. Defined.

(** X8.  A learner whose language is not Fon never gets audio progress stored:
    the database is left as it was and the answer, if any, is 400. *)
Theorem track_audio_progress_fon_only db now user d :
  preferred_language user ≠ "FON" →
  (track_audio_progress now user d db).1 = db
  ∧ ∀ response, (track_audio_progress now user d db).2 = inr response →
                status_code response = HTTP_400_BAD_REQUEST.
Proof.
  intros Hlang. destruct (track_audio_progress now user d db) as [db' r] eqn:H. simpl.
  unfold track_audio_progress in H.
  unfold mbind at 1 in H. unfold DbM_bind at 1 in H.
  pose proof (read_only_AudioProgressSerializer d db) as Hro.
  destruct (AudioProgressSerializer d db) as [db0 [e|[errors|data]]];
    simpl in Hro; subst db0;
    [injection H as <- <-; by split
    |injection H as <- <-; by split; [|intros ? [= <-]]|].
  erewrite bind_run in H by reflexivity.
  unfold mbind at 1 in H. unfold DbM_bind at 1 in H. unfold lift at 1 in H.
  destruct (get _ (modules db)) as [e|module]; [injection H as <- <-; by split|].
  rewrite decide_True in H by done.
  injection H as <- <-. by split; [|intros ? [= <-]].
Qed.

Lemma track_audio_progress_fon_only_witness :
  (track_audio_progress 9 awa
     {| audio_module_id := 1; audio_progress_percentage := 50; current_time := 10 |}
     sample_db).1 = sample_db.
Proof.
  apply (track_audio_progress_fon_only sample_db 9 awa
           {| audio_module_id := 1; audio_progress_percentage := 50;
              current_time := 10 |}).
  simpl. discriminate.
Defined.

(** ** Starting a module *)

(** X9.  [mark_module_started] answers 404, writing nothing, exactly when no
    active module has the id (the module is missing or inactive).  For an
    active module it answers 200 with the module's number in the message and
    the learner's record for the module: the record that was there,
    untouched, or else a new one at 0 %, not completed, appended to the
    table; and it logs one MODULE_VIEW activity for the learner and the
    module. *)
Theorem mark_module_started_keeps_progress db now user module_pk db' response :
  mark_module_started now user module_pk db = (db', inr response) →
  match data response with
  | StartedHttp404 =>
      status_code response = HTTP_404_NOT_FOUND ∧ db' = db
      ∧ ∀ m, m ∈ modules db → module_id m = module_pk → module_is_active m = false
  | Started message progress =>
      status_code response = HTTP_200_OK
      ∧ (∃ module, module ∈ modules db ∧ module_id module = module_pk
                   ∧ module_is_active module = true
                   ∧ message = "Module " +:+ pretty (number module)
                               +:+ " marqué comme commencé")
      ∧ stored_progress db' (user_id user) module_pk = inr progress
      ∧ match stored_progress db (user_id user) module_pk with
        | inr old => progress = old ∧ module_progress db' = module_progress db
        | inl _ =>
            module_progress db' = module_progress db ++ [progress]
            ∧ (progress_percentage progress == 0)%Q ∧ is_completed progress = false
        end
      ∧ ∃ activity,
          activities db' = activities db ++ [activity]
          ∧ activity_user activity = user_id user
          ∧ activity_type activity = "MODULE_VIEW"
          ∧ activity_module activity = Some module_pk
  end.
Proof.
  unfold mark_module_started. intros H.
  erewrite bind_run in H by reflexivity.
  unfold mbind at 1 in H. unfold DbM_bind at 1 in H.
  unfold lift at 1, get_object_or_404 at 1 in H.
  destruct (get _ (modules db)) as [[]|module] eqn:Hget; try discriminate H.
  - injection H as <- <-. simpl. split; [done|]. split; [done|].
    intros m Hm Hid. pose proof (proj1 (get_DoesNotExist _ _) Hget m Hm) as Hnot.
    simpl in Hnot. destruct (module_is_active m); [by destruct Hnot|done].
  - apply get_inr in Hget as (Hin & [Hid Hactive] & _). rewrite Hid in H.
    unfold mbind at 1 in H. unfold DbM_bind at 1 in H.
    rewrite ModuleProgress_get_or_create_run in H.
    unfold stored_progress.
    destruct (get _ (module_progress db)) as [[]|old] eqn:Hold; try discriminate H.
    + cbv beta iota zeta in H. simpl fst in H.
      erewrite bind_run in H by reflexivity.
      injection H as <- <-. simpl.
      pose proof (proj1 (get_DoesNotExist _ _) Hold) as Hnone.
      split; [done|]. split; [by exists module|]. split; [|split; [done|by eexists]].
      unfold get. rewrite filter_app, (filter_none _ _ Hnone).
      by rewrite filter_cons_True.
    + cbv beta iota zeta in H. simpl fst in H.
      erewrite bind_run in H by reflexivity.
      injection H as <- <-. simpl. split; [done|]. split; [by exists module|].
      split; [done|]. split; [done|by eexists].
Qed.

Lemma mark_module_started_keeps_progress_witness :
  ∃ progress,
    stored_progress (mark_module_started 9 codjo 1 listened_db).1 2 1 = inr progress
    ∧ stored_progress listened_db 2 1 = inr progress.
Proof.
  destruct (mark_module_started 9 codjo 1 listened_db) as [db' [e|response]] eqn:H;
    [by vm_compute in H|].
  pose proof (mark_module_started_keeps_progress listened_db 9 codjo 1 db' response H)
    as Hkept.
  assert (∃ message progress, data response = Started message progress)
    as (message & progress & Hdata)
    by (vm_compute in H; injection H as _ <-; by eexists _, _).
  rewrite Hdata in Hkept. destruct Hkept as (_ & _ & Hstored & Hold & _).
  exists progress. split; [done|].
  destruct (stored_progress listened_db (user_id codjo) 1) as [e|old] eqn:Hget;
    [by vm_compute in Hget|].
  destruct Hold as [-> _]. done.
Defined.

(** X10.  A module that is started first and listened to afterwards ends at the
    largest percentage reported: the record made by [mark_module_started]
    counts as 0 %. *)
Theorem started_then_tracked db user m now calls :
  consistent db → preferred_language user = "FON" →
  m ∈ modules db → module_is_active m = true →
  Forall (λ c, valid_audio_call db m c.2) calls →
  stored_progress db (user_id user) (module_id m) = inl DoesNotExist →
  ∃ r, stored_progress
         (track_all user calls (mark_module_started now user (module_id m) db).1)
         (user_id user) (module_id m) = inr r
       ∧ (progress_percentage r
          == max_percentage 0 ((λ c, audio_progress_percentage c.2) <$> calls))%Q.
Proof.
  intros Hdb Hfon Hm Hactive Hcalls Hnone.
  pose proof (modules_pk db Hdb) as Hmpk.
  pose proof (progress_pk db Hdb) as Hpk.
  pose proof (progress_unique db Hdb) as Hkey. fold progress_key in Hkey.
  unfold stored_progress in Hnone.
  set (r0 := ModuleProgress_pre_save now
          {| progress_id := next_pk (progress_id <$> module_progress db);
             progress_user := user_id user; progress_module := module_id m;
             progress_percentage := 0; is_completed := false;
             last_audio_position := 0; total_listening_time := 0;
             listening_sessions := 0; progress_started_at := now;
             progress_updated_at := now; progress_completed_at := None |}).
  assert (∃ acts, (mark_module_started now user (module_id m) db).1
          = with_activities (λ _, acts)
              (with_module_progress (λ _, module_progress db ++ [r0]) db))
    as [acts Hrun].
  { unfold mark_module_started. erewrite bind_run by reflexivity.
    erewrite bind_run; cycle 1.
    { unfold lift, get_object_or_404.
      rewrite (get_unique module_id _ (modules db) m Hmpk Hm)
        by (try done; by intros y _ [-> _]).
      reflexivity. }
    cbv beta iota.
    erewrite bind_run by (rewrite ModuleProgress_get_or_create_run, Hnone; reflexivity).
    cbv zeta. erewrite bind_run by reflexivity. by eexists. }
  rewrite Hrun.
  destruct (progress_created (module_progress db) r0 (user_id user) (module_id m))
    as (Hpk0 & Hkey0 & Hget0); try done.
  { exact (proj1 (get_DoesNotExist _ _) Hnone). }
  destruct (track_all_max user m calls
              (with_activities (λ _, acts)
                 (with_module_progress (λ _, module_progress db ++ [r0]) db)) r0)
    as (r & Hr & Hmax).
  - destruct Hdb. by split.
  - done.
  - eapply Forall_impl; [exact Hcalls|]. intros c. by apply valid_audio_call_modules.
  - exact Hget0.
  - exists r. split; [done|]. exact Hmax.
Qed.

Lemma started_then_tracked_witness :
  ∃ r, stored_progress (track_all codjo sample_calls (mark_module_started 0 codjo 1 sample_db).1)
         2 1 = inr r
       ∧ (progress_percentage r == max_percentage 0 [30; 25 # 2; 100; 55])%Q.
Proof.
  apply (started_then_tracked sample_db codjo module_1 0 sample_calls).
  - apply sample_db_consistent.
  - reflexivity.
  - left.
  - reflexivity.
  - apply sample_calls_valid.
  - reflexivity.
Defined.

(** ** The next module *)

Lemma elem_of_module_numbers db ids n :
  n ∈ module_numbers db ids
  ↔ ∃ m, m ∈ modules db ∧ module_id m ∈ ids ∧ number m = n.
Proof.
  unfold module_numbers. rewrite list_elem_of_bind. split.
  - intros (i & (m & -> & [Hid Hm]%list_elem_of_filter)%list_elem_of_fmap & Hi).
    exists m. by rewrite Hid.
  - intros (m & Hm & Hid & <-). exists (module_id m). split; [|done].
    apply list_elem_of_fmap. exists m. split; [done|]. by apply list_elem_of_filter.
Qed.

Lemma elem_of_training_modules db m :
  m ∈ training_modules db
  ↔ m ∈ modules db ∧ module_is_active m = true ∧ number m < 10.
Proof.
  unfold training_modules. rewrite elem_of_order_by, list_elem_of_filter. tauto.
Qed.

Lemma first_asc_min {A} (key : A → nat) l x :
  first (order_by (asc key) l) = Some x → x ∈ l ∧ ∀ y, y ∈ l → key x ≤ key y.
Proof.
  intros [Hx Hmin]%(first_order_by_best _ (asc_total key) (asc_trans key)).
  split; [done|]. intros y Hy. specialize (Hmin y Hy). unfold asc in Hmin.
  by apply bool_decide_eq_true in Hmin.
Qed.

(** With module numbers that are unique, a module's number is among the
    numbers [get_next_module] excludes exactly when the learner is done
    with the module. *)
Lemma finished_numbers db user m :
  NoDup (number <$> modules db) → m ∈ modules db →
  has_finished db user m
  ↔ number m ∈
      (if decide (preferred_language user = "FR") then
         module_numbers db
           (attempt_module <$>
              filter (λ a, attempt_user a = user_id user ∧ is_passed a = true)
                     (quiz_attempts db))
       else
         module_numbers db
           (progress_module <$>
              filter (λ p, progress_user p = user_id user ∧ is_completed p = true)
                     (module_progress db))).
Proof.
  intros Hnd Hm. unfold has_finished. case_decide; rewrite elem_of_module_numbers.
  - split.
    + intros (a & Ha & Hu & Hmo & Hp). exists m. split; [done|]. split; [|done].
      apply list_elem_of_fmap. exists a. split; [done|]. by apply list_elem_of_filter.
    + intros (m' & Hm' & (a & Hid & [[Hu Hp] Ha]%list_elem_of_filter)%list_elem_of_fmap
              & Hnum).
      assert (m' = m) as -> by (by eapply (NoDup_fmap_eq number)).
      by exists a.
  - split.
    + intros (p & Hp & Hu & Hmo & Hc). exists m. split; [done|]. split; [|done].
      apply list_elem_of_fmap. exists p. split; [done|]. by apply list_elem_of_filter.
    + intros (m' & Hm' & (p & Hid & [[Hu Hc] Hp]%list_elem_of_filter)%list_elem_of_fmap
              & Hnum).
      assert (m' = m) as -> by (by eapply (NoDup_fmap_eq number)).
      by exists p.
Qed.

(** X11.  With unique module numbers, [get_next_module] gives the active
    training module of the lowest number the learner is not done with (a
    passing attempt on the French track, a completed audio record
    otherwise), and none exactly when the learner is done with all. *)
Theorem get_next_module_first_open db user :
  NoDup (number <$> modules db) →
  match get_next_module db user with
  | Some next =>
      next ∈ training_modules db ∧ ¬ has_finished db user next
      ∧ ∀ m, m ∈ training_modules db → ¬ has_finished db user m →
             number next ≤ number m
  | None => ∀ m, m ∈ training_modules db → has_finished db user m
  end.
Proof.
  intros Hnd.
  pose proof (finished_numbers db user) as Hfin.
  unfold get_next_module.
  destruct (decide (preferred_language user = "FR")).
  - destruct (first _) as [next|] eqn:Hfirst.
    + apply first_asc_min in Hfirst
        as [[Hopen [Htr Hin]%list_elem_of_filter]%list_elem_of_filter Hmin].
      split; [apply elem_of_training_modules; tauto|].
      split; [by rewrite (Hfin next Hnd Hin)|].
      intros m (Hm & ? & ?)%elem_of_training_modules Hopen'. apply Hmin.
      apply list_elem_of_filter. split; [by rewrite <- (Hfin m Hnd Hm)|].
      by apply list_elem_of_filter.
    + apply first_order_by_None in Hfirst.
      intros m (Hm & ? & ?)%elem_of_training_modules.
      apply (Hfin m Hnd Hm). apply dec_stable. intros Hopen.
      assert (m ∈ @nil Module_) as Hnil; [|by apply elem_of_nil in Hnil].
      rewrite <- Hfirst. apply list_elem_of_filter. split; [done|].
      by apply list_elem_of_filter.
  - destruct (first _) as [next|] eqn:Hfirst.
    + apply first_asc_min in Hfirst
        as [[Hopen [Htr Hin]%list_elem_of_filter]%list_elem_of_filter Hmin].
      split; [apply elem_of_training_modules; tauto|].
      split; [by rewrite (Hfin next Hnd Hin)|].
      intros m (Hm & ? & ?)%elem_of_training_modules Hopen'. apply Hmin.
      apply list_elem_of_filter. split; [by rewrite <- (Hfin m Hnd Hm)|].
      by apply list_elem_of_filter.
    + apply first_order_by_None in Hfirst.
      intros m (Hm & ? & ?)%elem_of_training_modules.
      apply (Hfin m Hnd Hm). apply dec_stable. intros Hopen.
      assert (m ∈ @nil Module_) as Hnil; [|by apply elem_of_nil in Hnil].
      rewrite <- Hfirst. apply list_elem_of_filter. split; [done|].
      by apply list_elem_of_filter.
Qed.

Lemma get_next_module_first_open_witness :
  module_2 ∈ training_modules twice_passed_db
  ∧ ¬ has_finished twice_passed_db awa module_2
  ∧ ∀ m, m ∈ training_modules twice_passed_db → ¬ has_finished twice_passed_db awa m →
         number module_2 ≤ number m.
Proof.
  apply (get_next_module_first_open twice_passed_db awa). compute_done.
Defined.

(** ** Eligibility on the audio track *)

Section counting.
Context {A : Type}.

Lemma NoDup_fmap_filter_key {B C} (f : A → B) (g : A → C) (P : A → Prop)
    `{!∀ x, Decision (P x)} (l : list A) :
  (∀ x y, P x → P y → g x = g y → f x = f y) →
  NoDup (f <$> l) → NoDup (g <$> filter P l).
Proof.
  intros Hkey. induction l as [|x l IH]; [constructor|].
  rewrite fmap_cons. intros [Hx Hnd]%NoDup_cons.
  destruct (decide (P x)) as [HP|HP].
  - rewrite filter_cons_True by done. rewrite fmap_cons. apply NoDup_cons.
    split; [|auto].
    intros (y & Hg & [HPy Hy]%list_elem_of_filter)%list_elem_of_fmap.
    apply Hx, list_elem_of_fmap. exists y. split; [|done]. by apply Hkey.
  - rewrite filter_cons_False by done. auto.
Qed.

Lemma length_eq_covers `{EqDecision A} (l t : list A) :
  NoDup l → NoDup t → (∀ x, x ∈ l → x ∈ t) →
  length l = length t ↔ ∀ x, x ∈ t → x ∈ l.
Proof.
  intros Hl Ht Hsub.
  assert (l ⊆+ t) as Hlt by (by apply NoDup_submseteq).
  split.
  - intros Hlen x Hx.
    assert (l ≡ₚ t) as Hperm by (apply submseteq_length_Permutation; [done|lia]).
    by rewrite Hperm.
  - intros Hcov.
    assert (t ⊆+ l) as Htl by (by apply NoDup_submseteq).
    apply submseteq_length in Hlt, Htl. lia.
Qed.
End counting.

Lemma NoDup_training_modules db :
  NoDup (module_id <$> modules db) → NoDup (module_id <$> training_modules db).
Proof.
  intros Hnd. unfold training_modules. rewrite order_by_perm.
  eapply sublist_NoDup; [exact Hnd|]. apply fmap_sublist, sublist_filter.
Qed.

(** With the uniqueness constraints of the schema, the number of completed
    audio records that refer to a training module reaches the number of
    training modules exactly when every training module has one. *)
Lemma all_audio_completed db user :
  consistent db →
  length (filter (λ p, progress_user p = user
                       ∧ module_in (training_modules db) (progress_module p)
                       ∧ is_completed p = true) (module_progress db))
  = length (training_modules db)
  ↔ ∀ m, m ∈ training_modules db →
         ∃ p, p ∈ module_progress db ∧ progress_user p = user
              ∧ progress_module p = module_id m ∧ is_completed p = true.
Proof.
  intros Hdb.
  set (F := filter _ (module_progress db)).
  assert (NoDup (progress_module <$> F)) as HF.
  { apply (NoDup_fmap_filter_key (λ p, (progress_user p, progress_module p)));
      [|apply Hdb].
    intros x y (-> & _) (-> & _) ->. done. }
  pose proof (NoDup_training_modules db (modules_pk db Hdb)) as HT.
  assert (∀ x, x ∈ progress_module <$> F → x ∈ module_id <$> training_modules db)
    as Hsub.
  { intros x (p & -> & [(_ & Hin & _) _]%list_elem_of_filter)%list_elem_of_fmap.
    exact Hin. }
  pose proof (length_eq_covers _ _ HF HT Hsub) as Hcov.
  rewrite !length_fmap in Hcov. rewrite Hcov. split.
  - intros Hall m Hm.
    assert (module_id m ∈ progress_module <$> F)
      as (p & Hp & [(? & ? & ?) ?]%list_elem_of_filter)%list_elem_of_fmap
      by (apply Hall, list_elem_of_fmap; eauto).
    by exists p.
  - intros Hall x (m & -> & Hm)%list_elem_of_fmap.
    destruct (Hall m Hm) as (p & Hp & Hu & Hmo & Hc).
    apply list_elem_of_fmap. exists p. split; [done|].
    apply list_elem_of_filter. split; [|done]. split; [done|]. split; [|done].
    unfold module_in. rewrite Hmo. apply list_elem_of_fmap. eauto.
Qed.

Lemma get_next_module_None db user :
  NoDup (number <$> modules db) →
  get_next_module db user = None
  ↔ ∀ m, m ∈ training_modules db → has_finished db user m.
Proof.
  intros Hnd.
  pose proof (finished_numbers db user) as Hfin.
  unfold get_next_module.
  destruct (decide (preferred_language user = "FR")).
  - split.
    + intros Hfirst%first_order_by_None m (Hm & ? & ?)%elem_of_training_modules.
      apply (Hfin m Hnd Hm). apply dec_stable. intros Hopen.
      assert (m ∈ @nil Module_) as Hnil; [|by apply elem_of_nil in Hnil].
      rewrite <- Hfirst. apply list_elem_of_filter. split; [done|].
      by apply list_elem_of_filter.
    + intros Hall. rewrite filter_none; [done|].
      intros m [Htr Hm]%list_elem_of_filter Hopen. apply Hopen.
      apply (Hfin m Hnd Hm), Hall, elem_of_training_modules. tauto.
  - split.
    + intros Hfirst%first_order_by_None m (Hm & ? & ?)%elem_of_training_modules.
      apply (Hfin m Hnd Hm). apply dec_stable. intros Hopen.
      assert (m ∈ @nil Module_) as Hnil; [|by apply elem_of_nil in Hnil].
      rewrite <- Hfirst. apply list_elem_of_filter. split; [done|].
      by apply list_elem_of_filter.
    + intros Hall. rewrite filter_none; [done|].
      intros m [Htr Hm]%list_elem_of_filter Hopen. apply Hopen.
      apply (Hfin m Hnd Hm), Hall, elem_of_training_modules. tauto.
Qed.

(** X12.  On the audio track, with the uniqueness constraints of the schema,
    [update_progress] finds the learner eligible for the certificate
    exactly when [get_next_module] has no module left to propose. *)
Theorem audio_eligible_iff_no_next_module db now user self :
  consistent db → NoDup (number <$> modules db) →
  preferred_language user ≠ "FR" →
  can_get_certificate (recompute db now user self) = true
  ↔ get_next_module db user = None.
Proof.
  intros Hdb Hnum Hlang.
  assert (can_get_certificate (recompute db now user self)
          = bool_decide
              (length (filter (λ p, progress_user p = user_id user
                                    ∧ module_in (training_modules db) (progress_module p)
                                    ∧ is_completed p = true) (module_progress db))
               = length (training_modules db))) as ->.
  { unfold recompute. rewrite decide_False by done. reflexivity. }
  rewrite bool_decide_eq_true, (all_audio_completed db (user_id user) Hdb).
  rewrite (get_next_module_None db user Hnum).
  split; intros Hall m Hm; specialize (Hall m Hm); unfold has_finished in *.
  - by rewrite decide_False by done.
  - by rewrite decide_False in Hall by done.
Qed.

Lemma listened_db_consistent : consistent listened_db.
Proof.
  split.
  - vm_compute. compute_done.
  - intros r Hr. vm_compute in Hr. by apply elem_of_nil in Hr.
  - vm_compute. compute_done.
  - vm_compute. compute_done.
  - vm_compute. compute_done.
Qed.

Lemma audio_eligible_iff_no_next_module_witness :
  can_get_certificate (recompute listened_db 9 codjo (enrolled 2 2 false)) = true
  ↔ get_next_module listened_db codjo = None.
Proof.
  apply (audio_eligible_iff_no_next_module listened_db 9 codjo (enrolled 2 2 false)).
  - apply listened_db_consistent.
  - vm_compute. compute_done.
  - simpl. discriminate.
Defined.

(** X13.  [fon_certificate_info] writes nothing and answers 400 to a learner whose
    language is not Fon.  To a learner on the audio track it answers 200
    with the instructions, in which, under the uniqueness constraints of
    the schema, [is_eligible] and [progress_screenshot_required] are set
    exactly when every training module has a completed audio record of the
    learner. *)
Theorem fon_certificate_info_eligibility db user :
  consistent db →
  (preferred_language user ≠ "FON" →
   ∃ error, fon_certificate_info user db
            = (db, inr {| status_code := HTTP_400_BAD_REQUEST;
                          data := FonInfoError error |}))
  ∧ (preferred_language user = "FON" →
     ∃ instructions,
       fon_certificate_info user db
       = (db, inr {| status_code := HTTP_200_OK; data := FonInfo instructions |})
       ∧ progress_screenshot_required instructions
         = is_eligible (completion_status instructions)
       ∧ status_total_modules (completion_status instructions)
         = length (training_modules db)
       ∧ (is_eligible (completion_status instructions) = true
          ↔ ∀ m, m ∈ training_modules db →
                 ∃ p, p ∈ module_progress db ∧ progress_user p = user_id user
                      ∧ progress_module p = module_id m ∧ is_completed p = true)).
Proof.
  intros Hdb. unfold fon_certificate_info. split; intros Hlang.
  - erewrite bind_run by reflexivity. rewrite decide_True by done. by eexists.
  - erewrite bind_run by reflexivity. rewrite decide_False by (intros ?; congruence).
    eexists. split; [reflexivity|]. split; [done|]. split; [done|].
    simpl. rewrite bool_decide_eq_true. apply all_audio_completed, Hdb.
Qed.

Lemma fon_certificate_info_eligibility_witness :
  ∃ instructions,
    fon_certificate_info codjo listened_db
    = (listened_db, inr {| status_code := HTTP_200_OK; data := FonInfo instructions |})
    ∧ progress_screenshot_required instructions
      = is_eligible (completion_status instructions)
    ∧ status_total_modules (completion_status instructions)
      = length (training_modules listened_db)
    ∧ (is_eligible (completion_status instructions) = true
       ↔ ∀ m, m ∈ training_modules listened_db →
              ∃ p, p ∈ module_progress listened_db ∧ progress_user p = user_id codjo
                   ∧ progress_module p = module_id m ∧ is_completed p = true).
Proof.
  apply (proj2 (fon_certificate_info_eligibility listened_db codjo listened_db_consistent)).
  reflexivity.
Defined.

(** ** What a certificate request may do *)

(** The four ways in which [request_certificate] answers. *)
Lemma request_certificate_cases db now random uuid4 user sent db' response :
  request_certificate now random uuid4 user sent db = (db', inr response) →
  (preferred_language user ≠ "FR" ∧ db' = db
   ∧ response = {| status_code := HTTP_200_OK;
                   data := ManualVerification
                             (FonUserProgressSerializer_to_representation db user) |})
  ∨ (preferred_language user = "FR" ∧ db' = db
     ∧ ∃ existing,
         existing ∈ certificates db ∧ cert_user existing = user_id user
         ∧ is_valid existing = true
         ∧ response = {| status_code := HTTP_200_OK;
                         data := CertificateMessage "Vous avez déjà un certificat valide"
                                                    existing |})
  ∨ (preferred_language user = "FR" ∧ db' = db
     ∧ ∃ errors, response = {| status_code := HTTP_400_BAD_REQUEST;
                               data := RequestErrors errors |})
  ∨ (preferred_language user = "FR"
     ∧ (∀ c, c ∈ certificates db → ¬ (cert_user c = user_id user ∧ is_valid c = true))
     ∧ ∃ name certificate progress,
         (CertificateRequestSerializer user sent db).2 = inr (inr name)
         ∧ ¬ Exists (λ r, certificate_id r = uuid4
                          ∨ verification_code r
                            = string_of_list_ascii (random_choices random code_alphabet 12))
                    (certificates db)
         ∧ certificate
           = {| cert_id := next_pk (cert_id <$> certificates db);
                cert_user := user_id user; certificate_id := uuid4;
                verification_code :=
                  string_of_list_ascii (random_choices random code_alphabet 12);
                cert_full_name := (if decide (name = "") then full_name user else name);
                completion_date := now;
                total_modules_completed := length (best_scores db (user_id user));
                average_score :=
                  Some match best_scores db (user_id user) with
                       | [] => 0%Q
                       | _ :: _ => mean (best_scores db (user_id user))
                       end;
                is_valid := true; signed_by := ""; signature_date := None |}
         ∧ get (λ p, overall_user p = user_id user) (overall_progress db) = inr progress
         ∧ db' = with_activities (λ rows, rows ++
                   [{| activity_id := next_pk (activity_id <$> rows);
                       activity_user := user_id user;
                       activity_type := "CERTIFICATE_REQUEST"; activity_module := None;
                       details := [("certificate_id", pretty uuid4)];
                       timestamp := now |}])
                 (with_overall_progress
                    (update_row overall_id (set_certificate_requested now progress))
                    (with_certificates (λ rows, rows ++ [certificate]) db))
         ∧ response = {| status_code := HTTP_201_CREATED;
                         data := CertificateMessage "Certificat généré avec succès"
                                                    certificate |}).
Proof.
  unfold request_certificate. intros H.
  erewrite bind_run in H by reflexivity.
  case_decide as Hlang; [injection H as <- <-; by left|].
  destruct (first _) as [existing|] eqn:Hfirst.
  { injection H as <- <-. right. left. split; [done|]. split; [done|].
    apply first_desc_max in Hfirst as [[[??] ?]%list_elem_of_filter _].
    by exists existing. }
  apply first_order_by_None in Hfirst.
  assert (∀ c, c ∈ certificates db → ¬ (cert_user c = user_id user ∧ is_valid c = true))
    as Hnone.
  { intros c Hc HP. assert (c ∈ @nil Certificate) as Hnil; [|by apply elem_of_nil in Hnil].
    rewrite <- Hfirst. by apply list_elem_of_filter. }
  unfold mbind at 1 in H. unfold DbM_bind at 1 in H.
  pose proof (read_only_CertificateRequestSerializer user sent db) as Hro.
  destruct (CertificateRequestSerializer user sent db) as [db0 [e|[errors|name]]]
    eqn:Hser; simpl in Hro; subst db0; [discriminate H| |].
  { injection H as <- <-. right. right. left. split; [done|]. split; [done|]. by eexists. }
  unfold mbind at 1 in H. unfold DbM_bind at 1 in H.
  rewrite Certificate_create_run in H.
  case_decide as Hfresh; [discriminate H|].
  erewrite bind_run in H by reflexivity.
  unfold mbind at 1 in H. unfold DbM_bind at 1 in H. unfold lift at 1 in H.
  simpl in H.
  destruct (get _ (overall_progress db)) as [e|progress] eqn:Hget; [discriminate H|].
  injection H as <- <-. right. right. right. split; [done|]. split; [done|].
  eexists name, _, progress. split; [done|]. split; [exact Hfresh|].
  split; [reflexivity|]. split; [done|]. split; reflexivity.
Qed.

Lemma validate_full_name_inr full_name name :
  validate_full_name full_name = inr name →
  name ≠ "" ∧ len name ≤ 100 ∧ has_null_character name = false
  ∧ ∃ value, full_name = Some value ∧ name = strip value.
Proof.
  unfold validate_full_name. destruct full_name as [value|]; [|done].
  case_decide; [done|]. case_decide; [done|].
  destruct (has_null_character (strip value)) eqn:Hnull; [done|]. intros [= <-].
  split; [done|]. split; [lia|]. split; [done|]. by exists value.
Qed.

Lemma CertificateRequestSerializer_inr user full_name db name :
  (CertificateRequestSerializer user full_name db).2 = inr (inr name) →
  validate_full_name full_name = inr name
  ∧ length (training_modules db) ≤ length (passed_modules db (user_id user)).
Proof.
  unfold CertificateRequestSerializer. intros (db0 & x & [= <- <-] & H)%bind_inv.
  destruct (validate_full_name full_name) as [e|value]; [done|].
  unfold CertificateRequestSerializer_validate in H.
  case_decide; [|done]. case_decide; [done|]. injection H as <-.
  split; [done|lia].
Qed.

(** X14.  A 201 answer of [request_certificate] means all of this: the learner is
    on the French track and held no valid certificate; the name sent is
    present and, once trimmed of whitespace, neither empty nor longer than
    100 characters, and free of null characters; the passing attempts the validator counts are at least as
    many as the training modules; the certificate answered is the one row
    added to the table, valid, the learner's, dated now, under the trimmed
    name; the learner's overall progress row is flagged
    [certificate_requested]; one activity is logged; the other tables are
    as before. *)
Theorem request_certificate_created db now random uuid4 user full_name db' response :
  request_certificate now random uuid4 user full_name db = (db', inr response) →
  status_code response = HTTP_201_CREATED →
  ∃ certificate value progress,
    data response = CertificateMessage "Certificat généré avec succès" certificate
    ∧ preferred_language user = "FR"
    ∧ (∀ c, c ∈ certificates db → ¬ (cert_user c = user_id user ∧ is_valid c = true))
    ∧ full_name = Some value ∧ strip value ≠ "" ∧ len (strip value) ≤ 100
    ∧ has_null_character (strip value) = false
    ∧ length (training_modules db) ≤ length (passed_modules db (user_id user))
    ∧ certificates db' = certificates db ++ [certificate]
    ∧ cert_user certificate = user_id user ∧ is_valid certificate = true
    ∧ cert_full_name certificate = strip value
    ∧ completion_date certificate = now
    ∧ get (λ p, overall_user p = user_id user) (overall_progress db) = inr progress
    ∧ overall_progress db'
      = update_row overall_id (set_certificate_requested now progress)
          (overall_progress db)
    ∧ (∃ activity, activities db' = activities db ++ [activity]
                   ∧ activity_user activity = user_id user
                   ∧ activity_type activity = "CERTIFICATE_REQUEST")
    ∧ modules db' = modules db ∧ quiz_attempts db' = quiz_attempts db
    ∧ quiz_answers db' = quiz_answers db ∧ module_progress db' = module_progress db.
Proof.
  intros H Hstatus.
  apply request_certificate_cases in H
    as [(_ & _ & ->)|[(_ & _ & ? & _ & _ & _ & ->)|[(_ & _ & ? & ->)|H]]];
    try discriminate Hstatus.
  destruct H as (Hfr & Hnone & name & certificate & progress & Hser & Hfresh & Hcert
                 & Hget & -> & ->).
  apply CertificateRequestSerializer_inr in Hser as [Hname Hcount].
  apply validate_full_name_inr in Hname as (Hne & Hlen & Hnull & value & -> & ->).
  exists certificate, value, progress.
  rewrite decide_False in Hcert by done. subst certificate. simpl.
  repeat split; try done. by eexists.
Qed.

Lemma enrolled_db_run :
  ∃ db' response,
    request_certificate 50 (λ i, i) 99 awa (Some "  Awa Dossou ") enrolled_db
    = (db', inr response) ∧ status_code response = HTTP_201_CREATED.
Proof. eexists _, _. split; [vm_compute; reflexivity|done]. Qed.

Lemma request_certificate_created_witness :
  ∃ db' certificate,
    certificates db' = certificates enrolled_db ++ [certificate]
    ∧ cert_user certificate = 1 ∧ is_valid certificate = true
    ∧ cert_full_name certificate = "Awa Dossou".
Proof.
  destruct enrolled_db_run as (db' & response & Hrun & Hstatus).
  destruct (request_certificate_created enrolled_db 50 (λ i, i) 99 awa
              (Some "  Awa Dossou ") db' response Hrun Hstatus)
    as (certificate & value & progress & _ & _ & _ & [= <-] & _ & _ & _ & _ & Hcerts
        & Hu & Hv & Hname & _).
  by exists db', certificate.
Defined.

(** ** Verifying what was issued *)

Lemma verify_certificate_run db later certificate :
  NoDup (verification_code <$> certificates db) →
  certificate ∈ certificates db → is_valid certificate = true →
  verify_certificate later (verification_code certificate) db
  = (db, inr {| status_code := HTTP_200_OK;
                data := Verified true
                  {| verified_full_name := cert_full_name certificate;
                     verified_completion_date := completion_date certificate;
                     verified_total_modules_completed :=
                       total_modules_completed certificate;
                     verified_average_score := average_score certificate;
                     verified_verification_code := verification_code certificate;
                     verified_signed_by := signed_by certificate;
                     verified_signature_date := signature_date certificate |}
                  later |}).
Proof.
  intros Hnd Hin Hvalid. unfold verify_certificate.
  erewrite bind_run by reflexivity.
  rewrite (get_unique verification_code _ (certificates db) certificate Hnd Hin)
    by (try done; by intros y _ [-> _]).
  reflexivity.
Qed.

Lemma NoDup_codes_snoc l (c : Certificate) :
  NoDup (verification_code <$> l) →
  ¬ Exists (λ r, certificate_id r = certificate_id c
                 ∨ verification_code r = verification_code c) l →
  NoDup (verification_code <$> l ++ [c]).
Proof.
  intros Hnd Hfresh. rewrite fmap_app. apply NoDup_app. split; [done|].
  split; [|apply NoDup_singleton].
  intros k (r & -> & Hr)%list_elem_of_fmap Hin. simpl in Hin.
  apply list_elem_of_singleton in Hin. apply Hfresh, Exists_exists.
  exists r. split; [done|]. by right.
Qed.

(** X15.  Whenever [request_certificate] answers with a certificate, the one the
    learner already held or the one just issued, and the stored codes were
    pairwise distinct, [verify_certificate] accepts the code of that
    certificate afterwards and shows its name, date, counts and
    signature. *)
Theorem shown_certificate_verifies
    db now random uuid4 user sent db' status message certificate later :
  NoDup (verification_code <$> certificates db) →
  request_certificate now random uuid4 user sent db
  = (db', inr {| status_code := status;
                 data := CertificateMessage message certificate |}) →
  verify_certificate later (verification_code certificate) db'
  = (db', inr {| status_code := HTTP_200_OK;
                 data := Verified true
                   {| verified_full_name := cert_full_name certificate;
                      verified_completion_date := completion_date certificate;
                      verified_total_modules_completed :=
                        total_modules_completed certificate;
                      verified_average_score := average_score certificate;
                      verified_verification_code := verification_code certificate;
                      verified_signed_by := signed_by certificate;
                      verified_signature_date := signature_date certificate |}
                   later |}).
Proof.
  intros Hnd H.
  apply request_certificate_cases in H
    as [(_ & _ & [=])|[(_ & -> & existing & Hin & _ & Hvalid & [= _ _ <-])
       |[(_ & _ & ? & [=])|H]]].
  - by apply verify_certificate_run.
  - destruct H as (_ & _ & name & c & progress & _ & Hfresh & Hc & _ & -> & [= _ _ <-]).
    apply verify_certificate_run.
    + simpl. apply NoDup_codes_snoc; [done|]. by rewrite Hc.
    + simpl. apply elem_of_app. right. left.
    + by rewrite Hc.
Qed.

Lemma shown_certificate_verifies_witness :
  ∃ db' certificate verified,
    verify_certificate 60 (verification_code certificate) db'
    = (db', inr {| status_code := HTTP_200_OK;
                   data := Verified true verified 60 |})
    ∧ certificates db' = certificates enrolled_db ++ [certificate].
Proof.
  assert (∃ db' message certificate,
    request_certificate 50 (λ i, i) 99 awa (Some "  Awa Dossou ") enrolled_db
    = (db', inr {| status_code := 201; data := CertificateMessage message certificate |})
    ∧ certificates db' = certificates enrolled_db ++ [certificate])
    as (db' & message & certificate & Hrun & Hcerts)
    by (eexists _, _, _; split; vm_compute; reflexivity).
  exists db', certificate. eexists. split; [|done].
  apply (shown_certificate_verifies enrolled_db 50 (λ i, i) 99 awa
           (Some "  Awa Dossou ") db' 201 message certificate 60); [|done].
  vm_compute. compute_done.
Defined.

(** ** The figures on a certificate *)

Lemma of_nat_S n : (of_nat (S n) == of_nat n + 1)%Q.
Proof.
  unfold of_nat. rewrite Nat2Z.inj_succ, <- Z.add_1_r, inject_Z_plus. reflexivity.
Qed.

Lemma of_nat_pos n : 0 < n → (0 < of_nat n)%Q.
Proof. intros Hn. unfold of_nat, Qlt. simpl. lia. Qed.

Lemma sumQ_range (a b : Q) l :
  Forall (λ x, a <= x ∧ x <= b)%Q l →
  (of_nat (length l) * a <= sumQ l ∧ sumQ l <= of_nat (length l) * b)%Q.
Proof.
  induction 1 as [|x l [Hax Hxb] _ [IHa IHb]].
  - simpl. change (of_nat 0) with 0%Q. split; lra.
  - simpl length. simpl sumQ. rewrite of_nat_S. split; lra.
Qed.

Lemma mean_range (a b : Q) l :
  l ≠ [] → Forall (λ x, a <= x ∧ x <= b)%Q l → (a <= mean l ∧ mean l <= b)%Q.
Proof.
  intros Hne Hl. destruct (sumQ_range a b l Hl) as [Ha Hb].
  assert (0 < of_nat (length l))%Q as Hpos
    by (apply of_nat_pos; destruct l; [done|simpl; lia]).
  unfold mean. split.
  - apply Qle_shift_div_l; [done|]. lra.
  - apply Qle_shift_div_r; [done|]. lra.
Qed.

Lemma length_omap_le {A B} (f : A → option B) l : length (omap f l) ≤ length l.
Proof. induction l as [|x l IH]; csimpl; [done|]. destruct (f x); csimpl; lia. Qed.

Lemma best_scores_range db user :
  Forall attempt_sound (quiz_attempts db) →
  Forall (λ s, 80 <= s ∧ s <= 100)%Q (best_scores db user).
Proof.
  intros Hsound. apply Forall_forall. intros s Hs.
  unfold best_scores in Hs. apply list_elem_of_omap in Hs as (m & Hm & Hs).
  destruct (first _) as [a|] eqn:Hfirst; [|done]. injection Hs as <-.
  apply first_descQ_max in Hfirst as [[(_ & _ & Hp) Ha]%list_elem_of_filter _].
  destruct (proj1 (Forall_forall _ _) Hsound a Ha) as (Hflag & _ & H100 & _).
  split; [|done]. apply Qle_bool_iff. by rewrite <- Hflag.
Qed.

(** X16.  When every stored attempt carries the pass flag of its score, a
    certificate issued by [request_certificate] counts at most as many
    modules as there are training modules, and its average score lies
    between 80 and 100, or is 0 when it counts no module. *)
Theorem certificate_average_in_range
    db now random uuid4 user sent db' message certificate :
  Forall attempt_sound (quiz_attempts db) →
  request_certificate now random uuid4 user sent db
  = (db', inr {| status_code := HTTP_201_CREATED;
                 data := CertificateMessage message certificate |}) →
  total_modules_completed certificate ≤ length (training_modules db)
  ∧ ∃ average,
      average_score certificate = Some average
      ∧ if decide (total_modules_completed certificate = 0)
        then average = 0%Q
        else (80 <= average ∧ average <= 100)%Q.
Proof.
  intros Hsound H.
  apply request_certificate_cases in H
    as [(_ & _ & [=])|[(_ & _ & ? & _ & _ & _ & [=])|[(_ & _ & ? & [=])|H]]].
  destruct H as (_ & _ & name & c & progress & _ & _ & Hc & _ & _ & [= _ <-]).
  rewrite Hc. simpl. split; [apply length_omap_le|].
  eexists. split; [reflexivity|].
  pose proof (best_scores_range db (user_id user) Hsound) as Hrange.
  destruct (best_scores db (user_id user)) as [|s l] eqn:Hbest; simpl; [done|].
  by apply mean_range.
Qed.

Lemma certificate_average_in_range_witness :
  ∃ db' message certificate,
    request_certificate 50 (λ i, i) 99 awa (Some "  Awa Dossou ") enrolled_db
    = (db', inr {| status_code := HTTP_201_CREATED;
                   data := CertificateMessage message certificate |})
    ∧ total_modules_completed certificate ≤ length (training_modules enrolled_db)
    ∧ ∃ average,
        average_score certificate = Some average
        ∧ if decide (total_modules_completed certificate = 0)
          then average = 0%Q
          else (80 <= average ∧ average <= 100)%Q.
Proof.
  assert (∃ db' message certificate,
    request_certificate 50 (λ i, i) 99 awa (Some "  Awa Dossou ") enrolled_db
    = (db', inr {| status_code := HTTP_201_CREATED;
                   data := CertificateMessage message certificate |}))
    as (db' & message & certificate & Hrun)
    by (eexists _, _, _; vm_compute; reflexivity).
  exists db', message, certificate. split; [done|].
  apply (certificate_average_in_range enrolled_db 50 (λ i, i) 99 awa
           (Some "  Awa Dossou ") db' message certificate); [|done].
  repeat constructor; simpl; try done; lia.
Defined.

(** ** Percentage and eligibility *)

Lemma ratio_full c t :
  0 < t → (of_nat c / of_nat t * 100 == 100)%Q ↔ c = t.
Proof.
  intros Ht. pose proof (of_nat_pos t Ht) as Hpos.
  assert (of_nat c / of_nat t * 100 == 100 ↔ of_nat c == of_nat t)%Q as ->.
  { split; intros H.
    - assert (of_nat c / of_nat t == 1)%Q as H1 by lra.
      rewrite <- (Qmult_div_r (of_nat c) (of_nat t)) by lra. rewrite H1. lra.
    - rewrite H. field. lra. }
  unfold of_nat. rewrite inject_Z_injective. lia.
Qed.

Lemma ratio_range c t :
  0 < t → c ≤ t → (0 <= of_nat c / of_nat t * 100 ∧ of_nat c / of_nat t * 100 <= 100)%Q.
Proof.
  intros Ht Hc. pose proof (of_nat_pos t Ht) as Hpos.
  assert (0 <= of_nat c)%Q as Hc0 by (unfold of_nat, Qle; simpl; lia).
  assert (of_nat c <= of_nat t)%Q as Hct by (unfold of_nat; rewrite <- Zle_Qle; lia).
  assert (0 <= of_nat c / of_nat t ∧ of_nat c / of_nat t <= 1)%Q as [??].
  { split.
    - apply Qle_shift_div_l; [done|]. lra.
    - apply Qle_shift_div_r; [done|]. lra. }
  split; lra.
Qed.

Lemma recompute_counts db now user self :
  total_modules (recompute db now user self) = length (training_modules db)
  ∧ completed_modules (recompute db now user self)
    = (if decide (preferred_language user = "FR")
       then length (passed_modules db (user_id user))
       else length (filter (λ p, progress_user p = user_id user
                                 ∧ module_in (training_modules db) (progress_module p)
                                 ∧ is_completed p = true) (module_progress db)))
  ∧ can_get_certificate (recompute db now user self)
    = bool_decide (completed_modules (recompute db now user self)
                   = length (training_modules db))
  ∧ completion_percentage (recompute db now user self)
    = if decide (0 < length (training_modules db))
      then (of_nat (completed_modules (recompute db now user self))
            / of_nat (length (training_modules db)) * 100)%Q
      else completion_percentage self.
Proof. unfold recompute. by case_decide. Qed.

(** X17.  While there is a training module, [update_progress] finds the learner
    eligible for the certificate exactly when the completion percentage it
    stores is 100; on the audio track, under the uniqueness constraints of
    the schema, the completed modules never exceed the training modules and
    the percentage stays between 0 and 100. *)
Theorem recompute_percentage db now user self :
  training_modules db ≠ [] →
  (can_get_certificate (recompute db now user self) = true
   ↔ (completion_percentage (recompute db now user self) == 100)%Q)
  ∧ (consistent db → preferred_language user ≠ "FR" →
     completed_modules (recompute db now user self)
     ≤ total_modules (recompute db now user self)
     ∧ (0 <= completion_percentage (recompute db now user self))%Q
     ∧ (completion_percentage (recompute db now user self) <= 100)%Q).
Proof.
  intros Hne.
  assert (0 < length (training_modules db)) as Hpos
    by (destruct (training_modules db); [done|simpl; lia]).
  destruct (recompute_counts db now user self) as (Ht & Hc & -> & ->).
  rewrite decide_True by done. split.
  - rewrite bool_decide_eq_true. symmetry. by apply ratio_full.
  - intros Hdb Hlang. rewrite Ht.
    assert (completed_modules (recompute db now user self)
            ≤ length (training_modules db)) as Hle.
    { rewrite Hc, decide_False by done.
      set (F := filter _ (module_progress db)).
      assert (NoDup (progress_module <$> F)) as HF.
      { apply (NoDup_fmap_filter_key (λ p, (progress_user p, progress_module p)));
          [|apply Hdb].
        intros x y (-> & _) (-> & _) ->. done. }
      rewrite <- (length_fmap progress_module F),
        <- (length_fmap module_id (training_modules db)).
      apply submseteq_length, NoDup_submseteq; [done|].
      intros x (p & -> & [(_ & Hin & _) _]%list_elem_of_filter)%list_elem_of_fmap.
      exact Hin. }
    split; [done|]. by apply ratio_range.
Qed.

Lemma recompute_percentage_witness :
  can_get_certificate (recompute listened_db 9 codjo (enrolled 2 2 false)) = true
  ↔ (completion_percentage (recompute listened_db 9 codjo (enrolled 2 2 false)) == 100)%Q.
Proof.
  apply (recompute_percentage listened_db 9 codjo (enrolled 2 2 false)). done.
Defined.

(** X18.  With no active training module, [update_progress] finds every learner
    eligible, with 0 modules out of 0 and the stored percentage left as it
    was, and the validator of [CertificateRequestSerializer] lets every
    French-track learner with an acceptable name through; the certificate
    would count 0 modules. *)
Theorem no_training_modules db now user self sent name :
  training_modules db = [] →
  can_get_certificate (recompute db now user self) = true
  ∧ completed_modules (recompute db now user self) = 0
  ∧ total_modules (recompute db now user self) = 0
  ∧ completion_percentage (recompute db now user self) = completion_percentage self
  ∧ best_scores db (user_id user) = []
  ∧ (preferred_language user = "FR" → validate_full_name sent = inr name →
     CertificateRequestSerializer user sent db = (db, inr (inr name))).
Proof.
  intros Hnone.
  assert (passed_modules db (user_id user) = []) as Hpassed.
  { unfold passed_modules. rewrite filter_none; [done|].
    intros a _ (_ & Hin & _). unfold module_in in Hin. rewrite Hnone in Hin.
    by apply elem_of_nil in Hin. }
  destruct (recompute_counts db now user self) as (Ht & Hc & Hcan & Hpct).
  assert (completed_modules (recompute db now user self) = 0) as Hzero.
  { rewrite Hc. destruct (decide (preferred_language user = "FR")); [by rewrite Hpassed|].
    rewrite filter_none; [done|].
    intros p _ (_ & Hin & _). unfold module_in in Hin. rewrite Hnone in Hin.
    by apply elem_of_nil in Hin. }
  rewrite Hcan, Hpct, Ht, Hzero, Hnone. simpl.
  repeat split; try done.
  - unfold best_scores. by rewrite Hnone.
  - intros Hfr Hname. unfold CertificateRequestSerializer.
    erewrite bind_run by reflexivity. rewrite Hname.
    unfold CertificateRequestSerializer_validate.
    rewrite decide_True by done. change (id db) with db.
    rewrite Hpassed, Hnone. reflexivity.
Qed.

Lemma no_training_modules_witness :
  can_get_certificate (recompute reporting_only_db 9 awa (enrolled 1 1 false)) = true
  ∧ completed_modules (recompute reporting_only_db 9 awa (enrolled 1 1 false)) = 0
  ∧ total_modules (recompute reporting_only_db 9 awa (enrolled 1 1 false)) = 0
  ∧ completion_percentage (recompute reporting_only_db 9 awa (enrolled 1 1 false))
    = completion_percentage (enrolled 1 1 false)
  ∧ best_scores reporting_only_db (user_id awa) = []
  ∧ (preferred_language awa = "FR" →
     validate_full_name (Some "Awa Dossou") = inr "Awa Dossou" →
     CertificateRequestSerializer awa (Some "Awa Dossou") reporting_only_db
     = (reporting_only_db, inr (inr "Awa Dossou"))).
Proof.
  apply (no_training_modules reporting_only_db 9 awa (enrolled 1 1 false)
           (Some "Awa Dossou") "Awa Dossou").
  reflexivity.
Defined.

(** ** Actions of the administration site *)

Lemma filter_fmap_same {A} (P : A → Prop) `{!∀ x, Decision (P x)} (g : A → A) (l : list A) :
  (∀ x, x ∈ l → P (g x) ↔ P x) → filter P (g <$> l) = g <$> filter P l.
Proof.
  induction l as [|x l IH]; intros Hiff; [done|]. rewrite fmap_cons.
  assert (P (g x) ↔ P x) as Hx by (apply Hiff; left).
  assert (filter P (g <$> l) = g <$> filter P l) as IH'
    by (apply IH; intros y Hy; apply Hiff; by right).
  destruct (decide (P x)) as [HP|HP].
  - rewrite !filter_cons_True by tauto. by rewrite fmap_cons, IH'.
  - rewrite !filter_cons_False by tauto. done.
Qed.

Lemma filter_fmap_unchanged {A} (P : A → Prop) `{!∀ x, Decision (P x)} (g : A → A) (l : list A) :
  (∀ x, x ∈ l → P x → g x = x) → (∀ x, x ∈ l → P (g x) → P x) →
  filter P (g <$> l) = filter P l.
Proof.
  induction l as [|x l IH]; intros Hsame Hback; [done|]. rewrite fmap_cons.
  assert (filter P (g <$> l) = filter P l) as IH'
    by (apply IH; intros y Hy; [apply Hsame|apply Hback]; by right).
  destruct (decide (P x)) as [HP|HP].
  - rewrite (Hsame x) by (done || left). rewrite !filter_cons_True by done.
    by rewrite IH'.
  - rewrite !filter_cons_False; [done|done|]. intros HPg. apply HP, Hback; [left|done].
Qed.

Lemma invalidated_codes queryset l :
  verification_code <$> queryset_update cert_id (set_is_valid false) queryset l
  = verification_code <$> l.
Proof.
  unfold queryset_update. rewrite <- list_fmap_compose. apply list_fmap_ext.
  intros i x _. simpl. by case_decide.
Qed.

(** X19.  [invalidate_certificates] touches the certificates only and keeps their
    codes.  With codes that are pairwise distinct, the code of every
    certificate selected is refused by [verify_certificate] afterwards, and
    every code that belongs to no selected certificate is answered as
    before. *)
Theorem invalidate_certificates_revokes db queryset later :
  NoDup (verification_code <$> certificates db) →
  ∃ l, invalidate_certificates queryset db
       = (with_certificates (λ _, l) db,
          inr (length (filter (λ c, cert_id c ∈ queryset) (certificates db))))
     ∧ verification_code <$> l = verification_code <$> certificates db
     ∧ (∀ c, c ∈ certificates db → cert_id c ∈ queryset →
          (verify_certificate later (verification_code c)
             (with_certificates (λ _, l) db)).2
          = inr {| status_code := HTTP_404_NOT_FOUND;
                   data := NotVerified false "Certificat non trouvé ou invalide" |})
     ∧ (∀ code,
          (∀ c, c ∈ certificates db → cert_id c ∈ queryset → verification_code c ≠ code) →
          (verify_certificate later code (with_certificates (λ _, l) db)).2
          = (verify_certificate later code db).2).
Proof.
  intros Hnd.
  exists (queryset_update cert_id (set_is_valid false) queryset (certificates db)).
  split; [reflexivity|]. split; [apply invalidated_codes|]. split.
  - intros c Hc Hsel. unfold verify_certificate.
    erewrite bind_run by reflexivity. simpl certificates.
    replace (get _ _) with (@inl Exception Certificate DoesNotExist); [done|].
    symmetry. apply get_DoesNotExist.
    intros y (x & -> & Hx)%list_elem_of_fmap [Hcode Hvalid].
    assert (verification_code x = verification_code c) as Hsame
      by (revert Hcode; by case_decide).
    assert (x = c) as -> by (by eapply (NoDup_fmap_eq verification_code)).
    by rewrite decide_True in Hvalid.
  - intros code Hother.
    assert (get (λ c, verification_code c = code ∧ is_valid c = true)
              (queryset_update cert_id (set_is_valid false) queryset (certificates db))
            = get (λ c, verification_code c = code ∧ is_valid c = true)
                (certificates db)) as Hget.
    { unfold get, queryset_update. rewrite filter_fmap_unchanged; [done| |].
      - intros x Hx [Hcode Hvalid]. rewrite decide_False; [done|].
        intros Hsel. by apply (Hother x).
      - intros x Hx. case_decide; [|done]. by intros [_ ?]. }
    unfold verify_certificate. erewrite !bind_run by reflexivity.
    cbn [certificates with_certificates]. rewrite Hget.
    by destruct (get _ (certificates db)) as [[]|].
Qed.

Lemma invalidate_certificates_revokes_witness :
  ∃ l, invalidate_certificates [2] certified_db
       = (with_certificates (λ _, l) certified_db,
          inr (length (filter (λ c, cert_id c ∈ [2]) (certificates certified_db))))
     ∧ verification_code <$> l = verification_code <$> certificates certified_db
     ∧ (∀ c, c ∈ certificates certified_db → cert_id c ∈ [2] →
          (verify_certificate 60 (verification_code c)
             (with_certificates (λ _, l) certified_db)).2
          = inr {| status_code := HTTP_404_NOT_FOUND;
                   data := NotVerified false "Certificat non trouvé ou invalide" |})
     ∧ (∀ code,
          (∀ c, c ∈ certificates certified_db → cert_id c ∈ [2] →
                verification_code c ≠ code) →
          (verify_certificate 60 code (with_certificates (λ _, l) certified_db)).2
          = (verify_certificate 60 code certified_db).2).
Proof.
  apply (invalidate_certificates_revokes certified_db [2] 60). compute_done.
Defined.

(** X20.  Once every valid certificate of a learner has been invalidated,
    [request_certificate] no longer answers with a certificate the learner
    holds: an answer that carries a certificate is a 201 with a new one. *)
Theorem revoked_learner_may_request_again
    db queryset now random uuid4 user sent db' response message certificate :
  (∀ c, c ∈ certificates db → cert_user c = user_id user → is_valid c = true →
        cert_id c ∈ queryset) →
  request_certificate now random uuid4 user sent (invalidate_certificates queryset db).1
  = (db', inr response) →
  data response = CertificateMessage message certificate →
  status_code response = HTTP_201_CREATED
  ∧ (certificate ∉ certificates (invalidate_certificates queryset db).1)
  ∧ certificate ∈ certificates db'.
Proof.
  intros Hall H Hdata.
  apply request_certificate_cases in H
    as [(_ & _ & ->)|[(_ & _ & existing & Hin & Hu & Hvalid & ->)|[(_ & _ & ? & ->)|H]]];
    try discriminate Hdata.
  - exfalso. simpl in Hin. unfold queryset_update in Hin.
    apply list_elem_of_fmap in Hin as (x & -> & Hx).
    destruct (decide (cert_id x ∈ queryset)) as [|Hsel]; [done|].
    by apply Hsel, Hall.
  - destruct H as (_ & _ & name & c & progress & _ & Hfresh & Hc & _ & -> & ->).
    injection Hdata as _ <-. split; [done|]. split.
    + intros Hin. apply Hfresh, Exists_exists. exists c. split; [done|].
      left. by rewrite Hc.
    + simpl. apply elem_of_app. right. left.
Qed.

Lemma revoked_learner_may_request_again_witness :
  ∃ db' certificate,
    (certificate ∉ certificates (invalidate_certificates [4] issued_db).1)
    ∧ certificate ∈ certificates db' ∧ cert_user certificate = user_id awa.
Proof.
  assert (∃ db' message certificate,
    request_certificate 70 (λ i, S i) 100 awa (Some "Awa Dossou")
      (invalidate_certificates [4] issued_db).1
    = (db', inr {| status_code := 201; data := CertificateMessage message certificate |})
    ∧ cert_user certificate = user_id awa)
    as (db' & message & certificate & Hrun & Huser).
  { eexists _, _, _. split; vm_compute; reflexivity. }
  exists db', certificate.
  destruct (revoked_learner_may_request_again issued_db [4] 70 (λ i, S i) 100 awa
              (Some "Awa Dossou") db'
              {| status_code := 201; data := CertificateMessage message certificate |}
              message certificate) as (_ & Hnew & Hin);
    try done.
  intros c Hc Hu Hv. vm_compute in Hc.
  repeat (apply elem_of_cons in Hc as [->|Hc]; [by (left || discriminate)|]).
  by apply elem_of_nil in Hc.
Defined.

Lemma recompute_eligible_flag db now user flag p :
  recompute db now user (set_can_get_certificate flag p) = recompute db now user p.
Proof. reflexivity. Qed.

Lemma marked_ids queryset (l : list OverallProgress) :
  overall_id <$> queryset_update overall_id (set_can_get_certificate true) queryset l
  = overall_id <$> l.
Proof.
  unfold queryset_update. rewrite <- list_fmap_compose. apply list_fmap_ext.
  intros i x _. simpl. by case_decide.
Qed.

Lemma marked_get queryset u (l : list OverallProgress) :
  get (λ p, overall_user p = u)
      (queryset_update overall_id (set_can_get_certificate true) queryset l)
  = match get (λ p, overall_user p = u) l with
    | inr p => inr (if decide (overall_id p ∈ queryset)
                    then set_can_get_certificate true p else p)
    | inl e => inl e
    end.
Proof.
  unfold get, queryset_update. rewrite filter_fmap_same.
  - by destruct (filter _ l) as [|? [|??]].
  - intros x _. by case_decide.
Qed.

Lemma UserProgressView_get_object_run now user db :
  (UserProgressView_get_object now user db).2
  = match get (λ p, overall_user p = user_id user) (overall_progress db) with
    | inr p => inr (recompute db now user p)
    | inl DoesNotExist =>
        inr (recompute db now user
               {| overall_id := next_pk (overall_id <$> overall_progress db);
                  overall_user := user_id user; total_modules := 10;
                  completed_modules := 0; completion_percentage := 0%Q;
                  total_quiz_attempts := 0; average_quiz_score := None;
                  total_audio_time := 0; can_get_certificate := false;
                  certificate_requested := false; overall_started_at := now;
                  overall_updated_at := now; completed_at := None |})
    | inl e => inl e
    end.
Proof.
  unfold UserProgressView_get_object, OverallProgress_get_or_create.
  unfold mbind, DbM_bind, query, execute, raise, mret, DbM_ret. simpl.
  by destruct (get _ (overall_progress db)) as [[]|p].
Qed.

Lemma CertificateRequestSerializer_with_overall_progress f user sent db :
  (CertificateRequestSerializer user sent (with_overall_progress f db)).2
  = (CertificateRequestSerializer user sent db).2.
Proof.
  unfold CertificateRequestSerializer, mbind, DbM_bind, query. simpl.
  destruct (validate_full_name sent) as [e|value]; [reflexivity|].
  change (CertificateRequestSerializer_validate (with_overall_progress f db) user value)
    with (CertificateRequestSerializer_validate db user value).
  by destruct (CertificateRequestSerializer_validate db user value).
Qed.

(** The answer of [request_certificate], read off its branches. *)
Lemma request_certificate_result now random uuid4 user sent db :
  (request_certificate now random uuid4 user sent db).2
  = if decide (preferred_language user ≠ "FR") then
      inr {| status_code := HTTP_200_OK;
             data := ManualVerification
                       (FonUserProgressSerializer_to_representation db user) |}
    else
      match first (order_by (desc completion_date)
                     (filter (λ c, cert_user c = user_id user ∧ is_valid c = true)
                             (certificates db))) with
      | Some existing =>
          inr {| status_code := HTTP_200_OK;
                 data := CertificateMessage "Vous avez déjà un certificat valide"
                                            existing |}
      | None =>
          match (CertificateRequestSerializer user sent db).2 with
          | inl e => inl e
          | inr (inl errors) =>
              inr {| status_code := HTTP_400_BAD_REQUEST; data := RequestErrors errors |}
          | inr (inr name) =>
              if decide (Exists (λ r, certificate_id r = uuid4
                                      ∨ verification_code r
                                        = string_of_list_ascii
                                            (random_choices random code_alphabet 12))
                                (certificates db))
              then inl IntegrityError
              else
                match get (λ p, overall_user p = user_id user) (overall_progress db) with
                | inl e => inl e
                | inr _ =>
                    inr {| status_code := HTTP_201_CREATED;
                           data := CertificateMessage "Certificat généré avec succès"
                             {| cert_id := next_pk (cert_id <$> certificates db);
                                cert_user := user_id user; certificate_id := uuid4;
                                verification_code :=
                                  string_of_list_ascii
                                    (random_choices random code_alphabet 12);
                                cert_full_name :=
                                  (if decide (name = "") then full_name user else name);
                                completion_date := now;
                                total_modules_completed :=
                                  length (best_scores db (user_id user));
                                average_score :=
                                  Some match best_scores db (user_id user) with
                                       | [] => 0%Q
                                       | _ :: _ => mean (best_scores db (user_id user))
                                       end;
                                is_valid := true; signed_by := "";
                                signature_date := None |} |}
                end
          end
      end.
Proof.
  unfold request_certificate. erewrite bind_run by reflexivity.
  case_decide; [reflexivity|].
  change (id db) with db.
  destruct (first _) as [existing|]; [reflexivity|].
  unfold mbind at 1. unfold DbM_bind at 1.
  rewrite (read_only_run _ db (read_only_CertificateRequestSerializer user sent)).
  destruct (CertificateRequestSerializer user sent db).2 as [e|[errors|name]];
    try reflexivity.
  unfold mbind at 1. unfold DbM_bind at 1.
  rewrite Certificate_create_run.
  case_decide; [reflexivity|].
  unfold mbind, DbM_bind, query, execute, lift, UserActivity_create, mret, DbM_ret.
  cbn [fst snd overall_progress with_certificates].
  destruct (get _ (overall_progress db)) as [e|p]; reflexivity.
Qed.

(** X21.  [mark_certificate_eligible] has no effect on what the learner gets: the
    progress that [UserProgressView] returns afterwards, eligibility
    included, and the answer of [request_certificate] are what they would
    have been without it. *)
Theorem mark_certificate_eligible_is_overridden
    db queryset now random uuid4 user sent :
  (UserProgressView_get_object now user (mark_certificate_eligible queryset db).1).2
  = (UserProgressView_get_object now user db).2
  ∧ (request_certificate now random uuid4 user sent
       (mark_certificate_eligible queryset db).1).2
    = (request_certificate now random uuid4 user sent db).2.
Proof.
  change ((mark_certificate_eligible queryset db).1)
    with (with_overall_progress
            (queryset_update overall_id (set_can_get_certificate true) queryset) db).
  set (db1 := with_overall_progress _ db).
  assert (overall_progress db1
          = queryset_update overall_id (set_can_get_certificate true) queryset
              (overall_progress db)) as Hrows by reflexivity.
  split.
  - rewrite !UserProgressView_get_object_run. rewrite Hrows, marked_get, marked_ids.
    destruct (get _ (overall_progress db)) as [[]|p]; try reflexivity.
    case_decide; reflexivity.
  - rewrite !request_certificate_result. rewrite Hrows, marked_get.
    case_decide; [reflexivity|].
    change (certificates db1) with (certificates db).
    destruct (first _) as [existing|]; [reflexivity|].
    unfold db1 at 1. rewrite CertificateRequestSerializer_with_overall_progress.
    destruct (CertificateRequestSerializer user sent db).2 as [e|[errors|name]];
      try reflexivity.
    case_decide; [reflexivity|].
    destruct (get _ (overall_progress db)) as [e|p]; reflexivity.
Qed.

(** ** The verification serializer *)

(** X22.  [CertificateVerificationSerializer.validate_verification_code] accepts a
    code exactly when [verify_certificate] answers 200 for it, rejects it
    when the view answers 404, and raises when the view raises; it writes
    nothing. *)
Theorem validate_verification_code_agrees db now code :
  (validate_verification_code code db).1 = db
  ∧ match (validate_verification_code code db).2 with
    | inr (inr value) =>
        value = code
        ∧ ∃ certificate,
            (verify_certificate now code db).2
            = inr {| status_code := HTTP_200_OK;
                     data := Verified true certificate now |}
    | inr (inl _) =>
        (verify_certificate now code db).2
        = inr {| status_code := HTTP_404_NOT_FOUND;
                 data := NotVerified false "Certificat non trouvé ou invalide" |}
    | inl e => (verify_certificate now code db).2 = inl e
    end.
Proof.
  unfold validate_verification_code, verify_certificate.
  erewrite !bind_run by reflexivity.
  destruct (get _ (certificates db)) as [[]|certificate]; simpl; try done.
  split; [done|]. split; [done|]. by eexists.
Qed.

(** ** Reading the progress before requesting the certificate *)

Lemma get_update_row {A} (pk : A → nat) (P : A → Prop) `{!∀ x, Decision (P x)}
    r old (l : list A) :
  NoDup (pk <$> l) → get P l = inr old → pk r = pk old → P r →
  get P (update_row pk r l) = inr r.
Proof.
  intros Hnd Hget Hpk Hr. apply get_inr in Hget as (Hold & HP & Hfilter).
  unfold get, update_row. rewrite filter_fmap_same.
  - rewrite Hfilter. simpl. by rewrite decide_True.
  - intros x Hx. case_decide as Hx'; [|done].
    assert (x = old) as -> by (eapply (NoDup_fmap_eq pk); eauto; congruence).
    tauto.
Qed.

Lemma CertificateRequestSerializer_returns user sent db :
  ∃ r, (CertificateRequestSerializer user sent db).2 = inr r.
Proof.
  unfold CertificateRequestSerializer, mbind, DbM_bind, query. simpl.
  destruct (validate_full_name sent) as [e|value]; [by eexists|].
  destruct (CertificateRequestSerializer_validate db user value); by eexists.
Qed.

Lemma recompute_keys db now user self :
  overall_id (recompute db now user self) = overall_id self
  ∧ overall_user (recompute db now user self) = overall_user self.
Proof.
  unfold recompute. destruct (decide _).
  - by destruct (quiz_statistics _ _ _) as [[??]?].
  - by destruct (audio_statistics _ _).
Qed.

Lemma OverallProgress_get_or_create_run now u db :
  OverallProgress_get_or_create now u db
  = match get (λ p, overall_user p = u) (overall_progress db) with
    | inr p => (db, inr (p, false))
    | inl DoesNotExist =>
        let r0 :=
          {| overall_id := next_pk (overall_id <$> overall_progress db);
             overall_user := u; total_modules := 10; completed_modules := 0;
             completion_percentage := 0%Q; total_quiz_attempts := 0;
             average_quiz_score := None; total_audio_time := 0;
             can_get_certificate := false; certificate_requested := false;
             overall_started_at := now; overall_updated_at := now;
             completed_at := None |} in
        (with_overall_progress (λ rows, rows ++ [r0]) db, inr (r0, true))
    | inl e => (db, inl e)
    end.
Proof.
  unfold OverallProgress_get_or_create, mbind, DbM_bind, query, execute, mret, DbM_ret,
    raise. simpl.
  by destruct (get _ (overall_progress db)) as [[]|r].
Qed.

(** X23.  Under the uniqueness constraints of the schema on the overall progress
    (primary key, one row per learner), [UserProgressView.get_object]
    always answers, and leaves the learner with exactly one row, the one it
    answers with; a certificate request made afterwards does not end in
    [DoesNotExist]. *)
Theorem progress_view_then_request db now user later random uuid4 sent :
  NoDup (overall_id <$> overall_progress db) →
  NoDup (overall_user <$> overall_progress db) →
  ∃ db1 p,
    UserProgressView_get_object now user db = (db1, inr p)
    ∧ get (λ p, overall_user p = user_id user) (overall_progress db1) = inr p
    ∧ NoDup (overall_id <$> overall_progress db1)
    ∧ NoDup (overall_user <$> overall_progress db1)
    ∧ (request_certificate later random uuid4 user sent db1).2 ≠ inl DoesNotExist.
Proof.
  intros Hpk Huser.
  assert (∃ db1 p,
    UserProgressView_get_object now user db = (db1, inr p)
    ∧ get (λ p, overall_user p = user_id user) (overall_progress db1) = inr p
    ∧ NoDup (overall_id <$> overall_progress db1)
    ∧ NoDup (overall_user <$> overall_progress db1))
    as (db1 & p & Hrun & Hget & Hpk1 & Huser1).
  { unfold UserProgressView_get_object.
    unfold mbind at 1. unfold DbM_bind at 1.
    rewrite OverallProgress_get_or_create_run.
    destruct (get _ (overall_progress db)) as [[]|p] eqn:Hget.
    - (* no row yet *)
      pose proof (proj1 (get_DoesNotExist _ _) Hget) as Hnone.
      cbv zeta. cbn [fst]. rewrite update_progress_run.
      eexists _, _. split; [reflexivity|]. cbn [overall_progress with_overall_progress].
      set (r0 := {| overall_id := next_pk (overall_id <$> overall_progress db) |}).
      set (r1 := recompute _ now user r0).
      assert (overall_id r1 = overall_id r0 ∧ overall_user r1 = overall_user r0)
        as [Hid1 Hu1] by apply recompute_keys.
      assert (update_row overall_id r1 (overall_progress db ++ [r0])
              = overall_progress db ++ [r1]) as ->
        by (by apply (update_row_new overall_id)).
      split; [|split].
      + unfold get. rewrite filter_app, (filter_none _ _ Hnone).
        by rewrite filter_cons_True.
      + rewrite fmap_app. apply NoDup_app. split; [done|].
        split; [|apply NoDup_singleton].
        intros k (x & -> & Hx)%list_elem_of_fmap Hin.
        change (overall_id x ∈ [overall_id r1]) in Hin.
        apply list_elem_of_singleton in Hin. rewrite Hid1 in Hin. simpl in Hin.
        pose proof (next_pk_fresh overall_id (overall_progress db) x Hx). lia.
      + rewrite fmap_app. apply NoDup_app. split; [done|].
        split; [|apply NoDup_singleton].
        intros k (x & -> & Hx)%list_elem_of_fmap Hin.
        change (overall_user x ∈ [overall_user r1]) in Hin.
        apply list_elem_of_singleton in Hin. rewrite Hu1 in Hin.
        by apply (Hnone x Hx).
    - exfalso. revert Hget. apply (get_not_multiple overall_user); [done|].
      intros y y' ??. congruence.
    - exfalso. revert Hget. apply get_not_IntegrityError.
    - cbn [fst]. rewrite update_progress_run.
      eexists _, _. split; [reflexivity|]. cbn [overall_progress with_overall_progress].
      pose proof Hget as (Hp & Hu & _)%get_inr.
      destruct (recompute_keys db now user p) as [Hid1 Hu1].
      split; [|split].
      + apply (get_update_row overall_id _ _ p); try done. congruence.
      + by rewrite (fmap_update_row overall_id overall_id).
      + rewrite (fmap_update_row overall_user overall_id); [done|].
        intros x Hx Hid. rewrite Hid1 in Hid.
        assert (x = p) as -> by (by eapply (NoDup_fmap_eq overall_id)).
        done. }
  exists db1, p. repeat split; try done.
  rewrite request_certificate_result, Hget.
  case_decide; [done|]. destruct (first _); [done|].
  destruct (CertificateRequestSerializer_returns user sent db1) as [[errors|name] ->];
    [done|].
  by case_decide.
Qed.

Lemma progress_view_then_request_witness :
  ∃ db1 p,
    UserProgressView_get_object 48 awa certified_db = (db1, inr p)
    ∧ get (λ p, overall_user p = user_id awa) (overall_progress db1) = inr p
    ∧ NoDup (overall_id <$> overall_progress db1)
    ∧ NoDup (overall_user <$> overall_progress db1)
    ∧ (request_certificate 50 (λ i, i) 99 awa (Some "Awa Dossou") db1).2
      ≠ inl DoesNotExist.
Proof.
  apply (progress_view_then_request certified_db 48 awa 50 (λ i, i) 99
           (Some "Awa Dossou")); constructor.
Defined.

(** ** The leaderboard *)

Lemma by_completion_spec x y :
  by_completion x y = true
  ↔ (completion_percentage y < completion_percentage x)%Q
    ∨ ((completion_percentage y == completion_percentage x)%Q
       ∧ completed_modules y ≤ completed_modules x).
Proof.
  unfold by_completion.
  destruct (completion_percentage x ?= completion_percentage y)%Q eqn:Hc.
  - apply Qeq_alt in Hc. rewrite bool_decide_eq_true. split.
    + intros ?. right. split; [by symmetry|done].
    + intros [Hlt|[_ ?]]; [|done]. rewrite Hc in Hlt. by apply Qlt_irrefl in Hlt.
  - apply Qlt_alt in Hc. split; [done|].
    intros [Hlt|[Heq _]].
    + destruct (Qlt_irrefl (completion_percentage x)). by eapply Qlt_trans.
    + rewrite Heq in Hc. by apply Qlt_irrefl in Hc.
  - apply Qgt_alt in Hc. split; [by left|done].
Qed.

Lemma by_completion_total x y : by_completion x y = true ∨ by_completion y x = true.
Proof.
  rewrite !by_completion_spec.
  destruct (Q_dec (completion_percentage x) (completion_percentage y))
    as [[Hlt|Hgt]|Heq]; [by right; left|by left; left|].
  destruct (decide (completed_modules y ≤ completed_modules x)).
  - left. right. split; [by symmetry|done].
  - right. right. split; [done|lia].
Qed.

Lemma by_completion_trans x y z :
  by_completion x y = true → by_completion y z = true → by_completion x z = true.
Proof.
  rewrite !by_completion_spec.
  intros [H1|[H1 H1']] [H2|[H2 H2']].
  - left. by eapply Qlt_trans.
  - left. by rewrite H2.
  - left. by rewrite <- H1.
  - right. split; [by rewrite H2|lia].
Qed.

Lemma StronglySorted_lookup {A} (R : A → A → Prop) (l : list A) i j x y :
  StronglySorted R l → i < j → l !! i = Some x → l !! j = Some y → R x y.
Proof.
  intros Hl. revert i j. induction Hl as [|z l _ IH Hz]; intros i j Hij Hi Hj; [done|].
  destruct j as [|j]; [lia|]. destruct i as [|i].
  - injection Hi as ->. simpl in Hj.
    apply (proj1 (Forall_forall _ _) Hz). by eapply list_elem_of_lookup_2.
  - simpl in Hi, Hj. apply (IH i j); [lia|done|done].
Qed.

(** X24.  [user_leaderboard] writes nothing and always answers.  It counts every
    progress row; it shows at most 51 entries; every entry shown stands for
    the row at the position its rank names in the order by completion, and
    says truly whether that row is the learner's; the first fifty are
    ranked 1, 2, ...; an entry of a higher rank never has a higher
    completion percentage.  The learner's rank is the best rank among the
    learner's rows, an entry of that rank is shown, and there is no rank
    exactly when the learner has no row. *)
Theorem user_leaderboard_ranks commune_of user db :
  ∃ board,
    user_leaderboard commune_of user db
    = (db, inr {| status_code := HTTP_200_OK; data := board |})
    ∧ total_users board = length (overall_progress db)
    ∧ length (leaderboard board) ≤ 51
    ∧ (∀ e, e ∈ leaderboard board →
         1 ≤ rank e
         ∧ ∃ p, order_by by_completion (overall_progress db) !! (rank e - 1) = Some p
                ∧ entry_completion_percentage e = completion_percentage p
                ∧ entry_completed_modules e = completed_modules p
                ∧ is_current_user e = bool_decide (overall_user p = user_id user))
    ∧ (∀ i e, i < 50 → leaderboard board !! i = Some e → rank e = S i)
    ∧ (∀ e1 e2, e1 ∈ leaderboard board → e2 ∈ leaderboard board → rank e1 < rank e2 →
         (entry_completion_percentage e2 <= entry_completion_percentage e1)%Q)
    ∧ match user_rank board with
      | Some k =>
          (∃ e, e ∈ leaderboard board ∧ is_current_user e = true ∧ rank e = k)
          ∧ ∀ e, e ∈ leaderboard board → is_current_user e = true → k ≤ rank e
      | None => ∀ p, p ∈ overall_progress db → overall_user p ≠ user_id user
      end.
Proof.
  unfold user_leaderboard. erewrite bind_run by reflexivity. cbv zeta.
  set (O := order_by by_completion (overall_progress db)).
  match goal with |- context [imap ?g O] => set (f := g) end.
  set (L := imap f O). set (top := take 50 L).
  set (current := λ entry : LeaderboardEntry, is_current_user entry = true).
  assert (∀ i e, L !! i = Some e ↔ ∃ p, O !! i = Some p ∧ e = f i p) as HL.
  { intros i e. unfold L. rewrite list_lookup_imap.
    destruct (O !! i) as [p|]; simpl; split.
    - intros [= <-]. eauto.
    - by intros (q & [= <-] & ->).
    - done.
    - by intros (? & [=] & _). }
  assert (StronglySorted (λ a b, by_completion a b = true) O) as Hsorted
    by apply (order_by_sorted _ by_completion_total by_completion_trans).
  set (shown := if bool_decide (Exists current top) then top
                else match list_find current L with
                     | Some (_, entry) => top ++ [entry]
                     | None => top
                     end).
  assert (∀ e, e ∈ shown → ∃ i, L !! i = Some e) as Hshown.
  { intros e He.
    assert (e ∈ top → ∃ i, L !! i = Some e) as Htop
      by (intros (i & Hi & _)%elem_of_take; eauto).
    unfold shown in He. case_bool_decide; [auto|].
    destruct (list_find current L) as [[i x]|] eqn:Hfind; [|auto].
    apply elem_of_app in He as [?|He]; [auto|].
    apply list_elem_of_singleton in He as ->.
    apply list_find_Some in Hfind as (? & _). eauto. }
  eexists. split; [reflexivity|]. cbn [leaderboard total_users user_rank].
  fold current top shown.
  split; [|split; [|split; [|split; [|split]]]].
  - unfold L, O. by rewrite length_imap, length_order_by.
  - assert (length top ≤ 50) as Htop by (unfold top; rewrite length_take; lia).
    unfold shown. case_bool_decide; [lia|].
    destruct (list_find current L) as [[i x]|]; [|lia].
    rewrite length_app. simpl. lia.
  - intros e (i & (p & Hp & ->)%HL)%Hshown. simpl. split; [lia|].
    exists p. rewrite Nat.sub_0_r. done.
  - intros i e Hi He.
    assert (top !! i = Some e → rank e = S i) as Htop.
    { unfold top. rewrite lookup_take_lt by done. by intros (p & _ & ->)%HL. }
    unfold shown in He. case_bool_decide as Hin; [auto|].
    destruct (list_find current L) as [[j x]|] eqn:Hfind; [|auto].
    apply lookup_app_Some in He as [?|[Hlen He]]; [auto|].
    exfalso. apply Hin. apply Exists_exists. exists x.
    apply list_find_Some in Hfind as (Hj & Hx & _). split; [|done].
    apply elem_of_take. exists j. split; [done|].
    assert (length top < 50) as Hshort.
    { destruct (i - length top) eqn:E; [lia|]. by destruct n. }
    unfold top in Hshort. rewrite length_take in Hshort.
    apply lookup_lt_Some in Hj. lia.
  - intros e1 e2 (i1 & (p1 & Hp1 & ->)%HL)%Hshown (i2 & (p2 & Hp2 & ->)%HL)%Hshown.
    simpl. intros Hlt.
    assert (by_completion p1 p2 = true) as Hbefore
      by (apply (StronglySorted_lookup (λ a b, by_completion a b = true) O i1 i2);
          [done|lia|done|done]).
    apply by_completion_spec in Hbefore as [?|[-> _]]; [by apply Qlt_le_weak|].
    apply Qle_refl.
  - destruct (list_find current L) as [[i x]|] eqn:Hfind; simpl.
    + pose proof Hfind as (Hi & Hx & Hfirst)%list_find_Some.
      pose proof Hi as (p & Hp & Hxp)%HL.
      assert (rank x = S i) as Hrank by (by rewrite Hxp).
      split.
      * exists x. split; [|done].
        unfold shown. case_bool_decide as Hin.
        -- apply Exists_exists in Hin as (y & (j & Hj & Hlt)%elem_of_take & Hy).
           apply elem_of_take. exists i. split; [done|].
           destruct (decide (i ≤ j)); [lia|]. destruct (Hfirst j y Hj); [lia|done].
        -- apply elem_of_app. right. left.
      * intros e (j & Hj)%Hshown He. pose proof Hj as (q & _ & ->)%HL. simpl.
        rewrite Hrank. destruct (decide (i ≤ j)); [lia|].
        destruct (Hfirst j _ Hj); [lia|done].
    + apply list_find_None in Hfind.
      intros p Hp Hu.
      apply (elem_of_order_by by_completion) in Hp.
      apply list_elem_of_lookup in Hp as (j & Hj).
      assert (L !! j = Some (f j p)) as Hin by (apply HL; eauto).
      apply list_elem_of_lookup_2 in Hin.
      apply (proj1 (Forall_forall _ _) Hfind (f j p) Hin).
      unfold current. simpl. by apply bool_decide_eq_true.
Qed.

(** ** A question answered twice *)

Lemma process_answer_taken quiz_attempt t a db :
  Exists (λ r, answer_attempt r = attempt_id quiz_attempt
               ∧ answer_question r = question_id (question a)) (quiz_answers db) →
  process_answer quiz_attempt t a db = (db, inl IntegrityError).
Proof.
  intros Htaken. unfold process_answer, UserQuizAnswer_create.
  unfold mbind, DbM_bind, query, raise. simpl. by rewrite decide_True.
Qed.

(** Once an answer of the attempt to one of the questions is stored, the
    loop ends in [IntegrityError]. *)
Lemma process_answers_taken quiz_attempt l : ∀ db t,
  (∃ r, r ∈ quiz_answers db ∧ answer_attempt r = attempt_id quiz_attempt
        ∧ answer_question r ∈ (λ a, question_id (question a)) <$> l) →
  (process_answers quiz_attempt t l db).2 = inl IntegrityError.
Proof.
  induction l as [|a l IH]; intros db t (r & Hr & Hatt & Hq).
  { by apply elem_of_nil in Hq. }
  simpl.
  destruct (decide (Exists (λ r, answer_attempt r = attempt_id quiz_attempt
                                 ∧ answer_question r = question_id (question a))
                           (quiz_answers db))) as [Htaken|Hfree].
  - erewrite bind_raise by (by apply process_answer_taken). done.
  - destruct (process_answer_run quiz_attempt t a db)
      as (r1 & t1 & Hrun & _).
    { intros r' Hr' Hkey. apply Hfree, Exists_exists. eauto. }
    erewrite bind_run by apply Hrun. apply IH.
    exists r. split; [apply elem_of_app; by left|]. split; [done|].
    rewrite fmap_cons in Hq. apply elem_of_cons in Hq as [Hq|Hq]; [|done].
    destruct Hfree. apply Exists_exists. eauto.
Qed.

Lemma process_answers_repeated quiz_attempt l : ∀ db t,
  ¬ NoDup ((λ a, question_id (question a)) <$> l) →
  (process_answers quiz_attempt t l db).2 = inl IntegrityError.
Proof.
  induction l as [|a l IH]; intros db t Hdup.
  { destruct Hdup. constructor. }
  simpl.
  destruct (decide (Exists (λ r, answer_attempt r = attempt_id quiz_attempt
                                 ∧ answer_question r = question_id (question a))
                           (quiz_answers db))) as [Htaken|Hfree].
  - erewrite bind_raise by (by apply process_answer_taken). done.
  - destruct (process_answer_run quiz_attempt t a db)
      as (r1 & t1 & Hrun & _ & Hatt & Hq & _).
    { intros r' Hr' Hkey. apply Hfree, Exists_exists. eauto. }
    erewrite bind_run by apply Hrun.
    destruct (decide (question_id (question a)
                      ∈ (λ a, question_id (question a)) <$> l)) as [Hin|Hnotin].
    + apply process_answers_taken. exists r1.
      split; [apply elem_of_app; right; left|]. split; [done|]. by rewrite Hq.
    + apply IH. intros Hnd. apply Hdup. rewrite fmap_cons. by apply NoDup_cons.
Qed.

(** X25.  When the answers that the serializer accepted name a question twice, a
    French-track learner's submission ends in [IntegrityError] (the second
    answer to the question breaks [unique_together]); the attempt created
    before the loop stays in the table, the last row, with score 0 and not
    passed, under the next attempt number. *)
Theorem submit_quiz_repeated_question db now user request_data data :
  NoDup (module_id <$> modules db) →
  (QuizSubmissionSerializer request_data db).2 = inr (inr data) →
  preferred_language user = "FR" →
  (∃ q, q ∈ quiz_questions db ∧ question_module q = data_module_id request_data
        ∧ question_is_active q = true) →
  ¬ NoDup ((λ a, question_id (question a)) <$> answers data) →
  ∃ db' a,
    submit_quiz now user request_data db = (db', inl IntegrityError)
    ∧ quiz_attempts db' = quiz_attempts db ++ [a]
    ∧ attempt_user a = user_id user
    ∧ attempt_module a = data_module_id request_data
    ∧ attempt_number a
      = S (max_list (attempt_numbers db (user_id user) (data_module_id request_data)))
    ∧ score a = 0%Q ∧ is_passed a = false.
Proof.
  intros Hpk Hser Hfr (q & Hq & Hqm & Hqa) Hdup.
  destruct (QuizSubmissionSerializer_ok _ _ _ Hser) as (Hmid & module & Hget).
  apply get_inr in Hget as (Hmod & [Hmodid _] & _).
  assert (get (λ m, module_id m = validated_module_id data) (modules db) = inr module)
    as Hget by (apply get_by_pk; [done|done|congruence]).
  unfold submit_quiz.
  erewrite bind_run; cycle 1.
  { rewrite read_only_run by apply read_only_QuizSubmissionSerializer.
    by rewrite Hser. }
  cbv beta iota.
  erewrite bind_run by reflexivity.
  erewrite bind_run by (unfold lift; rewrite Hget; reflexivity).
  rewrite decide_False by (intros ?; congruence).
  erewrite bind_run by reflexivity. cbv beta zeta.
  erewrite bind_run by reflexivity. cbv beta zeta.
  rewrite decide_False; cycle 1.
  { unfold get_quiz_questions. intros Hnil%order_by_nil_inv.
    assert (q ∈ @nil QuizQuestion) as Hin; [|by apply elem_of_nil in Hin].
    rewrite <- Hnil. apply list_elem_of_filter. split; [|done]. split; [congruence|done]. }
  edestruct (UserQuizAttempt_create_run now (user_id user) (module_id module))
    as (a & Hcreate & Haid & Hau & Ham & Han); [apply attempt_number_fresh|].
  erewrite bind_run by apply Hcreate.
  assert (is_passed a = false ∧ score a = 0%Q) as [Ep Es].
  { unfold UserQuizAttempt_create, mbind, DbM_bind, query, execute, mret, DbM_ret
      in Hcreate. simpl in Hcreate.
    rewrite decide_False in Hcreate by apply attempt_number_fresh.
    by injection Hcreate as _ <-. }
  unfold mbind at 1. unfold DbM_bind at 1.
  match goal with
  | |- context [process_answers ?att ?t ?l ?d] =>
      pose proof (process_answers_attempts att l t d) as Hatt;
      pose proof (process_answers_repeated att l d t Hdup) as Hraise;
      destruct (process_answers att t l d) as [db1 r1]
  end.
  simpl in Hatt, Hraise. subst r1.
  exists db1, a. split; [done|]. split; [done|].
  rewrite next_attempt_number in Han. unfold attempt_numbers.
  rewrite <- Hmodid. repeat split; done.
Qed.

Lemma submit_quiz_repeated_question_witness :
  ∃ db' a,
    submit_quiz 9 awa doubled_submission sample_db = (db', inl IntegrityError)
    ∧ quiz_attempts db' = quiz_attempts sample_db ++ [a]
    ∧ attempt_user a = user_id awa
    ∧ attempt_module a = data_module_id doubled_submission
    ∧ attempt_number a
      = S (max_list (attempt_numbers sample_db (user_id awa)
                       (data_module_id doubled_submission)))
    ∧ score a = 0%Q ∧ is_passed a = false.
Proof.
  eapply (submit_quiz_repeated_question sample_db 9 awa doubled_submission).
  - compute_done.
  - vm_compute. reflexivity.
  - reflexivity.
  - exists question_1. split; [left|]. done.
  - vm_compute. intros Hnd. apply NoDup_cons in Hnd as [Hin _]. apply Hin. left.
Defined.

(** ** The constraints of the schema are kept *)

Lemma consistent_of_tables db db' :
  consistent db →
  modules db' = modules db → module_progress db' = module_progress db →
  certificates db' = certificates db →
  (∀ x, x ∈ quiz_answers db' → answer_attempt x ∈ attempt_id <$> quiz_attempts db') →
  consistent db'.
Proof. intros [] Hm Hp Hc Hfk. split; [by rewrite Hm|done|by rewrite Hp..|by rewrite Hc]. Qed.

Lemma process_answer_tables quiz_attempt t a db :
  modules (process_answer quiz_attempt t a db).1 = modules db
  ∧ quiz_attempts (process_answer quiz_attempt t a db).1 = quiz_attempts db
  ∧ module_progress (process_answer quiz_attempt t a db).1 = module_progress db
  ∧ certificates (process_answer quiz_attempt t a db).1 = certificates db
  ∧ ∀ x, x ∈ quiz_answers (process_answer quiz_attempt t a db).1 →
         x ∈ quiz_answers db ∨ answer_attempt x = attempt_id quiz_attempt.
Proof.
  destruct (decide (Exists (λ r, answer_attempt r = attempt_id quiz_attempt
                                 ∧ answer_question r = question_id (question a))
                           (quiz_answers db))) as [Htaken|Hfree].
  - rewrite process_answer_taken by done. simpl. repeat split; auto.
  - destruct (process_answer_run quiz_attempt t a db) as (r & t' & Hrun & _ & Hatt & _).
    { intros r' Hr' Hkey. apply Hfree, Exists_exists. eauto. }
    rewrite Hrun. simpl. repeat split; try done.
    intros x [?|Hx]%elem_of_app; [by left|].
    apply list_elem_of_singleton in Hx as ->. by right.
Qed.

Lemma process_answers_tables quiz_attempt l : ∀ t db,
  modules (process_answers quiz_attempt t l db).1 = modules db
  ∧ quiz_attempts (process_answers quiz_attempt t l db).1 = quiz_attempts db
  ∧ module_progress (process_answers quiz_attempt t l db).1 = module_progress db
  ∧ certificates (process_answers quiz_attempt t l db).1 = certificates db
  ∧ ∀ x, x ∈ quiz_answers (process_answers quiz_attempt t l db).1 →
         x ∈ quiz_answers db ∨ answer_attempt x = attempt_id quiz_attempt.
Proof.
  induction l as [|a l IH]; intros t db; [simpl; repeat split; auto|]. simpl.
  destruct (process_answer_tables quiz_attempt t a db) as (Hm & Ha & Hp & Hc & Hx).
  unfold mbind, DbM_bind.
  destruct (process_answer quiz_attempt t a db) as [db1 [e|t1]]; simpl in *; [done|].
  destruct (IH t1 db1) as (Hm' & Ha' & Hp' & Hc' & Hx').
  repeat split; try congruence.
  intros x [Hin|?]%Hx'; [|by right]. by apply Hx.
Qed.

Lemma submit_quiz_consistent db now user d :
  consistent db → consistent (submit_quiz now user d db).1.
Proof.
  intros Hdb. destruct (submit_quiz now user d db) as [db' r] eqn:H. simpl.
  unfold submit_quiz in H.
  unfold mbind at 1 in H. unfold DbM_bind at 1 in H.
  pose proof (read_only_QuizSubmissionSerializer d db) as Hro.
  destruct (QuizSubmissionSerializer d db) as [db0 [e|[errors|data]]];
    simpl in Hro; subst db0;
    [by injection H as <- <-|by injection H as <- <-|].
  erewrite bind_run in H by reflexivity.
  unfold mbind at 1 in H. unfold DbM_bind at 1 in H. unfold lift at 1 in H.
  destruct (get _ (modules db)) as [e|module] eqn:Hget; [by injection H as <- <-|].
  case_decide as Hlang; [by injection H as <- <-|].
  erewrite bind_run in H by reflexivity. cbv beta zeta in H.
  erewrite bind_run in H by reflexivity. cbv beta zeta in H.
  case_decide; [by injection H as <- <-|].
  edestruct (UserQuizAttempt_create_run now (user_id user) (module_id module))
    as (a & Hcreate & Haid & _); [apply attempt_number_fresh|].
  erewrite bind_run in H by apply Hcreate.
  unfold mbind at 1 in H. unfold DbM_bind at 1 in H.
  match type of H with
  | context [process_answers ?att ?t ?l ?d] =>
      destruct (process_answers_tables att l t d) as (Hm & Ha & Hp & Hc & Hx);
      destruct (process_answers att t l d) as [db1 [e|t1]]
  end; simpl in Hm, Ha, Hp, Hc, Hx.
  - injection H as <- <-. apply (consistent_of_tables db); try done.
    intros x [Hin|Hatt]%Hx; rewrite Ha, fmap_app.
    + apply elem_of_app. left. by apply (answers_fk db Hdb).
    + apply elem_of_app. right. rewrite Hatt. left.
  - unfold UserQuizAttempt_save in H.
    erewrite bind_run in H by (erewrite bind_run by reflexivity; reflexivity).
    erewrite bind_run in H by reflexivity.
    injection H as <- <-. apply (consistent_of_tables db); try done.
    intros x Hin. cbn [quiz_attempts quiz_answers with_quiz_attempts] in *.
    rewrite (fmap_update_row attempt_id attempt_id) by done.
    apply Hx in Hin as [Hin|Hatt]; rewrite Ha, fmap_app.
    + apply elem_of_app. left. by apply (answers_fk db Hdb).
    + apply elem_of_app. right. rewrite Hatt. left.
Qed.

Lemma track_audio_progress_consistent db now user d :
  consistent db → consistent (track_audio_progress now user d db).1.
Proof.
  intros Hdb.
  pose proof (progress_pk db Hdb) as Hpk.
  pose proof (progress_unique db Hdb) as Hkey. fold progress_key in Hkey.
  destruct (track_audio_progress now user d db) as [db' r] eqn:H. simpl.
  unfold track_audio_progress in H.
  unfold mbind at 1 in H. unfold DbM_bind at 1 in H.
  pose proof (read_only_AudioProgressSerializer d db) as Hro.
  destruct (AudioProgressSerializer d db) as [db0 [e|[errors|data]]];
    simpl in Hro; subst db0;
    [by injection H as <- <-|by injection H as <- <-|].
  erewrite bind_run in H by reflexivity.
  unfold mbind at 1 in H. unfold DbM_bind at 1 in H. unfold lift at 1 in H.
  destruct (get _ (modules db)) as [e|module]; [by injection H as <- <-|].
  case_decide; [by injection H as <- <-|].
  set (p := validated_progress_percentage data) in *.
  set (t := validated_current_time data) in *.
  unfold mbind at 1 in H. unfold DbM_bind at 1 in H.
  rewrite ModuleProgress_get_or_create_run in H.
  destruct (get _ (module_progress db)) as [[]|old] eqn:Hget;
    [|by injection H as <- <-|by injection H as <- <-|].
  - (* created *)
    cbv zeta in H. simpl fst in H. simpl snd in H. cbv iota in H.
    erewrite bind_run in H by reflexivity.
    pose proof (proj1 (get_DoesNotExist _ _) Hget) as Hnone.
    set (r0 := ModuleProgress_pre_save now _) in H.
    destruct (progress_created (module_progress db) r0 (user_id user) (module_id module))
      as (Hpk0 & Hkey0 & _); try done.
    destruct (Qle_bool 100 p).
    + unfold ModuleProgress_save in H.
      erewrite bind_run in H by (erewrite bind_run by reflexivity; reflexivity).
      injection H as <- <-.
      set (r1 := ModuleProgress_pre_save now (set_completed true (Some now) now r0)).
      destruct (progress_created (module_progress db) r1 (user_id user)
                  (module_id module)) as (Hpk1 & Hkey1 & _); try done.
      assert (update_row progress_id r1 (module_progress db ++ [r0])
              = module_progress db ++ [r1]) as Hrows
        by (by apply (update_row_new progress_id)).
      destruct Hdb. split; try done; simpl; rewrite Hrows; done.
    + erewrite bind_run in H by reflexivity. injection H as <- <-.
      by apply consistent_with_module_progress.
  - (* the record exists *)
    cbv zeta in H. simpl fst in H. simpl snd in H. cbv iota in H.
    pose proof Hget as (Hold & [Hu Hmo] & _)%get_inr.
    assert (∃ l1 r1,
      (if Qlt_le_dec (progress_percentage old) p
       then ModuleProgress_save now (set_progress p t now old)
       else mret old : DbM ModuleProgress) db
      = (with_module_progress (λ _, l1) db, inr r1)
      ∧ NoDup (progress_id <$> l1) ∧ NoDup (progress_key <$> l1)
      ∧ r1 ∈ l1 ∧ progress_user r1 = user_id user
      ∧ progress_module r1 = module_id module)
      as (l1 & r1 & Hrun1 & Hpk1 & Hkey1 & Hin1 & Hu1 & Hmo1).
    { destruct (Qlt_le_dec (progress_percentage old) p).
      - eexists _, _. split; [reflexivity|].
        destruct (ModuleProgress_pre_save_fields now (set_progress p t now old))
          as (Hid1 & Hu1 & Hm1 & _). simpl in Hid1, Hu1, Hm1.
        destruct (progress_saved (module_progress db) old
                    (ModuleProgress_pre_save now (set_progress p t now old))
                    (user_id user) (module_id module)) as (? & ? & Hget1%get_inr);
          try done; try congruence.
        destruct Hget1 as (? & _). repeat split; try done; congruence.
      - exists (module_progress db), old. rewrite with_module_progress_id. done. }
    erewrite bind_run in H by apply Hrun1.
    destruct (Qle_bool 100 p).
    + unfold ModuleProgress_save in H.
      erewrite bind_run in H by (erewrite bind_run by reflexivity; reflexivity).
      injection H as <- <-.
      set (r2 := ModuleProgress_pre_save now (set_completed true (Some now) now r1)).
      destruct (ModuleProgress_pre_save_fields now (set_completed true (Some now) now r1))
        as (Hid2 & Hu2 & Hm2 & _).
      fold r2 in Hid2, Hu2, Hm2. simpl in Hid2, Hu2, Hm2.
      destruct (progress_saved l1 r1 r2 (user_id user) (module_id module))
        as (? & ? & _); try done; try congruence.
      destruct Hdb. by split.
    + erewrite bind_run in H by reflexivity. injection H as <- <-.
      by apply consistent_with_module_progress.
Qed.

Lemma mark_module_started_consistent db now user module_pk :
  consistent db → consistent (mark_module_started now user module_pk db).1.
Proof.
  intros Hdb.
  pose proof (progress_pk db Hdb) as Hpk.
  pose proof (progress_unique db Hdb) as Hkey. fold progress_key in Hkey.
  destruct (mark_module_started now user module_pk db) as [db' r] eqn:H. simpl.
  unfold mark_module_started in H.
  erewrite bind_run in H by reflexivity.
  unfold mbind at 1 in H. unfold DbM_bind at 1 in H.
  unfold lift at 1, get_object_or_404 at 1 in H.
  destruct (get _ (modules db)) as [[]|module]; try (by injection H as <- <-).
  unfold mbind at 1 in H. unfold DbM_bind at 1 in H.
  rewrite ModuleProgress_get_or_create_run in H.
  destruct (get _ (module_progress db)) as [[]|old] eqn:Hold;
    try (by injection H as <- <-).
  - cbv beta iota zeta in H. simpl fst in H.
    erewrite bind_run in H by reflexivity. injection H as <- <-.
    pose proof (proj1 (get_DoesNotExist _ _) Hold) as Hnone.
    set (r0 := ModuleProgress_pre_save now _).
    destruct (progress_created (module_progress db) r0 (user_id user) (module_id module))
      as (Hpk0 & Hkey0 & _); try done.
    destruct Hdb. by split.
  - cbv beta iota zeta in H. simpl fst in H.
    erewrite bind_run in H by reflexivity. injection H as <- <-.
    destruct Hdb. by split.
Qed.

Lemma request_certificate_consistent db now random uuid4 user sent :
  consistent db → consistent (request_certificate now random uuid4 user sent db).1.
Proof.
  intros Hdb.
  destruct (request_certificate now random uuid4 user sent db) as [db' r] eqn:H. simpl.
  unfold request_certificate in H.
  erewrite bind_run in H by reflexivity.
  case_decide; [by injection H as <- <-|].
  destruct (first _) as [existing|]; [by injection H as <- <-|].
  unfold mbind at 1 in H. unfold DbM_bind at 1 in H.
  pose proof (read_only_CertificateRequestSerializer user sent db) as Hro.
  destruct (CertificateRequestSerializer user sent db) as [db0 [e|[errors|name]]];
    simpl in Hro; subst db0;
    [by injection H as <- <-|by injection H as <- <-|].
  unfold mbind at 1 in H. unfold DbM_bind at 1 in H.
  rewrite Certificate_create_run in H.
  case_decide as Hfresh; [by injection H as <- <-|].
  erewrite bind_run in H by reflexivity.
  unfold mbind at 1 in H. unfold DbM_bind at 1 in H. unfold lift at 1 in H.
  simpl in H.
  pose proof (verification_code_unique db Hdb) as Hcodes.
  destruct (get _ (overall_progress db)) as [e|p].
  - injection H as <- <-. destruct Hdb. split; try done.
    simpl. by apply NoDup_codes_snoc.
  - injection H as <- <-. destruct Hdb. split; try done.
    simpl. by apply NoDup_codes_snoc.
Qed.

Lemma UserProgressView_get_object_consistent db now user :
  consistent db → consistent (UserProgressView_get_object now user db).1.
Proof.
  intros Hdb. unfold UserProgressView_get_object.
  unfold mbind at 1. unfold DbM_bind at 1.
  rewrite OverallProgress_get_or_create_run.
  destruct (get _ (overall_progress db)) as [[]|p]; try done.
  - cbv zeta. cbn [fst]. rewrite update_progress_run. destruct Hdb. by split.
  - cbn [fst]. rewrite update_progress_run. destruct Hdb. by split.
Qed.

(** X26.  Whatever is asked of the views and admin actions that write, in
    whatever order and however each request ends, the constraints of the
    schema hold afterwards as they held before: module ids, audio record ids
    and verification codes stay pairwise distinct, there stays one audio record
    per learner and module, and every stored answer belongs to a stored
    attempt. *)
Theorem requests_keep_schema_constraints requests db :
  consistent db → consistent (serve_all requests db).
Proof.
  revert db. induction requests as [|request requests IH]; intros db Hdb; [done|].
  simpl. apply IH. destruct request; simpl.
  - by apply submit_quiz_consistent.
  - by apply track_audio_progress_consistent.
  - by apply mark_module_started_consistent.
  - by apply request_certificate_consistent.
  - by apply UserProgressView_get_object_consistent.
  - destruct Hdb. split; try done. simpl. by rewrite invalidated_codes.
  - destruct Hdb. by split.
Qed.

Lemma requests_keep_schema_constraints_witness :
  consistent (serve_all sample_requests sample_db).
Proof.
  apply (requests_keep_schema_constraints sample_requests sample_db).
  apply sample_db_consistent.
Defined.

(** What that morning leaves behind: two attempts of Awa, the second with
    score 0; one audio record, completed; no certificate, since Awa has
    passed no module. *)
Example sample_requests_outcome :
  (attempt_number <$> quiz_attempts (serve_all sample_requests sample_db)) = [1; 2]
  ∧ (is_completed <$> module_progress (serve_all sample_requests sample_db)) = [true]
  ∧ certificates (serve_all sample_requests sample_db) = [].
Proof. by vm_compute. Qed.
